(** * BibleTime bookmark model: [src/backend/btbookmarksmodel.cpp]

    A shallow embedding of the bookmark tree ([BookmarkItemBase],
    [BookmarkFolder], [BookmarkItem]), of its XML codec ([loadTree],
    [handleXmlElement], [serializeTreeFromRootItem], [saveItem]) and of the
    operations of [BtBookmarksModel] ([load], [save], [copyItems],
    [sortItems], [needSave], and the rows, items and data the views ask
    for), followed by the properties of the specification that concern them
    and by further properties of the code. *)

From Stdlib Require Import ZArith Lia Permutation Sorted Ascii.
From stdpp Require Import gmap strings list fin_maps sorting.

Local Open Scope string_scope.
Local Open Scope list_scope.

(** ** Qt's DOM, as far as the codec uses it *)

Local Unset Elimination Schemes.

(** A [QDomNode].  The attributes of an element are a finite map: QDom keeps
    them in a hash and their order carries no meaning. *)
Inductive QDomNode : Type :=
| ElementNode (tagName : string) (attributes : gmap string string)
              (childNodes : list QDomNode)
| TextNode (data : string)
| CommentNode (data : string)
| ProcessingInstruction (target data : string).

Local Set Elimination Schemes.

(** A [QDomDocument]: the name of its document type, when it has one, and
    its children.  The null document has none. *)
Record QDomDocument : Type := {
  doctype : option string;
  docNodes : list QDomNode
}.

Definition nullDocument : QDomDocument :=
  {| doctype := None; docNodes := [] |}.

Definition isElement (n : QDomNode) : bool :=
  match n with ElementNode _ _ _ => true | _ => false end.

(** [QDomDocument::documentElement()]: the first element among the children
    of the document; the result is the null element ([None]) without one. *)
Definition documentElement (doc : QDomDocument) : option QDomNode :=
  List.find isElement (docNodes doc).

(** [QDomElement::tagName()]; the null element and the nodes that are not
    elements (whose [toElement()] is null) answer the empty string. *)
Definition tagName_of (n : option QDomNode) : string :=
  match n with
  | Some (ElementNode tag _ _) => tag
  | _ => ""
  end.

(** [QDomElement::setAttribute(name, value)]. *)
Definition setAttribute (name value : string) (n : QDomNode) : QDomNode :=
  match n with
  | ElementNode tag attrs kids => ElementNode tag (<[name := value]> attrs) kids
  | _ => n
  end.

(** [QDomNode::appendChild(child)]. *)
Definition appendChild (child : QDomNode) (n : QDomNode) : QDomNode :=
  match n with
  | ElementNode tag attrs kids => ElementNode tag attrs (kids ++ [child])
  | _ => n
  end.

Definition createElement (tag : string) : QDomNode := ElementNode tag ∅ [].

(** ** The module registry *)

Inductive ModuleType : Type :=
  Bible | Commentary | GenericBook | Lexicon | UnknownType.

(** What the model reads of a [CSwordModuleInfo]. *)
Record CSwordModuleInfo : Type := {
  mod_name : string;
  mod_type : ModuleType;
  mod_description : string   (* config(CSwordModuleInfo::Description) *)
}.

(** ** Items *)

(** The address of an item: items are compared as pointers. *)
Definition ptr : Type := nat.

Inductive QIcon : Type := NullIcon | ClosedFolderIcon | BookmarkIcon.

(** [Qt::ItemFlags]. *)
Definition ItemIsSelectable : Z := 1.
Definition ItemIsEditable : Z := 2.
Definition ItemIsDragEnabled : Z := 4.
Definition ItemIsDropEnabled : Z := 8.
Definition ItemIsEnabled : Z := 32.

Definition folderFlags : Z :=
  Z.lor ItemIsEditable (Z.lor ItemIsSelectable
    (Z.lor ItemIsDragEnabled (Z.lor ItemIsDropEnabled ItemIsEnabled))).

Definition bookmarkFlags : Z :=
  Z.lor ItemIsSelectable
    (Z.lor ItemIsDragEnabled (Z.lor ItemIsDropEnabled ItemIsEnabled)).

(** The dynamic type of an item, with the fields the subclass adds:
    what [dynamic_cast] looks at. *)
Inductive Derived : Type :=
| PlainItem                                        (* BookmarkItemBase *)
| FolderItem                                       (* BookmarkFolder *)
| BookmarkData (m_key m_description m_moduleName : string). (* BookmarkItem *)

Local Unset Elimination Schemes.

(** [BookmarkItemBase] and its two subclasses.  An item owns its children
    (its destructor deletes them), so the items of a model form a tree;
    [this] is the address of the object. *)
Inductive BookmarkItemBase : Type := Item {
  this : ptr;
  derived : Derived;
  m_children : list BookmarkItemBase;
  m_flags : Z;
  m_icon : QIcon;
  m_parent : option ptr;
  m_text : string;
  m_tooltip : string
}.

Local Set Elimination Schemes.

(** Induction over an item and, through the list, over its children. *)
Section BookmarkItemBase_ind.
Variable P : BookmarkItemBase → Prop.
Hypothesis P_item : ∀ a d kids f i p t tip,
  Forall P kids → P (Item a d kids f i p t tip).

Fixpoint BookmarkItemBase_ind (x : BookmarkItemBase) : P x :=
  match x with
  | Item a d kids f i p t tip =>
      P_item a d kids f i p t tip
        ((fix all (l : list BookmarkItemBase) : Forall P l :=
            match l with
            | [] => List.Forall_nil P
            | k :: l' => List.Forall_cons P k l' (BookmarkItemBase_ind k) (all l')
            end) kids)
  end.
End BookmarkItemBase_ind.

Section QDomNode_ind.
Variable P : QDomNode → Prop.
Hypothesis P_element : ∀ tag attrs kids,
  Forall P kids → P (ElementNode tag attrs kids).
Hypothesis P_text : ∀ d, P (TextNode d).
Hypothesis P_comment : ∀ d, P (CommentNode d).
Hypothesis P_pi : ∀ t d, P (ProcessingInstruction t d).

Fixpoint QDomNode_ind (n : QDomNode) : P n :=
  match n with
  | ElementNode tag attrs kids =>
      P_element tag attrs kids
        ((fix all (l : list QDomNode) : Forall P l :=
            match l with
            | [] => List.Forall_nil P
            | k :: l' => List.Forall_cons P k l' (QDomNode_ind k) (all l')
            end) kids)
  | TextNode d => P_text d
  | CommentNode d => P_comment d
  | ProcessingInstruction t d => P_pi t d
  end.
End QDomNode_ind.

(** Setters of [BookmarkItemBase]. *)
Definition setText (text : string) (x : BookmarkItemBase) : BookmarkItemBase :=
  Item (this x) (derived x) (m_children x) (m_flags x) (m_icon x)
       (m_parent x) text (m_tooltip x).

Definition setToolTip (tooltip : string) (x : BookmarkItemBase) : BookmarkItemBase :=
  Item (this x) (derived x) (m_children x) (m_flags x) (m_icon x)
       (m_parent x) (m_text x) tooltip.

Definition setFlags (flags : Z) (x : BookmarkItemBase) : BookmarkItemBase :=
  Item (this x) (derived x) (m_children x) flags (m_icon x)
       (m_parent x) (m_text x) (m_tooltip x).

Definition setIcon (icon : QIcon) (x : BookmarkItemBase) : BookmarkItemBase :=
  Item (this x) (derived x) (m_children x) (m_flags x) icon
       (m_parent x) (m_text x) (m_tooltip x).

Definition setParent (parent : option ptr) (x : BookmarkItemBase) : BookmarkItemBase :=
  Item (this x) (derived x) (m_children x) (m_flags x) (m_icon x)
       parent (m_text x) (m_tooltip x).

Definition setChildren (kids : list BookmarkItemBase) (x : BookmarkItemBase)
  : BookmarkItemBase :=
  Item (this x) (derived x) kids (m_flags x) (m_icon x)
       (m_parent x) (m_text x) (m_tooltip x).

Definition setDerived (d : Derived) (x : BookmarkItemBase) : BookmarkItemBase :=
  Item (this x) d (m_children x) (m_flags x) (m_icon x)
       (m_parent x) (m_text x) (m_tooltip x).

Definition childCount (x : BookmarkItemBase) : nat := length (m_children x).

(** [dynamic_cast<BookmarkFolder *>] and [dynamic_cast<BookmarkItem *>]
    succeed on these. *)
Definition isFolderItem (x : BookmarkItemBase) : bool :=
  match derived x with FolderItem => true | _ => false end.

Definition isBookmarkItem (x : BookmarkItemBase) : bool :=
  match derived x with BookmarkData _ _ _ => true | _ => false end.

(** Setters and getters of [BookmarkItem]; on another item they have no
    object to work on. *)
Definition setKey (key : string) (x : BookmarkItemBase) : BookmarkItemBase :=
  match derived x with
  | BookmarkData _ d m => setDerived (BookmarkData key d m) x
  | _ => x
  end.

Definition setDescription (description : string) (x : BookmarkItemBase)
  : BookmarkItemBase :=
  match derived x with
  | BookmarkData k _ m => setDerived (BookmarkData k description m) x
  | _ => x
  end.

Definition setModule (moduleName : string) (x : BookmarkItemBase)
  : BookmarkItemBase :=
  match derived x with
  | BookmarkData k d _ => setDerived (BookmarkData k d moduleName) x
  | _ => x
  end.

Definition englishKey (x : BookmarkItemBase) : string :=
  match derived x with BookmarkData k _ _ => k | _ => "" end.

Definition description (x : BookmarkItemBase) : string :=
  match derived x with BookmarkData _ d _ => d | _ => "" end.

Definition moduleName (x : BookmarkItemBase) : string :=
  match derived x with BookmarkData _ _ m => m | _ => "" end.

(** ** What the model takes from its environment *)

(** The services of Sword, Qt and the C++ library the code calls. *)
Record Platform : Type := {
  (* CSwordBackend::instance().findModuleByName(name) *)
  findModuleByName : string → option CSwordModuleInfo;
  (* CSwordBackend::instance().booknameLanguage() *)
  booknameLanguage : string;
  (* the key of a CSwordVerseKey of the module, in the given locale *)
  verseKey : CSwordModuleInfo → string → string → string;
  (* QObject::tr *)
  tr : string → string;
  (* QString::localeAwareCompare *)
  localeAwareCompare : string → string → Z;
  (* QDomDocument::toString() and QDomDocument::setContent(text) *)
  toString : QDomDocument → string;
  setContent : string → QDomDocument;
  (* std::sort on the children of an item *)
  std_sort : (BookmarkItemBase → BookmarkItemBase → bool) →
             list BookmarkItemBase → list BookmarkItemBase;
  (* util::directory::getUserBaseDir().absolutePath() *)
  userBaseDir : string
}.

(** [QChar::digitValue()].  The characters of the model are bytes, whose
    digits are the ASCII ones. *)
Definition digitValue (c : ascii) : option nat :=
  let n := nat_of_ascii c in
  if (48 <=? n)%nat && (n <=? 57)%nat then Some (n - 48)%nat else None.

(** A piece of a string as [QString::arg] reads it: text that stays, or a
    place marker, [%] with a number of one digit or two, also with an [L]
    before the number. *)
Inductive ArgPiece : Type :=
| PlainText (text : string)
| PlaceMarker (number : nat) (text : string).

(** Where the scan for place markers stands: in the text, behind a [%],
    behind [%L], or behind the first digit of a marker. *)
Inductive ArgScan : Type :=
| InText
| AfterPercent
| AfterLocale
| AfterDigit (number : nat) (text : string).

(** A character that does not go on with a marker is read as text, where a
    [%] begins the next marker. *)
Definition scanText (c : ascii) : list ArgPiece * ArgScan :=
  if Ascii.eqb c "%"%char then ([], AfterPercent)
  else ([PlainText (String c "")], InText).

Definition scanChar (scan : ArgScan) (c : ascii) : list ArgPiece * ArgScan :=
  match scan with
  | InText => scanText c
  | AfterPercent =>
      if Ascii.eqb c "L"%char then ([], AfterLocale)
      else
        match digitValue c with
        | Some d => ([], AfterDigit d (String "%"%char (String c "")))
        | None => let '(out, scan) := scanText c in (PlainText "%" :: out, scan)
        end
  | AfterLocale =>
      match digitValue c with
      | Some d =>
          ([], AfterDigit d (String "%"%char (String "L"%char (String c ""))))
      | None => let '(out, scan) := scanText c in (PlainText "%L" :: out, scan)
      end
  | AfterDigit number text =>
      match digitValue c with
      | Some d => ([PlaceMarker (10 * number + d) (text +:+ String c "")], InText)
      | None =>
          let '(out, scan) := scanText c in (PlaceMarker number text :: out, scan)
      end
  end.

(** The scan of Qt's [findArgEscapes] and [replaceArgEscapes]: the pieces
    of a string, in their order. *)
Fixpoint findArgEscapes (scan : ArgScan) (s : string) : list ArgPiece :=
  match s with
  | "" =>
      match scan with
      | InText => []
      | AfterPercent => [PlainText "%"]
      | AfterLocale => [PlainText "%L"]
      | AfterDigit number text => [PlaceMarker number text]
      end
  | String c s' =>
      let '(out, scan) := scanChar scan c in out ++ findArgEscapes scan s'
  end.

(** The numbers of the place markers, and the lowest of them. *)
Definition markerNumbers (l : list ArgPiece) : list nat :=
  omap (λ p, match p with PlaceMarker n _ => Some n | PlainText _ => None end) l.

Definition min_escape (l : list ArgPiece) : option nat :=
  match markerNumbers l with
  | [] => None
  | n :: ns => Some (foldr Nat.min n ns)
  end.

Definition replaceArgEscapes (m : nat) (a : string) (l : list ArgPiece) : string :=
  foldr (λ p acc,
           match p with
           | PlainText text => text
           | PlaceMarker n text => if (n =? m)%nat then a else text
           end +:+ acc) "" l.

(** [QString::arg(a)] with a string: every place marker with the lowest
    number is replaced by [a], and a string without place marker stays as
    it is. *)
Definition QString_arg (s a : string) : string :=
  let pieces := findArgEscapes InText s in
  match min_escape pieces with
  | None => s
  | Some m => replaceArgEscapes m a pieces
  end.

(** [toHeader(key, moduleName)]: [QStringLiteral("%1 (%2)").arg(key)
    .arg(moduleName)].  The second [arg] reads the string the first has
    made, with the key in it. *)
Definition toHeader (key moduleName : string) : string :=
  QString_arg (QString_arg "%1 (%2)" key) moduleName.

Definition defaultBookmarksFile (P : Platform) : string :=
  userBaseDir P +:+ "/bookmarks.xml".

Definition isVerseModule (m : CSwordModuleInfo) : bool :=
  match mod_type m with Bible | Commentary => true | _ => false end.

(** [BookmarkItem::module()]. *)
Definition module (P : Platform) (x : BookmarkItemBase) : option CSwordModuleInfo :=
  findModuleByName P (moduleName x).

(** [BookmarkItem::key()]: the English key, put into the language of the
    book names when the module is a Bible or a commentary. *)
Definition key (P : Platform) (x : BookmarkItemBase) : string :=
  let englishKeyName := englishKey x in
  match module P x with
  | None => englishKeyName
  | Some m =>
      if isVerseModule m then verseKey P m (booknameLanguage P) englishKeyName
      else englishKeyName
  end.

(** The header both constructors of [BookmarkItem] below give to [setText]. *)
Definition ownHeader (P : Platform) (x : BookmarkItemBase) : string :=
  toHeader (key P x)
           (match module P x with
            | Some m => mod_name m
            | None => tr P "unknown"
            end).

(** [BookmarkItemBase(parent)]: the new object at address [a].  With a parent
    the constructor appends the object to the parent's children; in the
    tree that is done by whoever holds the parent.  The constructor asserts
    that the parent does not hold the object yet: the object is new, at an
    address the allocator had not given out, so the assertion holds. *)
Definition BookmarkItemBase_new (a : ptr) (parent : option ptr) : BookmarkItemBase :=
  Item a PlainItem [] 0 NullIcon parent "" "".

(** [BookmarkFolder(name, parent)]. *)
Definition BookmarkFolder_new (a : ptr) (name : string) (parent : option ptr)
  : BookmarkItemBase :=
  setIcon ClosedFolderIcon
    (setFlags folderFlags
       (setText name (setDerived FolderItem (BookmarkItemBase_new a parent)))).

(** [BookmarkItem(parent)]: key, description and module name start empty,
    and the text is the header of the item as it is then. *)
Definition BookmarkItem_new (P : Platform) (a : ptr) (parent : option ptr)
  : BookmarkItemBase :=
  let x := setDerived (BookmarkData "" "" "") (BookmarkItemBase_new a parent) in
  let x := setFlags bookmarkFlags x in
  let x := setIcon BookmarkIcon x in
  setText (ownHeader P x) x.

(** [BookmarkItem(const BookmarkItem & other)]: the copy at address [a].
    The copy constructor of the base takes flags, icon, parent, text and
    tooltip, and not the children. *)
Definition BookmarkItem_copy (P : Platform) (a : ptr) (other : BookmarkItemBase)
  : BookmarkItemBase :=
  let x := Item a (derived other) [] (m_flags other) (m_icon other)
                (m_parent other) (m_text other) (m_tooltip other) in
  let x := setIcon BookmarkIcon x in
  setText (ownHeader P x) x.

(** ** The XML codec of [BtBookmarksModelPrivate] *)

(** The allocator: [new] hands out the next free address. *)
Definition alloc (next : ptr) : ptr * ptr := (next, S next).

(** [handleXmlElement(element, parent)]: creates a new item from a document
    element; [None] is [nullptr].  The argument is the node whose
    [toElement()] the caller passes: for a node that is no element that is
    the null element, whose tag name is empty.  An item constructed with a
    parent is appended to the children of the parent, so the children of the
    new folder are the items its child elements gave, in their order. *)
Fixpoint handleXmlElement (P : Platform) (element : QDomNode)
    (parent : option ptr) (next : ptr) {struct element}
  : option BookmarkItemBase * ptr :=
  match element with
  | ElementNode tag attrs childList =>
      if decide (tag = "Folder") then
        let '(a, next) := alloc next in
        let newFolder := BookmarkFolder_new a "" parent in
        let newFolder :=
          match attrs !! "caption" with
          | Some caption => setText caption newFolder
          | None => newFolder
          end in
        let '(kids, next) :=
          (fix each (l : list QDomNode) (next : ptr)
             : list BookmarkItemBase * ptr :=
             match l with
             | [] => ([], next)
             | newElement :: l' =>
                 let '(i, next) :=
                   handleXmlElement P newElement (Some a) next in
                 let '(rest, next) := each l' next in
                 (option_list i ++ rest, next)
             end) childList next in
        (Some (setChildren kids newFolder), next)
      else if decide (tag = "Bookmark") then
        let '(a, next) := alloc next in
        let newBookmarkItem := BookmarkItem_new P a parent in
        let newBookmarkItem :=
          match attrs !! "modulename" with
          | Some v => setModule v newBookmarkItem
          | None => newBookmarkItem
          end in
        let newBookmarkItem :=
          match attrs !! "key" with
          | Some v => setKey v newBookmarkItem
          | None => newBookmarkItem
          end in
        let newBookmarkItem :=
          match attrs !! "description" with
          | Some v => setDescription v newBookmarkItem
          | None => newBookmarkItem
          end in
        let newBookmarkItem :=
          match attrs !! "title" with
          | Some v => setText v newBookmarkItem
          | None => newBookmarkItem
          end in
        (Some newBookmarkItem, next)
      else (None, next)
  | _ => (None, next)
  end.

(** The items [handleXmlElement] gives for the elements of a list, each
    made with the same parent: the loop over [childNodes()]. *)
Fixpoint handleChildNodes (P : Platform) (l : list QDomNode)
    (parent : option ptr) (next : ptr) : list BookmarkItemBase * ptr :=
  match l with
  | [] => ([], next)
  | newElement :: l' =>
      let '(i, next) := handleXmlElement P newElement parent next in
      let '(rest, next) := handleChildNodes P l' parent next in
      (option_list i ++ rest, next)
  end.

(** A file as [QFile] sees it. *)
Inductive QFile : Type :=
| Readable (contents : string)
| Unreadable.                      (* open(QIODevice::ReadOnly) fails *)

(** The file [loadXmlFromFile] reads: the named one, or the default one. *)
Definition sourceName (P : Platform) (fileName : string) : string :=
  if decide (fileName = "") then defaultBookmarksFile P else fileName.

(** [loadXmlFromFile(fileName)]; [None] is the null [QString]. *)
Definition loadXmlFromFile (P : Platform) (files : gmap string QFile)
    (fileName : string) : option string :=
  match files !! sourceName P fileName with
  | None => None                                  (* !file.exists() *)
  | Some Unreadable => None                       (* xml is left null *)
  | Some (Readable contents) => Some contents
  end.

(** The loop of [loadTree] over the children of the document element.  It
    starts from [firstChild().toElement()] and goes on with
    [nextSibling().toElement()]: it ends at the last sibling and at the
    first node that is not an element.  What [handleXmlElement] returns is
    appended as it is. *)
Fixpoint loadTree_loop (P : Platform) (siblings : list QDomNode) (next : ptr)
  : list (option BookmarkItemBase) * ptr :=
  match siblings with
  | [] => ([], next)
  | child :: rest =>
      if isElement child then
        let '(i, next) := handleXmlElement P child None next in
        let '(itemList, next) := loadTree_loop P rest next in
        (i :: itemList, next)
      else ([], next)
  end.

Definition childNodes_of (n : option QDomNode) : list QDomNode :=
  match n with
  | Some (ElementNode _ _ kids) => kids
  | _ => []
  end.

(** [loadTree(fileName)]. *)
Definition loadTree (P : Platform) (files : gmap string QFile)
    (fileName : string) (next : ptr)
  : list (option BookmarkItemBase) * ptr :=
  match loadXmlFromFile P files fileName with
  | None => ([], next)
  | Some bookmarksFile =>
      let doc := setContent P bookmarksFile in
      let document := documentElement doc in
      if decide (tagName_of document = "SwordBookmarks") then
        loadTree_loop P (childNodes_of document) next
      else ([], next)
  end.

(** [saveItem(item, parentElement)]: writes one item to a document element
    and returns that element.  The code appends the new element to its
    parent and then fills it through the handle it keeps; here the element
    is filled and then appended. *)
Fixpoint saveItem (P : Platform) (item : BookmarkItemBase)
    (parentElement : QDomNode) {struct item} : QDomNode :=
  match item with
  | Item _ d kids _ _ _ text _ =>
      match d with
      | FolderItem =>
          let elem := createElement "Folder" in
          let elem := setAttribute "caption" text elem in
          let elem :=
            (fix each (l : list BookmarkItemBase) (elem : QDomNode) : QDomNode :=
               match l with
               | [] => elem
               | c :: l' => each l' (saveItem P c elem)
               end) kids elem in
          appendChild elem parentElement
      | BookmarkData _ _ _ =>
          let elem := createElement "Bookmark" in
          let elem := setAttribute "key" (englishKey item) elem in
          let elem := setAttribute "description" (description item) elem in
          let elem := setAttribute "modulename" (moduleName item) elem in
          let elem :=
            setAttribute "moduledescription"
              (match module P item with
               | Some m => mod_description m
               | None => ""
               end) elem in
          let elem :=
            if decide (text = "") then elem
            else setAttribute "title" text elem in
          appendChild elem parentElement
      | PlainItem => parentElement
      end
  end.

(** The loops [for (i = 0; i < childCount(); i++) saveItem(child(i), elem)]. *)
Fixpoint saveItems (P : Platform) (l : list BookmarkItemBase)
    (elem : QDomNode) : QDomNode :=
  match l with
  | [] => elem
  | c :: l' => saveItems P l' (saveItem P c elem)
  end.

Definition CURRENT_SYNTAX_VERSION : string := "1".

Definition quot : string := String (Ascii.ascii_of_nat 34) "".

(** The document [serializeTreeFromRootItem] builds. *)
Definition documentOfRootItem (P : Platform) (rootItem : BookmarkItemBase)
  : QDomDocument :=
  let content := createElement "SwordBookmarks" in
  let content := setAttribute "syntaxVersion" CURRENT_SYNTAX_VERSION content in
  let content := saveItems P (m_children rootItem) content in
  {| doctype := Some "DOC";
     docNodes :=
       [ProcessingInstruction "xml"
          ("version=" +:+ quot +:+ "1.0" +:+ quot +:+
           " encoding=" +:+ quot +:+ "UTF-8" +:+ quot);
        content] |}.

(** [serializeTreeFromRootItem(rootItem)]. *)
Definition serializeTreeFromRootItem (P : Platform) (rootItem : BookmarkItemBase)
  : string :=
  toString P (documentOfRootItem P rootItem).

(** ** [BookmarkFolder] *)

(** [getChildList()]: the direct children. *)
Definition getChildList (x : BookmarkItemBase) : list BookmarkItemBase :=
  m_children x.

(** [list.indexOf(item) > -1] on a list of pointers. *)
Definition containsPtr (l : list BookmarkItemBase) (item : ptr) : bool :=
  existsb (λ c, bool_decide (this c = item)) l.

(** [BookmarkFolder::hasDescendant(item)], on the folder [folder].  The
    recursive call is given [childItem], the child the loop stands at. *)
Fixpoint hasDescendant (folder : BookmarkItemBase) (item : ptr) {struct folder}
  : bool :=
  match folder with
  | Item a _ kids _ _ _ _ _ =>
      if decide (a = item) then true
      else if containsPtr kids item then true
      else
        (fix each (l : list BookmarkItemBase) : bool :=
           match l with
           | [] => false
           | childItem :: l' =>
               if isFolderItem childItem
                  && hasDescendant childItem (this childItem)
               then true
               else each l'
           end) kids
  end.

(** [addChild(child)].  [None] is the failed assertion that the child is
    not among the children yet. *)
Definition addChild (child : BookmarkItemBase) (x : BookmarkItemBase)
  : option BookmarkItemBase :=
  let child := setParent (Some (this x)) child in
  if containsPtr (m_children x) (this child) then None
  else Some (setChildren (m_children x ++ [child]) x).

(** [BookmarkFolder::deepCopy()]: a new folder with copies of the bookmarks
    and deep copies of the folders among the children; a child that is
    neither is left out. *)
Fixpoint deepCopy (P : Platform) (folder : BookmarkItemBase) (next : ptr)
    {struct folder} : option (BookmarkItemBase * ptr) :=
  match folder with
  | Item _ _ kids _ _ _ text _ =>
      let '(a, next) := alloc next in
      let newFolder := BookmarkFolder_new a text None in
      (fix each (l : list BookmarkItemBase) (newFolder : BookmarkItemBase)
           (next : ptr) : option (BookmarkItemBase * ptr) :=
         match l with
         | [] => Some (newFolder, next)
         | subitem :: l' =>
             if isBookmarkItem subitem then
               let '(b, next) := alloc next in
               newFolder ← addChild (BookmarkItem_copy P b subitem) newFolder;
               each l' newFolder next
             else if isFolderItem subitem then
               '(c, next) ← deepCopy P subitem next;
               newFolder ← addChild c newFolder;
               each l' newFolder next
             else each l' newFolder next
         end) kids newFolder next
  end.

(** ** The tree below the root item *)

(** The object at address [a] in the tree of [x], if there is one: what
    following a pointer to an item of the model gives. *)
Fixpoint findItem (a : ptr) (x : BookmarkItemBase) {struct x}
  : option BookmarkItemBase :=
  if decide (this x = a) then Some x
  else
    match x with
    | Item _ _ kids _ _ _ _ _ =>
        (fix each (l : list BookmarkItemBase) : option BookmarkItemBase :=
           match l with
           | [] => None
           | c :: l' =>
               match findItem a c with
               | Some y => Some y
               | None => each l'
               end
           end) kids
    end.

(** The tree after the object at address [a] has been changed by [f]. *)
Fixpoint updateItem (a : ptr) (f : BookmarkItemBase → BookmarkItemBase)
    (x : BookmarkItemBase) {struct x} : BookmarkItemBase :=
  if decide (this x = a) then f x
  else
    match x with
    | Item b d kids fl ic p t tip =>
        Item b d
          ((fix each (l : list BookmarkItemBase) : list BookmarkItemBase :=
              match l with
              | [] => []
              | c :: l' => updateItem a f c :: each l'
              end) kids)
          fl ic p t tip
    end.

(** The objects of a tree, the root first, and their addresses. *)
Fixpoint subitems (x : BookmarkItemBase) : list BookmarkItemBase :=
  x :: match x with
       | Item _ _ kids _ _ _ _ _ =>
           (fix each (l : list BookmarkItemBase) : list BookmarkItemBase :=
              match l with
              | [] => []
              | c :: l' => subitems c ++ each l'
              end) kids
       end.

Definition addresses (x : BookmarkItemBase) : list ptr := this <$> subitems x.

(** [insertChild(index, child)].  [None] is the failed assertion that the
    child is not among the children yet.  [QList::insert] is used with
    [0 <= index <= size()]; Qt 5 clamps another index (before the first,
    after the last), which [take] and [drop] do as well. *)
Definition insertChild (index : Z) (child : BookmarkItemBase)
    (x : BookmarkItemBase) : option BookmarkItemBase :=
  let child := setParent (Some (this x)) child in
  if containsPtr (m_children x) (this child) then None
  else
    let i := Z.to_nat index in
    Some (setChildren (take i (m_children x) ++ child :: drop i (m_children x))
                      x).

(** [insertChildren(index, children)]: [insertChild(index++, c)] for each.
    The index is taken to stay an [int]. *)
Fixpoint insertChildren (index : Z) (children : list BookmarkItemBase)
    (x : BookmarkItemBase) : option BookmarkItemBase :=
  match children with
  | [] => Some x
  | c :: rest => x ← insertChild index c x; insertChildren (index + 1)%Z rest x
  end.

(** A member function called through the pointer [a]: [f] changes the
    object the pointer finds.  [None] is a run that does not return: the
    pointer finds no object, or [f] does not return on the object. *)
Definition callOn (a : ptr) (f : BookmarkItemBase → option BookmarkItemBase)
    (r : BookmarkItemBase) : option BookmarkItemBase :=
  x ← findItem a r;
  _ ← f x;
  Some (updateItem a (λ y, default y (f y)) r).

(** ** The model and what surrounds it *)

(** A [QTimer], on a clock that counts milliseconds: an active timer
    carries the time at which it runs out. *)
Record QTimer : Type := {
  interval : Z;
  singleShot : bool;
  expiry : option Z;
  slotSave_connections : nat     (* connections of timeout() to slotSave *)
}.

Definition isActive (t : QTimer) : bool := bool_decide (is_Some (expiry t)).

Definition timer_start (now : Z) (t : QTimer) : QTimer :=
  {| interval := interval t; singleShot := singleShot t;
     expiry := Some (now + interval t)%Z;
     slotSave_connections := slotSave_connections t |}.

Definition timer_stop (t : QTimer) : QTimer :=
  {| interval := interval t; singleShot := singleShot t;
     expiry := None;
     slotSave_connections := slotSave_connections t |}.

Definition timer_connect (t : QTimer) : QTimer :=
  {| interval := interval t; singleShot := singleShot t;
     expiry := expiry t;
     slotSave_connections := S (slotSave_connections t) |}.

(** One [BtBookmarksModel] with its private part, and the process around
    it: the static [m_defaultModel], the allocator, the files, the clock,
    and the texts written to files so far (latest first). *)
Record State : Type := {
  m_rootItem : BookmarkItemBase;
  m_saveTimer : QTimer;
  q_ptr : nat;                          (* the model itself, [this] *)
  m_defaultModel : option nat;          (* nullptr is [None] *)
  heap_next : ptr;
  files : gmap string QFile;
  clock : Z;
  written : list (string * string)
}.

Definition set_rootItem (r : BookmarkItemBase) (st : State) : State :=
  {| m_rootItem := r; m_saveTimer := m_saveTimer st; q_ptr := q_ptr st;
     m_defaultModel := m_defaultModel st; heap_next := heap_next st;
     files := files st; clock := clock st; written := written st |}.

Definition set_saveTimer (t : QTimer) (st : State) : State :=
  {| m_rootItem := m_rootItem st; m_saveTimer := t; q_ptr := q_ptr st;
     m_defaultModel := m_defaultModel st; heap_next := heap_next st;
     files := files st; clock := clock st; written := written st |}.

Definition set_defaultModel (m : option nat) (st : State) : State :=
  {| m_rootItem := m_rootItem st; m_saveTimer := m_saveTimer st;
     q_ptr := q_ptr st; m_defaultModel := m; heap_next := heap_next st;
     files := files st; clock := clock st; written := written st |}.

Definition set_heap_next (n : ptr) (st : State) : State :=
  {| m_rootItem := m_rootItem st; m_saveTimer := m_saveTimer st;
     q_ptr := q_ptr st; m_defaultModel := m_defaultModel st; heap_next := n;
     files := files st; clock := clock st; written := written st |}.

Definition set_clock (t : Z) (st : State) : State :=
  {| m_rootItem := m_rootItem st; m_saveTimer := m_saveTimer st;
     q_ptr := q_ptr st; m_defaultModel := m_defaultModel st;
     heap_next := heap_next st; files := files st; clock := t;
     written := written st |}.

(** [BtBookmarksModelPrivate(parent)]: the root folder, and the timer set to
    a single shot of thirty seconds. *)
Definition BtBookmarksModelPrivate_new (q : nat) (defaultModel : option nat)
    (next : ptr) (fs : gmap string QFile) (now : Z) : State :=
  let '(a, next) := alloc next in
  {| m_rootItem := BookmarkFolder_new a "Root" None;
     m_saveTimer := {| interval := (30 * 1000)%Z; singleShot := true;
                       expiry := None; slotSave_connections := 0 |};
     q_ptr := q; m_defaultModel := defaultModel; heap_next := next;
     files := fs; clock := now; written := [] |}.

(** A [QModelIndex]. *)
Inductive QModelIndex : Type :=
| InvalidIndex
| Index (row column : Z) (internalPointer : ptr).

(** [QModelIndex::isValid()]: neither the row nor the column is negative;
    the index [createIndex] makes belongs to the model. *)
Definition isValid (index : QModelIndex) : bool :=
  match index with
  | InvalidIndex => false
  | Index row column _ => bool_decide (0 ≤ row)%Z && bool_decide (0 ≤ column)%Z
  end.

(** [item(index)], a pointer: the internal pointer of a valid index, and
    the root item for another. *)
Definition item (st : State) (index : QModelIndex) : ptr :=
  match index with
  | Index _ _ p => if isValid index then p else this (m_rootItem st)
  | InvalidIndex => this (m_rootItem st)
  end.

(** The object a pointer to an item of the model points to; a pointer to
    nothing in the tree has none. *)
Definition deref (st : State) (p : ptr) : option BookmarkItemBase :=
  findItem p (m_rootItem st).

(** [needSave()]. *)
Definition needSave (st : State) : State :=
  if decide (m_defaultModel st = Some (q_ptr st)) then
    if isActive (m_saveTimer st) then st
    else set_saveTimer (timer_start (clock st) (m_saveTimer st)) st
  else st.

(** [Qt::ItemDataRole], with the [TypeRole] of the model. *)
Inductive ItemDataRole : Type :=
  DisplayRole | DecorationRole | EditRole | ToolTipRole | TypeRole.

(** [setData(index, val, role)]. *)
Definition setData (st : State) (index : QModelIndex) (val : string)
    (role : ItemDataRole) : option (bool * State) :=
  i ← deref st (item st index);
  let changed (set : string → BookmarkItemBase → BookmarkItemBase) :=
    let st := set_rootItem (updateItem (this i) (set val) (m_rootItem st)) st in
    if isFolderItem i || isBookmarkItem i then needSave st else st in
  match role with
  | DisplayRole | EditRole => Some (true, changed setText)
  | ToolTipRole => Some (true, changed setToolTip)
  | _ => Some (false, st)
  end.

(** [BtBookmarksModel::hasDescendant(baseIndex, testIndex)]. *)
Definition BtBookmarksModel_hasDescendant (st : State)
    (baseIndex testIndex : QModelIndex) : option bool :=
  f ← deref st (item st baseIndex);
  if isFolderItem f then Some (hasDescendant f (item st testIndex))
  else Some false.

(** ** Loading and saving *)

(** [load(fileName, rootItem)].  [None] is a run that does not return: a
    failed [BT_ASSERT], or a pointer followed that points to no item. *)
Definition load (P : Platform) (st : State) (fileName : string)
    (rootItem : QModelIndex) : option (bool * State) :=
  let i := item st rootItem in
  let '(items, next) := loadTree P (files st) fileName (heap_next st) in
  let st := set_heap_next next st in
  st ← (if negb (isValid rootItem) && bool_decide (fileName = "") then
          match m_defaultModel st with
          | Some _ => None       (* BT_ASSERT(!d->m_defaultModel && ...) *)
          | None =>
              let st := set_saveTimer (timer_connect (m_saveTimer st)) st in
              Some (set_defaultModel (Some (q_ptr st)) st)
          end
        else Some st);
  if bool_decide (length items = 0) then Some (false, st)
  else
    target ← deref st i;
    (* insertChild sets the parent of each item through its pointer *)
    items ← mapM id items;
    r ← callOn i (insertChildren (Z.of_nat (childCount target)) items)
               (m_rootItem st);
    Some (true, set_rootItem r st).

(** Modelled from the spec: [util::tool::savePlainFile] of [util/tool.h],
    which writes the text to the named file and always overwrites it. *)
Definition savePlainFile (fileName text : string) (st : State) : State :=
  {| m_rootItem := m_rootItem st; m_saveTimer := m_saveTimer st;
     q_ptr := q_ptr st; m_defaultModel := m_defaultModel st;
     heap_next := heap_next st;
     files := <[fileName := Readable text]> (files st);
     clock := clock st;
     written := (fileName, text) :: written st |}.

(** [save(fileName, rootItem)]. *)
Definition save (P : Platform) (st : State) (fileName : string)
    (rootItem : QModelIndex) : option (bool * State) :=
  r ← deref st (item st rootItem);
  let serializedTree := serializeTreeFromRootItem P r in
  let fileName := sourceName P fileName in
  let st := savePlainFile fileName serializedTree st in
  let st :=
    if isActive (m_saveTimer st)
    then set_saveTimer (timer_stop (m_saveTimer st)) st
    else st in
  Some (true, st).

(** Modelled from the spec: the slot [slotSave] of [btbookmarksmodel.h]; on
    the expiry of the timer [save()] is invoked with its defaults. *)
Definition slotSave (P : Platform) (st : State) : option State :=
  snd <$> save P st "" InvalidIndex.

Fixpoint emit_timeout (P : Platform) (connections : nat) (st : State)
  : option State :=
  match connections with
  | 0 => Some st
  | S n => st ← slotSave P st; emit_timeout P n st
  end.

(** The event loop comes round at time [t]: a timer that has run out
    signals [timeout()], and a single-shot timer is inactive from then on. *)
Definition processEvents (P : Platform) (t : Z) (st : State) : option State :=
  let st := set_clock t st in
  let timer := m_saveTimer st in
  match expiry timer with
  | Some e =>
      if bool_decide (e ≤ t)%Z then
        let timer :=
          if singleShot timer then timer_stop timer
          else timer_start t timer in
        emit_timeout P (slotSave_connections timer) (set_saveTimer timer st)
      else Some st
  | None => Some st
  end.

(** ** Copying *)

(** [index(row, column, parent)]. *)
Definition index (st : State) (row column : Z) (parent : QModelIndex)
  : option QModelIndex :=
  i ← deref st (item st parent);
  if bool_decide (row < Z.of_nat (childCount i))%Z && bool_decide (0 ≤ row)%Z
  then c ← m_children i !! Z.to_nat row; Some (Index row column (this c))
  else Some InvalidIndex.

(** The locals of [copyItems], and the allocator. *)
Record CopyLocals : Type := {
  bookmarksOnly : bool;
  targetIncluded : bool;
  moreThanOneFolder : bool;
  newList : list BookmarkItemBase;
  copy_next : ptr
}.

(** The loop of [copyItems] over [toCopy]; [count] is [toCopy.count()].
    It breaks at a folder that is not alone or that holds the target.  An
    index of something that is neither folder nor bookmark is dereferenced
    after a failed [dynamic_cast]: the run does not return. *)
Fixpoint copyItems_loop (P : Platform) (st : State) (parent : QModelIndex)
    (count : nat) (toCopy : list QModelIndex) (s : CopyLocals)
  : option CopyLocals :=
  match toCopy with
  | [] => Some s
  | index :: rest =>
      x ← deref st (item st index);
      if isFolderItem x then
        if bool_decide (1 < count) then
          Some {| bookmarksOnly := false; targetIncluded := targetIncluded s;
                  moreThanOneFolder := true; newList := newList s;
                  copy_next := copy_next s |}
        else if hasDescendant x (item st parent) then
          Some {| bookmarksOnly := false; targetIncluded := true;
                  moreThanOneFolder := moreThanOneFolder s;
                  newList := newList s; copy_next := copy_next s |}
        else
          copyItems_loop P st parent count rest
            {| bookmarksOnly := false; targetIncluded := targetIncluded s;
               moreThanOneFolder := moreThanOneFolder s;
               newList := newList s; copy_next := copy_next s |}
      else if isBookmarkItem x then
        let '(a, next) := alloc (copy_next s) in
        copyItems_loop P st parent count rest
          {| bookmarksOnly := bookmarksOnly s;
             targetIncluded := targetIncluded s;
             moreThanOneFolder := moreThanOneFolder s;
             newList := newList s ++ [BookmarkItem_copy P a x];
             copy_next := next |}
      else None
  end.

(** [copyItems(row, parent, toCopy)]. *)
Definition copyItems (P : Platform) (st : State) (row : Z)
    (parent : QModelIndex) (toCopy : list QModelIndex)
  : option (list QModelIndex * State) :=
  let count := length toCopy in
  s ← copyItems_loop P st parent count toCopy
        {| bookmarksOnly := true; targetIncluded := false;
           moreThanOneFolder := false; newList := [];
           copy_next := heap_next st |};
  s ← (if negb (bookmarksOnly s) && bool_decide (count = 1) then
         first ← head toCopy;
         x ← deref st (item st first);
         if isFolderItem x then
           '(c, next) ← deepCopy P x (copy_next s);
           Some {| bookmarksOnly := bookmarksOnly s;
                   targetIncluded := targetIncluded s;
                   moreThanOneFolder := moreThanOneFolder s;
                   newList := newList s ++ [c]; copy_next := next |}
         else None
       else Some s);
  let moreThanOneFolder :=
    moreThanOneFolder s || (negb (bookmarksOnly s) && bool_decide (1 < count)) in
  let st := set_heap_next (copy_next s) st in
  if moreThanOneFolder || targetIncluded s then Some ([], st)
  else
    r ← callOn (item st parent) (insertChildren row (newList s))
               (m_rootItem st);
    let st := needSave (set_rootItem r st) in
    result ← mapM (λ i : nat, index st (row + Z.of_nat i)%Z 0%Z parent)
                  (seq 0 (length (newList s)));
    Some (result, st).

(** ** Sorting *)

Inductive SortOrder : Type := AscendingOrder | DescendingOrder.

Definition BtBookmarksModelSortAscending (P : Platform)
    (i1 i2 : BookmarkItemBase) : bool :=
  bool_decide (localeAwareCompare P (m_text i1) (m_text i2) < 0)%Z.

Definition BtBookmarksModelSortDescending (P : Platform)
    (i1 i2 : BookmarkItemBase) : bool :=
  bool_decide (localeAwareCompare P (m_text i1) (m_text i2) > 0)%Z.

Definition comparator (P : Platform) (order : SortOrder)
  : BookmarkItemBase → BookmarkItemBase → bool :=
  match order with
  | AscendingOrder => BtBookmarksModelSortAscending P
  | DescendingOrder => BtBookmarksModelSortDescending P
  end.

(** The loop of [sortItems] that walks [items] from the root: the item at
    position [i] appends its children to [items], and goes to [parents] if
    it is a folder.  [pending] is [items] from position [i] on; every turn
    takes one item of the tree, so as many turns as the tree has items end
    the loop. *)
Fixpoint collectFolders (turns : nat) (pending : list BookmarkItemBase)
  : list ptr :=
  match turns with
  | 0 => []
  | S turns =>
      match pending with
      | [] => []
      | x :: rest =>
          (if isFolderItem x then [this x] else [])
          ++ collectFolders turns (rest ++ m_children x)
      end
  end.

(** [std::sort(f->children().begin(), f->children().end(), compare)]. *)
Definition sortChildren (P : Platform) (order : SortOrder)
    (f : BookmarkItemBase) : BookmarkItemBase :=
  setChildren (std_sort P (comparator P order) (m_children f)) f.

(** The body of the loop of [sortItems] over [parents].  The signals and
    the persistent indexes belong to the views and are left out. *)
Definition sortFolder (P : Platform) (order : SortOrder) (st : State) (f : ptr)
  : State :=
  needSave (set_rootItem (updateItem f (sortChildren P order) (m_rootItem st)) st).

(** [sortItems(parent, order)]. *)
Definition sortItems (P : Platform) (st : State) (parent : QModelIndex)
    (order : SortOrder) : option State :=
  f ← deref st (item st parent);
  if isFolderItem f then
    let parents :=
      if decide (this f = this (m_rootItem st)) then
        collectFolders (length (addresses f)) [f]
      else [this f] in
    Some (foldl (sortFolder P order) st parents)
  else Some st.

(** ** Rows *)

(** The arithmetic of [int]: 32 bits in two's complement, where a sum or a
    difference that leaves the range comes round. *)
Definition int_wrap (z : Z) : Z := ((z + 2 ^ 31) mod 2 ^ 32 - 2 ^ 31)%Z.

Definition int_add (a b : Z) : Z := int_wrap (a + b).

Definition int_sub (a b : Z) : Z := int_wrap (a - b).

(** [removeChild(index)]: the child at [index] is deleted, with what is
    below it, and taken out of the list.  Outside the list
    [m_children[index]] is no object. *)
Definition removeChild (index : Z) (x : BookmarkItemBase)
  : option BookmarkItemBase :=
  if bool_decide (0 ≤ index < Z.of_nat (childCount x))%Z then
    Some (setChildren (delete (Z.to_nat index) (m_children x)) x)
  else None.

(** [rowCount(parent)], [columnCount(parent)] and [hasChildren(parent)]. *)
Definition rowCount (st : State) (parent : QModelIndex) : option Z :=
  i ← deref st (item st parent); Some (Z.of_nat (childCount i)).

Definition columnCount (parent : QModelIndex) : Z := 1.

Definition hasChildren (st : State) (parent : QModelIndex) : option bool :=
  n ← rowCount st parent; Some (bool_decide (n > 0)%Z).

(** The loop of [removeRows]: [removeChild(row)], [count] times. *)
Fixpoint removeRows_loop (count : nat) (row : Z) (x : BookmarkItemBase)
  : option BookmarkItemBase :=
  match count with
  | 0 => Some x
  | S count => x ← removeChild row x; removeRows_loop count row x
  end.

(** [removeRows(row, count, parent)].  The signals to the views are left
    out, here and in what follows. *)
Definition removeRows (st : State) (row count : Z) (parent : QModelIndex)
  : option (bool * State) :=
  i ← deref st (item st parent);
  if bool_decide (Z.of_nat (childCount i) >= int_add row count)%Z then
    i' ← removeRows_loop (Z.to_nat count) row i;
    let r := updateItem (this i) (λ _, i') (m_rootItem st) in
    Some (true, needSave (set_rootItem r st))
  else None.                 (* BT_ASSERT(rowCount(parent) >= row + count) *)

(** The loop of [insertRows]: [insertChild(row, new BookmarkItemBase)],
    [count] times. *)
Fixpoint insertRows_loop (count : nat) (row : Z) (x : BookmarkItemBase)
    (next : ptr) : option (BookmarkItemBase * ptr) :=
  match count with
  | 0 => Some (x, next)
  | S count =>
      let '(a, next) := alloc next in
      x ← insertChild row (BookmarkItemBase_new a None) x;
      insertRows_loop count row x next
  end.

(** [insertRows(row, count, parent)]. *)
Definition insertRows (st : State) (row count : Z) (parent : QModelIndex)
  : option (bool * State) :=
  i ← deref st (item st parent);
  if bool_decide (Z.of_nat (childCount i) >= int_sub (int_add row count) 1)%Z
  then
    let loop x := insertRows_loop (Z.to_nat count) row x (heap_next st) in
    '(_, next) ← loop i;
    r ← callOn (this i) (λ x, fst <$> loop x) (m_rootItem st);
    Some (true, set_rootItem r (set_heap_next next st))
  else None.             (* BT_ASSERT(rowCount(parent) >= row + count - 1) *)

(** [BookmarkItemBase::index()] of the item at [a]: its place among the
    children of its parent, and -1 if it is not among them. *)
Definition BookmarkItemBase_index (st : State) (a : ptr) : option Z :=
  x ← deref st a;
  p ← m_parent x;                                  (* BT_ASSERT(parent()) *)
  px ← deref st p;
  Some (match list_find (λ c, this c = a) (m_children px) with
        | Some (i, _) => Z.of_nat i
        | None => (-1)%Z
        end).

(** [BtBookmarksModel::parent(index)]. *)
Definition BtBookmarksModel_parent (st : State) (index : QModelIndex)
  : option QModelIndex :=
  i ← deref st (item st index);
  match m_parent i with
  | None => Some InvalidIndex
  | Some p =>
      px ← deref st p;
      match m_parent px with
      | None => Some InvalidIndex
      | Some _ => n ← BookmarkItemBase_index st p; Some (Index n 0 p)
      end
  end.

(** ** What the views read *)

(** [toolTip()], which [BookmarkItem] overrides.  The filter options it
    sets on the Sword backend and the key it creates there have no part in
    what it returns; the module is taken to give a key.  The texts are put
    in by one call of [arg] with several arguments, which replaces all its
    place markers in one pass, so a place marker in an argument stays as it
    is. *)
Definition toolTip (P : Platform) (x : BookmarkItemBase) : string :=
  match derived x with
  | BookmarkData _ _ _ =>
      match module P x with
      | None => ""
      | Some m =>
          let header := toHeader (key P x) (mod_name m) in
          let txt := m_text x in
          if decide (txt = header) then
            "<b>" +:+ header +:+ ")</b><hr>" +:+ description x
          else
            "<b>" +:+ header +:+ ")</b><br>" +:+ txt +:+ "<hr>" +:+ description x
      end
  | _ => m_tooltip x
  end.

(** A [QVariant], as far as [data] makes one. *)
Inductive QVariant : Type :=
| NullVariant
| StringVariant (s : string)
| IconVariant (i : QIcon).

(** [isFolder(index)] and [isBookmark(index)]. *)
Definition isFolder (st : State) (index : QModelIndex) : option bool :=
  i ← deref st (item st index); Some (isFolderItem i).

Definition isBookmark (st : State) (index : QModelIndex) : option bool :=
  i ← deref st (item st index); Some (isBookmarkItem i).

(** [data(index, role)]. *)
Definition BtBookmarksModel_data (P : Platform) (st : State)
    (index : QModelIndex) (role : ItemDataRole) : option QVariant :=
  i ← deref st (item st index);
  match role with
  | DisplayRole | EditRole => Some (StringVariant (m_text i))
  | ToolTipRole => Some (StringVariant (toolTip P i))
  | DecorationRole => Some (IconVariant (m_icon i))
  | TypeRole =>
      b ← isBookmark st index;
      Some (StringVariant (if b : bool then "bookmark" else "folder"))
  end.

(** [flags(index)] and [headerData(section, orientation, role)]. *)
Definition BtBookmarksModel_flags (st : State) (index : QModelIndex)
  : option Z :=
  i ← deref st (item st index); Some (m_flags i).

Definition headerData : QVariant := NullVariant.

(** [module(index)], [key(index)] and [description(index)] of the model. *)
Definition BtBookmarksModel_module (P : Platform) (st : State)
    (index : QModelIndex) : option (option CSwordModuleInfo) :=
  i ← deref st (item st index);
  Some (if isBookmarkItem i then module P i else None).

Definition BtBookmarksModel_key (P : Platform) (st : State)
    (index : QModelIndex) : option string :=
  i ← deref st (item st index);
  Some (if isBookmarkItem i then key P i else "").

Definition BtBookmarksModel_description (st : State) (index : QModelIndex)
  : option string :=
  i ← deref st (item st index);
  Some (if isBookmarkItem i then description i else "").

(** [setDescription(index, description)] of the model. *)
Definition BtBookmarksModel_setDescription (st : State) (index : QModelIndex)
    (description : string) : option State :=
  i ← deref st (item st index);
  if isBookmarkItem i then
    let r := updateItem (this i) (setDescription description) (m_rootItem st) in
    Some (needSave (set_rootItem r st))
  else Some st.

(** ** New bookmarks and folders *)

(** [BookmarkItem(module, key, description, title)]: the new object at
    address [a].  The key is kept in English for a Bible or a commentary;
    the text is the header of the key as it was given; [title] is not
    used. *)
Definition BookmarkItem_of (P : Platform) (a : ptr) (module : CSwordModuleInfo)
    (key description title : string) : BookmarkItemBase :=
  let m_key :=
    if isVerseModule module then verseKey P module "en" key else key in
  let x := setDerived (BookmarkData m_key description (mod_name module))
                      (BookmarkItemBase_new a None) in
  let x := setIcon BookmarkIcon x in
  let x := setText (toHeader key (mod_name module)) x in
  setFlags bookmarkFlags x.

(** [addBookmark(row, parent, module, key, description, title)].  For a
    negative [row] the sum stays an [int]: the row is below zero and the
    number of children not above the largest [int]. *)
Definition addBookmark (P : Platform) (st : State) (row : Z)
    (parent : QModelIndex) (module : CSwordModuleInfo)
    (key description title : string) : option (QModelIndex * State) :=
  i ← deref st (item st parent);
  if isFolderItem i then
    let r :=
      if bool_decide (row < 0)%Z
      then (row + Z.of_nat (childCount i) + 1)%Z else row in
    let '(a, next) := alloc (heap_next st) in
    let c := BookmarkItem_of P a module key description title in
    root ← callOn (this i) (insertChild r c) (m_rootItem st);
    let st := needSave (set_rootItem root (set_heap_next next st)) in
    n ← BookmarkItemBase_index st a;
    Some (Index n 0 a, st)
  else Some (InvalidIndex, st).

(** [addFolder(row, parent, name)]. *)
Definition addFolder (P : Platform) (st : State) (row : Z)
    (parent : QModelIndex) (name : string) : option (QModelIndex * State) :=
  i ← deref st (item st parent);
  if isFolderItem i then
    let '(a, next) := alloc (heap_next st) in
    let c :=
      BookmarkFolder_new a (if decide (name = "") then tr P "New folder"
                            else name) None in
    root ← callOn (this i) (insertChild row c) (m_rootItem st);
    let st := needSave (set_rootItem root (set_heap_next next st)) in
    n ← BookmarkItemBase_index st a;
    Some (Index n 0 a, st)
  else Some (InvalidIndex, st).

(** ** The life of a model *)

(** [BtBookmarksModel(parent)]: the model [q] of a process with the default
    model, the allocator, the files and the clock given.  The private part
    is made and [load()] is called, which is [load] with the empty name and
    the invalid index, [save()] likewise; what it returns is dropped. *)
Definition BtBookmarksModel_new (P : Platform) (q : nat)
    (defaultModel : option nat) (next : ptr) (fs : gmap string QFile)
    (now : Z) : option State :=
  snd <$> load P (BtBookmarksModelPrivate_new q defaultModel next fs now)
               "" InvalidIndex.

(** [BtBookmarksModel(fileName, parent)]. *)
Definition BtBookmarksModel_new_from (P : Platform) (fileName : string)
    (q : nat) (defaultModel : option nat) (next : ptr)
    (fs : gmap string QFile) (now : Z) : option State :=
  snd <$> load P (BtBookmarksModelPrivate_new q defaultModel next fs now)
               fileName InvalidIndex.

(** [~BtBookmarksModel()]: a running timer makes it [save()].  The state it
    gives is what the process keeps: the files, what was written, and the
    static [m_defaultModel]. *)
Definition BtBookmarksModel_delete (P : Platform) (st : State) : option State :=
  if isActive (m_saveTimer st) then snd <$> save P st "" InvalidIndex
  else Some st.

(** ** A concrete platform *)

(** The order a sort by [lessThan] puts neighbours in. *)
Definition notAfter {A : Type} (lessThan : A → A → bool) : relation A :=
  λ x y, lessThan y x = false.

Local Instance notAfter_dec {A : Type} (lessThan : A → A → bool) (x y : A) :
  Decision (notAfter lessThan x y).
Proof. unfold notAfter. apply _. Defined.

(** The comparison of two strings character by character, as a
    [localeAwareCompare]: negative, zero or positive. *)
Definition compareStrings (a b : string) : Z :=
  match String.compare a b with
  | Lt => (-1)%Z
  | Eq => 0%Z
  | Gt => 1%Z
  end.

(** An installed Bible. *)
Definition KJV : CSwordModuleInfo :=
  {| mod_name := "KJV"; mod_type := Bible;
     mod_description := "King James Version" |}.

(** A small XML writer and reader stand for Qt's in the examples.  The
    reader gives the null document for a text it cannot read. *)

(** The double quote. *)
Definition charQuot : ascii := Ascii.ascii_of_nat 34.

(** The text of an attribute value or of a text node, with the characters
    of the markup replaced by their entities. *)
Fixpoint escape (s : string) : string :=
  match s with
  | "" => ""
  | String c s' =>
      (if Ascii.eqb c "&"%char then "&amp;"
       else if Ascii.eqb c "<"%char then "&lt;"
       else if Ascii.eqb c ">"%char then "&gt;"
       else if Ascii.eqb c charQuot then "&quot;"
       else String c "") +:+ escape s'
  end.

(** The text again: an entity gives its character, and the [skip]
    characters after the ampersand are passed over. *)
Fixpoint unescape (skip : nat) (s : string) : string :=
  match s with
  | "" => ""
  | String c s' =>
      match skip with
      | S k => unescape k s'
      | 0 =>
          if Ascii.eqb c "&"%char then
            if String.prefix "amp;" s' then String "&"%char (unescape 4 s')
            else if String.prefix "lt;" s' then String "<"%char (unescape 3 s')
            else if String.prefix "gt;" s' then String ">"%char (unescape 3 s')
            else if String.prefix "quot;" s' then String charQuot (unescape 5 s')
            else String c (unescape 0 s')
          else String c (unescape 0 s')
      end
  end.

(** The attributes of a start tag. *)
Definition writeAttributes (attrs : gmap string string) : string :=
  foldr (λ kv acc, " " +:+ kv.1 +:+ "=" +:+ quot +:+ escape kv.2 +:+ quot +:+ acc)
        "" (map_to_list attrs).

(** The text of a node, with the nodes below it. *)
Fixpoint writeNode (n : QDomNode) : string :=
  match n with
  | ElementNode tag attrs kids =>
      "<" +:+ tag +:+ writeAttributes attrs +:+
      match kids with
      | [] => "/>"
      | _ =>
          ">" +:+
          (fix each (l : list QDomNode) : string :=
             match l with
             | [] => ""
             | k :: l' => writeNode k +:+ each l'
             end) kids +:+ "</" +:+ tag +:+ ">"
      end
  | TextNode d => escape d
  | CommentNode d => "<!--" +:+ d +:+ "-->"
  | ProcessingInstruction t d => "<?" +:+ t +:+ " " +:+ d +:+ "?>"
  end.

(** The texts of the nodes of a list, one after the other. *)
Definition writeNodes (l : list QDomNode) : string :=
  foldr (λ n acc, writeNode n +:+ acc) "" l.

(** The document type declaration, if the document has one. *)
Definition writeDoctype (doc : QDomDocument) : string :=
  match doctype doc with
  | Some name => "<!DOCTYPE " +:+ name +:+ ">"
  | None => ""
  end.

(** The text of a document: the XML declaration first when there is one,
    the document type, and the other nodes. *)
Definition writeDocument (doc : QDomDocument) : string :=
  match docNodes doc with
  | ProcessingInstruction t d :: rest =>
      writeNode (ProcessingInstruction t d) +:+ writeDoctype doc +:+ writeNodes rest
  | nodes => writeDoctype doc +:+ writeNodes nodes
  end.

(** [s] without [pre] at its start, if it starts with it. *)
Fixpoint dropPrefix (pre s : string) : option string :=
  match pre, s with
  | "", _ => Some s
  | String a pre', String b s' => if Ascii.eqb a b then dropPrefix pre' s' else None
  | _, _ => None
  end.

(** [s] before and after the first [sep] in it. *)
Fixpoint splitAt (sep s : string) : option (string * string) :=
  match dropPrefix sep s with
  | Some rest => Some ("", rest)
  | None =>
      match s with
      | "" => None
      | String c s' => '(a, b) ← splitAt sep s'; Some (String c a, b)
      end
  end.

(** The longest start of [s] with characters that satisfy [p], and the
    rest. *)
Fixpoint span (p : ascii → bool) (s : string) : string * string :=
  match s with
  | "" => ("", "")
  | String c s' =>
      if p c then let '(a, b) := span p s' in (String c a, b) else ("", s)
  end.

(** A character of a tag name or of an attribute name. *)
Definition isNameChar (c : ascii) : bool :=
  negb (Ascii.eqb c " "%char || Ascii.eqb c "/"%char || Ascii.eqb c ">"%char || Ascii.eqb c "="%char).

(** The attributes at the start of [s], added to [acc], and the rest of
    [s]; every attribute takes one unit of [fuel]. *)
Fixpoint readAttributes (fuel : nat) (s : string) (acc : gmap string string)
  : option (gmap string string * string) :=
  match fuel with
  | 0 => None
  | S fuel =>
      match dropPrefix " " s with
      | Some rest =>
          let '(name, rest) := span isNameChar rest in
          rest ← dropPrefix ("=" +:+ quot) rest;
          '(value, rest) ← splitAt quot rest;
          readAttributes fuel rest (<[name := unescape 0 value]> acc)
      | None => Some (acc, s)
      end
  end.

(** The nodes at the start of [s], up to an end tag or to the end of the
    text, and the rest of [s]; every node takes one unit of [fuel]. *)
Fixpoint readNodes (fuel : nat) (s : string) : option (list QDomNode * string) :=
  match fuel with
  | 0 => None
  | S fuel =>
      if decide (s = "") then Some ([], "")
      else if String.prefix "</" s then Some ([], s)
      else
        '(n, rest) ←
          match dropPrefix "<?" s with
          | Some body =>
              '(body, rest) ← splitAt "?>" body;
              let '(target, data) := span isNameChar body in
              data ← dropPrefix " " data;
              Some (ProcessingInstruction target data, rest)
          | None =>
          match dropPrefix "<!--" s with
          | Some body =>
              '(body, rest) ← splitAt "-->" body;
              Some (CommentNode body, rest)
          | None =>
          match dropPrefix "<" s with
          | Some body =>
              let '(tag, rest) := span isNameChar body in
              '(attrs, rest) ← readAttributes fuel rest ∅;
              match dropPrefix "/>" rest with
              | Some rest => Some (ElementNode tag attrs [], rest)
              | None =>
                  rest ← dropPrefix ">" rest;
                  '(kids, rest) ← readNodes fuel rest;
                  rest ← dropPrefix ("</" +:+ tag +:+ ">") rest;
                  Some (ElementNode tag attrs kids, rest)
              end
          | None =>
              let '(text, rest) := span (λ c, negb (Ascii.eqb c "<"%char)) s in
              Some (TextNode (unescape 0 text), rest)
          end end end;
        '(ns, rest) ← readNodes fuel rest;
        Some (n :: ns, rest)
  end.

(** The document of a text.  A text has fewer nodes than characters, so
    its length is fuel enough. *)
Definition readDocument (s : string) : QDomDocument :=
  let '(name, s) :=
    match splitAt "<!DOCTYPE " s with
    | Some (before, after) =>
        match splitAt ">" after with
        | Some (name, rest) => (Some name, before +:+ rest)
        | None => (None, s)
        end
    | None => (None, s)
    end in
  match readNodes (S (String.length s)) s with
  | Some (nodes, "") =>
      match nodes with
      | [] => nullDocument
      | _ => {| doctype := name; docNodes := nodes |}
      end
  | _ => nullDocument
  end.

(** A platform with one installed module, English book names, the ordering
    of strings by their characters, merge sort, and the XML writer and
    reader above. *)
Definition samplePlatform : Platform :=
  {| findModuleByName := λ name, if decide (name = "KJV") then Some KJV else None;
     booknameLanguage := "en";
     verseKey := λ _ _ k, k;
     tr := λ s, s;
     localeAwareCompare := compareStrings;
     toString := writeDocument;
     setContent := readDocument;
     std_sort := λ lessThan, merge_sort (notAfter lessThan);
     userBaseDir := "/home/user/.bibletime" |}.

(** A model as its constructor leaves it, in a process without a default
    model and without files. *)
Definition freshState : State := BtBookmarksModelPrivate_new 7 None 0 ∅ 0.

(** ** Example models *)

(** The document of a file with the folder [Favorites], which holds one
    bookmark, and the empty folder [Other]. *)
Definition favoritesDocument : QDomDocument :=
  {| doctype := None;
     docNodes :=
       [ElementNode "SwordBookmarks" (<["syntaxVersion" := "1"]> ∅)
          [ElementNode "Folder" (<["caption" := "Favorites"]> ∅)
             [ElementNode "Bookmark"
                (<["key" := "John 3:16"]>
                   (<["modulename" := "KJV"]> (<["title" := "Key Verse"]> ∅)))
                []];
           ElementNode "Folder" (<["caption" := "Other"]> ∅) []]] |}.

Definition favoritesFiles : gmap string QFile :=
  <["bookmarks.xml" := Readable (writeDocument favoritesDocument)]> ∅.

(** The model after it has loaded that file: the root at address 0, the
    folder [Favorites] at 1 with its bookmark at 2, the folder [Other]
    at 3. *)
Definition favoritesState : State :=
  default freshState
    (snd <$> load samplePlatform
               (BtBookmarksModelPrivate_new 7 None 0 favoritesFiles 0)
               "bookmarks.xml" InvalidIndex).

Definition favoritesRoot : BookmarkItemBase := m_rootItem favoritesState.

(** The files after that root has been saved. *)
Definition savedFavoritesFiles : gmap string QFile :=
  <["bookmarks.xml" :=
      Readable (serializeTreeFromRootItem samplePlatform favoritesRoot)]> ∅.

(** The model after the bookmark at 2 has then been copied onto itself: its
    copy, at address 4, is its child. *)
Definition bookmarkWithChildState : State :=
  default freshState
    (snd <$> copyItems samplePlatform favoritesState 0 (Index 0 0 2)
               [Index 0 0 2]).

(** The model after the text of the bookmark at 2 has instead been set to the
    empty text, its root, and the files after that root has been saved. *)
Definition untitledState : State :=
  default freshState
    (snd <$> setData favoritesState (Index 0 0 2) "" EditRole).

Definition untitledRoot : BookmarkItemBase := m_rootItem untitledState.

Definition savedUntitledFiles : gmap string QFile :=
  <["bookmarks.xml" :=
      Readable (serializeTreeFromRootItem samplePlatform untitledRoot)]> ∅.

(** The document of a file with the folder [Outer], which holds the folder
    [Inner], and the folder [Other]; and the model after it has loaded that
    file: [Outer] at address 1, [Inner] at 2, [Other] at 3. *)
Definition nestedDocument : QDomDocument :=
  {| doctype := None;
     docNodes :=
       [ElementNode "SwordBookmarks" (<["syntaxVersion" := "1"]> ∅)
          [ElementNode "Folder" (<["caption" := "Outer"]> ∅)
             [ElementNode "Folder" (<["caption" := "Inner"]> ∅) []];
           ElementNode "Folder" (<["caption" := "Other"]> ∅) []]] |}.

Definition nestedState : State :=
  default freshState
    (snd <$> load samplePlatform
               (BtBookmarksModelPrivate_new 7 None 0
                  (<["bookmarks.xml" := Readable (writeDocument nestedDocument)]> ∅)
                  0)
               "bookmarks.xml" InvalidIndex).

(** A bookmark element with a key and a module name, and without title. *)
Definition untitledBookmark : QDomNode :=
  ElementNode "Bookmark"
    (<["key" := "John 3:16"]> (<["modulename" := "KJV"]> ∅)) [].

(** A document with an element [Note] at the top, before a folder, and a
    model in a process with a file of that document. *)
Definition documentWithNote : QDomDocument :=
  {| doctype := None;
     docNodes :=
       [ElementNode "SwordBookmarks" (<["syntaxVersion" := "1"]> ∅)
          [ElementNode "Note" ∅ [];
           ElementNode "Folder" (<["caption" := "A"]> ∅) []]] |}.

Definition noteState : State :=
  BtBookmarksModelPrivate_new 7 None 0
    (<["notes.xml" := Readable (writeDocument documentWithNote)]> ∅) 0.

(** A model in a process with an empty file. *)
Definition emptyFileState : State :=
  BtBookmarksModelPrivate_new 7 None 0 (<["empty.xml" := Readable ""]> ∅) 0.

(** The default model at rest: the timer connected once and not running. *)
Definition restingState : State :=
  {| m_rootItem := BookmarkFolder_new 0 "Root" None;
     m_saveTimer := {| interval := 30000; singleShot := true; expiry := None;
                       slotSave_connections := 1 |};
     q_ptr := 7; m_defaultModel := Some 7; heap_next := 1; files := ∅;
     clock := 0; written := [] |}.

(** The default model after a row has then been inserted below its root. *)
Definition restingStateWithRow : State :=
  default restingState (snd <$> insertRows restingState 0 1 InvalidIndex).

(** The items of [favoritesState]: the folder [Favorites], its bookmark,
    and the folder [Other]. *)
Definition favoritesFolder : BookmarkItemBase :=
  default favoritesRoot (deref favoritesState 1).

Definition favoritesBookmark : BookmarkItemBase :=
  default favoritesRoot (deref favoritesState 2).

Definition otherFolder : BookmarkItemBase :=
  default favoritesRoot (deref favoritesState 3).

(** The folders [Outer] and [Inner] of [nestedState]. *)
Definition outerFolder : BookmarkItemBase :=
  default (m_rootItem nestedState) (deref nestedState 1).

Definition innerFolder : BookmarkItemBase :=
  default (m_rootItem nestedState) (deref nestedState 2).

(** The model of [favoritesState] after two rows have been inserted at
    row 1 of the root. *)
Definition placeholdersState : State :=
  default freshState (snd <$> insertRows favoritesState 1 2 InvalidIndex).

(** A folder element, a comment and another folder element. *)
Definition folderBeforeComment : list QDomNode :=
  [ElementNode "Folder" (<["caption" := "A"]> ∅) []].

Definition folderAfterComment : list QDomNode :=
  [ElementNode "Folder" (<["caption" := "B"]> ∅) []].

(** ** The vocabulary of the properties *)

(** The default model with the timer as the constructor and [load] leave it:
    a single shot of thirty seconds, connected once, not running. *)
Record DefaultStoreAtRest (st : State) : Prop := {
  rest_default : m_defaultModel st = Some (q_ptr st);
  rest_interval : interval (m_saveTimer st) = 30000%Z;
  rest_singleShot : singleShot (m_saveTimer st) = true;
  rest_connected : slotSave_connections (m_saveTimer st) = 1;
  rest_inactive : expiry (m_saveTimer st) = None
}.

(** One use of a model: a call of one of the member functions that change
    it, which returns, or a turn of the event loop. *)
Inductive Use (P : Platform) (st st' : State) : Prop :=
| use_setData index val role b :
    setData st index val role = Some (b, st') → Use P st st'
| use_setDescription index text :
    BtBookmarksModel_setDescription st index text = Some st' → Use P st st'
| use_removeRows row count parent b :
    removeRows st row count parent = Some (b, st') → Use P st st'
| use_insertRows row count parent b :
    insertRows st row count parent = Some (b, st') → Use P st st'
| use_addBookmark row parent module key description title index :
    addBookmark P st row parent module key description title
      = Some (index, st') →
    Use P st st'
| use_addFolder row parent name index :
    addFolder P st row parent name = Some (index, st') → Use P st st'
| use_copyItems row parent toCopy result :
    copyItems P st row parent toCopy = Some (result, st') → Use P st st'
| use_sortItems parent order :
    sortItems P st parent order = Some st' → Use P st st'
| use_load fileName rootItem b :
    load P st fileName rootItem = Some (b, st') → Use P st st'
| use_save fileName rootItem b :
    save P st fileName rootItem = Some (b, st') → Use P st st'
| use_processEvents t :
    processEvents P t st = Some st' → Use P st st'.

(** What the constructor and [load()] set once: the interval of the timer,
    its single shot, its connections to [slotSave], the default model and
    the model itself. *)
Definition timerSettings (st : State) : Z * bool * nat * option nat * nat :=
  (interval (m_saveTimer st), singleShot (m_saveTimer st),
   slotSave_connections (m_saveTimer st), m_defaultModel st, q_ptr st).

(** The state after [needSave()] at time [t1] and again at time [t2]. *)
Definition markedDirtyTwice (P : Platform) (st : State) (t1 t2 : Z)
  : option State :=
  s ← processEvents P t1 st;
  s ← processEvents P t2 (needSave s);
  Some (needSave s).

(** What a rejected [copyItems] leaves of the state: all but the addresses
    taken by the copies it made and dropped. *)
Definition sameModel (st st' : State) : Prop :=
  m_rootItem st' = m_rootItem st ∧
  m_saveTimer st' = m_saveTimer st ∧
  m_defaultModel st' = m_defaultModel st ∧
  files st' = files st ∧
  written st' = written st.

(** The index stands for a folder of the tree. *)
Definition isFolderIndex (st : State) (index : QModelIndex) : bool :=
  match deref st (item st index) with
  | Some x => isFolderItem x
  | None => false
  end.

(** The index stands for a folder or for a bookmark of the tree. *)
Definition Selectable (st : State) (index : QModelIndex) : Prop :=
  ∃ x, deref st (item st index) = Some x ∧
       (isFolderItem x = true ∨ isBookmarkItem x = true).

(** How many indexes of the selection stand for folders. *)
Definition folderCount (st : State) (toCopy : list QModelIndex) : nat :=
  length (filter (λ index, isFolderIndex st index = true) toCopy).

(** The item at [d] is the folder, or below it with folders only between
    the two. *)
Inductive ThroughFolders : BookmarkItemBase → ptr → Prop :=
| through_here x : ThroughFolders x (this x)
| through_child x c :
    c ∈ m_children x → ThroughFolders x (this c)
| through_folder x c d :
    c ∈ m_children x → isFolderItem c = true → ThroughFolders c d →
    ThroughFolders x d.

Local Unset Elimination Schemes.

(** Items other than folders have no children, in the tree of [x]. *)
Inductive OnlyFoldersHoldItems : BookmarkItemBase → Prop :=
| only_folders x :
    (m_children x ≠ [] → isFolderItem x = true) →
    Forall OnlyFoldersHoldItems (m_children x) →
    OnlyFoldersHoldItems x.

(** What the file format is to keep of an item: the caption of a folder;
    key, description, module name and title of a bookmark; and the items
    below, in their order. *)
Inductive Content : Type :=
| FolderContent (caption : string) (items : list Content)
| BookmarkContent (key description moduleName title : string)
                  (items : list Content)
| PlainContent (items : list Content).

Local Set Elimination Schemes.

(** The content of an item. *)
Fixpoint content (x : BookmarkItemBase) : Content :=
  match x with
  | Item _ d kids _ _ _ text _ =>
      match d with
      | FolderItem => FolderContent text (content <$> kids)
      | BookmarkData k de m => BookmarkContent k de m text (content <$> kids)
      | PlainItem => PlainContent (content <$> kids)
      end
  end.

(** A tree of folders and of bookmarks, where a bookmark holds no items and
    has a text that is not empty. *)
Fixpoint titledTree (x : BookmarkItemBase) : bool :=
  match x with
  | Item _ d kids _ _ _ text _ =>
      match d with
      | FolderItem => forallb titledTree kids
      | BookmarkData _ _ _ =>
          match kids with [] => negb (bool_decide (text = "")) | _ => false end
      | PlainItem => false
      end
  end.

(** The attributes [saveItem] gives to the element of a bookmark. *)
Definition bookmarkAttributes (P : Platform) (x : BookmarkItemBase)
  : gmap string string :=
  let attrs :=
    <["moduledescription" :=
        match module P x with Some m => mod_description m | None => "" end]>
      (<["modulename" := moduleName x]>
         (<["description" := description x]>
            (<["key" := englishKey x]> ∅))) in
  if decide (m_text x = "") then attrs else <["title" := m_text x]> attrs.

(** The elements [saveItem] appends for an item: one for a folder and for a
    bookmark, none for another item. *)
Fixpoint elementsOfItem (P : Platform) (x : BookmarkItemBase) : list QDomNode :=
  match x with
  | Item _ d kids _ _ _ text _ =>
      match d with
      | FolderItem =>
          [ElementNode "Folder" (<["caption" := text]> ∅)
             (mjoin (elementsOfItem P <$> kids))]
      | BookmarkData _ _ _ =>
          [ElementNode "Bookmark" (bookmarkAttributes P x) []]
      | PlainItem => []
      end
  end.

(** With an attribute the setter is called, and without it is not. *)
Definition withAttribute (value : option string)
    (set : string → BookmarkItemBase → BookmarkItemBase)
    (x : BookmarkItemBase) : BookmarkItemBase :=
  match value with Some v => set v x | None => x end.

(** A change that puts the children of an item into another order. *)
Definition Reorders (f : BookmarkItemBase → BookmarkItemBase) : Prop :=
  ∀ y, ∃ l, f y = setChildren l y ∧ l ≡ₚ m_children y.

(** The cases in which [load] has nothing to decode. *)
Inductive SourceFails (P : Platform) (fs : gmap string QFile)
    (fileName : string) : Prop :=
| source_absent :
    fs !! sourceName P fileName = None → SourceFails P fs fileName
| source_unreadable :
    fs !! sourceName P fileName = Some Unreadable → SourceFails P fs fileName
| source_empty :
    fs !! sourceName P fileName = Some (Readable "") → SourceFails P fs fileName
| source_wrong_root text :
    fs !! sourceName P fileName = Some (Readable text) →
    tagName_of (documentElement (setContent P text)) ≠ "SwordBookmarks" →
    SourceFails P fs fileName.

(** What [insertChild] leaves when its assertion holds: the item with the
    child at [index]. *)
Definition childInserted (index : Z) (child : BookmarkItemBase)
    (x : BookmarkItemBase) : BookmarkItemBase :=
  let i := Z.to_nat index in
  setChildren (take i (m_children x)
               ++ setParent (Some (this x)) child :: drop i (m_children x)) x.

(** The same of [insertChildren] and of the loop of [insertRows]. *)
Fixpoint childrenInserted (index : Z) (children : list BookmarkItemBase)
    (x : BookmarkItemBase) : BookmarkItemBase :=
  match children with
  | [] => x
  | c :: rest => childrenInserted (index + 1)%Z rest (childInserted index c x)
  end.

Fixpoint rowsInserted (count : nat) (row : Z) (x : BookmarkItemBase)
    (next : ptr) : BookmarkItemBase * ptr :=
  match count with
  | 0 => (x, next)
  | S count =>
      let '(a, next) := alloc next in
      rowsInserted count row (childInserted row (BookmarkItemBase_new a None) x)
                      next
  end.

(** What [insertChildren] does at the end of the children: the new items,
    each with its parent set, come after the ones that are there. *)
Definition appendItems (items : list BookmarkItemBase) (x : BookmarkItemBase)
  : BookmarkItemBase :=
  setChildren (m_children x ++ (setParent (Some (this x)) <$> items)) x.

(** The addresses of the folders among the items of a list. *)
Definition folderAddresses (l : list BookmarkItemBase) : list ptr :=
  this <$> filter (λ x, isFolderItem x = true) l.

(** The comparison of [BtBookmarksModelSortAscending] and
    [BtBookmarksModelSortDescending], on the texts. *)
Definition textBefore (P : Platform) (order : SortOrder) (t1 t2 : string)
  : bool :=
  match order with
  | AscendingOrder => bool_decide (localeAwareCompare P t1 t2 < 0)%Z
  | DescendingOrder => bool_decide (localeAwareCompare P t1 t2 > 0)%Z
  end.

(** [t1] may come right before [t2]. *)
Definition textOrder (P : Platform) (order : SortOrder) (t1 t2 : string)
  : Prop :=
  textBefore P order t2 t1 = false.

(** The same of two items, by the comparator [sortItems] gives to
    [std::sort]. *)
Definition inOrder (P : Platform) (order : SortOrder)
  : relation BookmarkItemBase :=
  notAfter (comparator P order).

(** What [std::sort] promises for the two comparators of the model: the
    same elements, and of two neighbours the later does not compare as
    before the earlier. *)
Definition SortContract (P : Platform) : Prop :=
  ∀ order l,
    std_sort P (comparator P order) l ≡ₚ l ∧
    Sorted (inOrder P order) (std_sort P (comparator P order) l).

(** Address and text of each child. *)
Definition kidsView (x : BookmarkItemBase) : list (ptr * string) :=
  (λ c, (this c, m_text c)) <$> m_children x.

(** The tree after the loop of [sortItems] over [parents]. *)
Definition sortEach (P : Platform) (order : SortOrder) (r : BookmarkItemBase)
    (parents : list ptr) : BookmarkItemBase :=
  foldl (λ r f, updateItem f (sortChildren P order) r) r parents.

(** What [sortItems] does to the tree, for the items whose address is in
    [scope]: every object is found again, with its type, its text and the
    children it had; in [scope] the texts of the children are in order,
    and elsewhere the children are in the order they were in. *)
Definition SortedWithin (P : Platform) (order : SortOrder) (st st' : State)
    (scope : ptr → Prop) : Prop :=
  ∀ a x, deref st a = Some x →
    ∃ x', deref st' a = Some x' ∧
          derived x' = derived x ∧ m_text x' = m_text x ∧
          this <$> m_children x' ≡ₚ this <$> m_children x ∧
          (scope a → Sorted (textOrder P order) (m_text <$> m_children x')) ∧
          (¬ scope a → this <$> m_children x' = this <$> m_children x).

(** Every child has its parent for [m_parent], in the tree of [x]. *)
Fixpoint parentsAgree (x : BookmarkItemBase) : bool :=
  match x with
  | Item a _ kids _ _ _ _ _ =>
      forallb (λ c, bool_decide (m_parent c = Some a) && parentsAgree c) kids
  end.

(** A tree of objects made before the allocator reached [next]: no object
    is in it twice, and every child knows its parent. *)
Record WellFormed (next : ptr) (r : BookmarkItemBase) : Prop := {
  objects_distinct : NoDup (addresses r);
  objects_allocated : Forall (λ a, (a < next)%nat) (addresses r);
  objects_parents : parentsAgree r = true
}.

(** The same of items made while the allocator went from [next] to
    [next']. *)
Record NewItems (next next' : ptr) (l : list BookmarkItemBase) : Prop := {
  new_distinct : NoDup (mjoin (addresses <$> l));
  new_allocated : Forall (λ a, (next ≤ a < next')%nat) (mjoin (addresses <$> l));
  new_parents : Forall (λ y, parentsAgree y = true) l
}.

(** The tree of a model is such a tree, below a root without parent. *)
Definition TreeOfObjects (st : State) : Prop :=
  WellFormed (heap_next st) (m_rootItem st) ∧ m_parent (m_rootItem st) = None.

(** The loop of [deepCopy] over the children, from the child it stands
    at. *)
Fixpoint deepCopy_each (P : Platform) (l : list BookmarkItemBase)
    (newFolder : BookmarkItemBase) (next : ptr)
  : option (BookmarkItemBase * ptr) :=
  match l with
  | [] => Some (newFolder, next)
  | subitem :: l' =>
      if isBookmarkItem subitem then
        let '(b, next) := alloc next in
        newFolder ← addChild (BookmarkItem_copy P b subitem) newFolder;
        deepCopy_each P l' newFolder next
      else if isFolderItem subitem then
        '(c, next) ← deepCopy P subitem next;
        newFolder ← addChild c newFolder;
        deepCopy_each P l' newFolder next
      else deepCopy_each P l' newFolder next
  end.

(** The placeholder [insertRows] makes at address [a] below [x]. *)
Definition placeholder (x : BookmarkItemBase) (a : ptr) : BookmarkItemBase :=
  setParent (Some (this x)) (BookmarkItemBase_new a None).

(** The indexes the model hands out for its one column: the invalid index
    for the root, and what [index] gives below such an index. *)
Inductive ModelIndex (st : State) : QModelIndex → Prop :=
| model_root : ModelIndex st InvalidIndex
| model_child row par idx :
    ModelIndex st par → index st row 0 par = Some idx → isValid idx = true →
    ModelIndex st idx.

(** A tree of folders and of bookmarks that hold no items. *)
Fixpoint folderTree (x : BookmarkItemBase) : bool :=
  match x with
  | Item _ d kids _ _ _ _ _ =>
      match d with
      | FolderItem => forallb folderTree kids
      | BookmarkData _ _ _ => match kids with [] => true | _ => false end
      | PlainItem => false
      end
  end.

(** The content of an item, with the header of each bookmark in the place
    of its text. *)
Fixpoint contentWithHeaders (P : Platform) (x : BookmarkItemBase) : Content :=
  match x with
  | Item _ d kids _ _ _ text _ =>
      match d with
      | FolderItem => FolderContent text (contentWithHeaders P <$> kids)
      | BookmarkData k de m =>
          BookmarkContent k de m (ownHeader P x) (contentWithHeaders P <$> kids)
      | PlainItem => PlainContent (contentWithHeaders P <$> kids)
      end
  end.

(** The copies of the bookmarks of a list, made one after the other from
    the address [next] on. *)
Definition copiesFrom (P : Platform) (next : ptr) (l : list BookmarkItemBase)
  : list BookmarkItemBase :=
  imap (λ i b, BookmarkItem_copy P (next + i) b) l.

(** * Properties *)

(** A decidable statement about closed terms, by running its decision. *)
Ltac by_computation := apply (bool_decide_unpack _); vm_compute; exact I.

(** ** The recursive functions, one level at a time *)

Lemma hasDescendant_unfold (folder : BookmarkItemBase) (item : ptr) :
  hasDescendant folder item =
    bool_decide (this folder = item)
    || containsPtr (m_children folder) item
    || existsb (λ childItem,
                  isFolderItem childItem
                  && hasDescendant childItem (this childItem))
               (m_children folder).
Proof.
  destruct folder as [a d kids f i p t tip]; simpl.
  destruct (decide (a = item)) as [->|Hne].
  - by rewrite bool_decide_eq_true_2.
  - rewrite bool_decide_eq_false_2 by done. simpl.
    destruct (containsPtr kids item); [done|]. simpl.
    induction kids as [|c kids IH]; [done|]. simpl.
    destruct (isFolderItem c && hasDescendant c (this c)); [done|].
    by rewrite IH.
Qed.

Lemma hasDescendant_self (folder : BookmarkItemBase) :
  hasDescendant folder (this folder) = true.
Proof. rewrite hasDescendant_unfold. by rewrite bool_decide_eq_true_2. Qed.

(** What [hasDescendant] computes: the item is the folder, or one of its
    direct children, or the folder has a folder among its direct children. *)
Lemma hasDescendant_computes (folder : BookmarkItemBase) (item : ptr) :
  hasDescendant folder item =
    bool_decide (this folder = item)
    || containsPtr (m_children folder) item
    || existsb isFolderItem (m_children folder).
Proof.
  rewrite hasDescendant_unfold. f_equal.
  induction (m_children folder) as [|c kids IH]; [done|]. simpl.
  by rewrite hasDescendant_self, andb_true_r, IH.
Qed.

Lemma containsPtr_true (l : list BookmarkItemBase) (item : ptr) :
  containsPtr l item = true ↔ ∃ c, c ∈ l ∧ this c = item.
Proof.
  unfold containsPtr. rewrite existsb_exists. split.
  - intros (c & Hin & Hc). exists c. split; [by apply list_elem_of_In|].
    by apply bool_decide_eq_true in Hc.
  - intros (c & Hin & Hc). exists c. split; [by apply list_elem_of_In|].
    by apply bool_decide_eq_true.
Qed.

Lemma findItem_unfold (a : ptr) (x : BookmarkItemBase) :
  findItem a x =
    if decide (this x = a) then Some x
    else foldr (λ c rest, match findItem a c with
                          | Some y => Some y
                          | None => rest
                          end) None (m_children x).
Proof.
  destruct x as [b d kids f i p t tip]; simpl.
  destruct (decide (b = a)); [done|].
  induction kids as [|c kids IH]; [done|]. simpl.
  destruct (findItem a c); [done|]. by rewrite IH.
Qed.

Lemma findItem_here (x : BookmarkItemBase) : findItem (this x) x = Some x.
Proof. rewrite findItem_unfold. by rewrite decide_True. Qed.

Lemma updateItem_unfold (a : ptr) (f : BookmarkItemBase → BookmarkItemBase)
    (x : BookmarkItemBase) :
  updateItem a f x =
    if decide (this x = a) then f x
    else setChildren (map (updateItem a f) (m_children x)) x.
Proof.
  destruct x as [b d kids fl i p t tip]; simpl.
  destruct (decide (b = a)); reflexivity.
Qed.

Lemma subitems_unfold (x : BookmarkItemBase) :
  subitems x = x :: mjoin (subitems <$> m_children x).
Proof.
  destruct x as [b d kids fl i p t tip]; simpl. f_equal.
  induction kids as [|c kids IH]; [done|]. csimpl. by rewrite IH.
Qed.

Lemma addresses_unfold (x : BookmarkItemBase) :
  addresses x = this x :: mjoin (addresses <$> m_children x).
Proof.
  unfold addresses. rewrite subitems_unfold. csimpl. f_equal.
  induction (m_children x) as [|c kids IH]; [done|]. csimpl.
  by rewrite fmap_app, IH.
Qed.

Lemma containsPtr_false (l : list BookmarkItemBase) (a : ptr) :
  containsPtr l a = false ↔ a ∉ this <$> l.
Proof.
  rewrite <- not_true_iff_false, containsPtr_true. split.
  - intros Hno (c & -> & Hc)%list_elem_of_fmap. apply Hno. by exists c.
  - intros Hno (c & Hc & <-). apply Hno. by apply list_elem_of_fmap_2.
Qed.

Lemma deepCopy_unfold (P : Platform) (folder : BookmarkItemBase) (next : ptr) :
  deepCopy P folder next =
    deepCopy_each P (m_children folder)
      (BookmarkFolder_new next (m_text folder) None) (S next).
Proof.
  destruct folder as [a d kids fl i p t tip]. simpl.
  generalize (BookmarkFolder_new next t None) (S next).
  induction kids as [|c kids IH]; intros nf n; [done|]. simpl.
  destruct (isBookmarkItem c).
  { destruct (addChild _ nf); [apply IH|done]. }
  destruct (isFolderItem c); [|apply IH].
  destruct (deepCopy P c n) as [[c' n']|]; [|done]. simpl.
  destruct (addChild c' nf); [apply IH|done].
Qed.

(** [addChild] returns for a child that is not among the children, and for
    no other. *)
Lemma addChild_Some (c x : BookmarkItemBase) :
  this c ∉ this <$> m_children x →
  addChild c x
    = Some (setChildren (m_children x ++ [setParent (Some (this x)) c]) x).
Proof.
  intros Hnew. unfold addChild.
  change (this (setParent (Some (this x)) c)) with (this c).
  by rewrite (proj2 (containsPtr_false _ _) Hnew).
Qed.

Lemma addChild_inv (c x x' : BookmarkItemBase) :
  addChild c x = Some x' →
  (this c ∉ this <$> m_children x) ∧
  x' = setChildren (m_children x ++ [setParent (Some (this x)) c]) x.
Proof.
  unfold addChild.
  change (this (setParent (Some (this x)) c)) with (this c).
  destruct (containsPtr (m_children x) (this c)) eqn:Hin; [done|].
  intros [= <-]. split; [|done]. by apply containsPtr_false.
Qed.

(** The assertion of [addChild] holds in [deepCopy]: every copy is a new
    object, at an address above those of the copies made before it. *)
Lemma deepCopy_each_returns (P : Platform) (l : list BookmarkItemBase) :
  Forall (λ x, ∀ next, ∃ c next',
            deepCopy P x next = Some (c, next') ∧
            this c = next ∧ (next < next')%nat) l →
  ∀ newFolder next,
    Forall (λ k, (this k < next)%nat) (m_children newFolder) →
    ∃ c next', deepCopy_each P l newFolder next = Some (c, next') ∧
               this c = this newFolder ∧ (next ≤ next')%nat.
Proof.
  induction 1 as [|x l Hx _ IH]; intros nf next Hold; simpl.
  { by exists nf, next. }
  assert (Hnew : ∀ c n, this c = next → (next < n)%nat →
            ∃ nf', addChild c nf = Some nf' ∧ this nf' = this nf ∧
                   Forall (λ k, (this k < n)%nat) (m_children nf')).
  { intros c n Hc Hn.
    exists (setChildren (m_children nf ++ [setParent (Some (this nf)) c]) nf).
    split; [|split; [reflexivity|]].
    - apply addChild_Some. rewrite Hc.
      intros (k & -> & Hk)%list_elem_of_fmap.
      rewrite Forall_forall in Hold. specialize (Hold k Hk). lia.
    - simpl. apply Forall_app. split.
      + eapply Forall_impl; [exact Hold|]. intros k Hk. simpl in Hk. lia.
      + apply Forall_singleton. simpl. lia. }
  destruct (isBookmarkItem x).
  { destruct (Hnew (BookmarkItem_copy P next x) (S next) eq_refl
                (ltac:(lia) : (next < S next)%nat)) as (nf' & -> & Hthis & Hkids).
    simpl. destruct (IH nf' (S next) Hkids) as (c & next' & -> & Hc & Hle).
    exists c, next'. split; [done|]. split; [congruence|lia]. }
  destruct (isFolderItem x).
  { destruct (Hx next) as (c1 & n1 & -> & Hc1 & Hn1). simpl.
    destruct (Hnew c1 n1 Hc1 Hn1) as (nf' & -> & Hthis & Hkids). simpl.
    destruct (IH nf' n1 Hkids) as (c & next' & -> & Hc & Hle).
    exists c, next'. split; [done|]. split; [congruence|lia]. }
  destruct (IH nf next Hold) as (c & next' & -> & Hc & Hle).
  by exists c, next'.
Qed.

(** [deepCopy] returns, with the new folder at the first address it
    takes. *)
Lemma deepCopy_returns (P : Platform) (x : BookmarkItemBase) :
  ∀ next, ∃ c next',
    deepCopy P x next = Some (c, next') ∧ this c = next ∧ (next < next')%nat.
Proof.
  induction x as [a d kids fl i p t tip IH] using BookmarkItemBase_ind.
  intros next. rewrite deepCopy_unfold. simpl.
  destruct (deepCopy_each_returns P kids IH (BookmarkFolder_new next t None)
              (S next)) as (c & next' & -> & Hc & Hle); [done|].
  exists c, next'. split; [done|]. split; [done|lia].
Qed.

(** ** Headers *)

Lemma findArgEscapes_plain (k rest : string) :
  Forall (λ c, c ≠ "%"%char) (String.list_ascii_of_string k) →
  findArgEscapes InText (k +:+ rest)
    = ((λ c, PlainText (String c "")) <$> String.list_ascii_of_string k)
      ++ findArgEscapes InText rest.
Proof.
  induction k as [|c k IH]; intros Hk; [done|].
  simpl in Hk. apply Forall_cons in Hk as [Hc Hk]. simpl.
  unfold scanText. destruct (Ascii.eqb_spec c "%"%char) as [->|_]; [done|].
  simpl. by rewrite IH.
Qed.

Lemma markerNumbers_plain (l : list ascii) (rest : list ArgPiece) :
  markerNumbers (((λ c, PlainText (String c "")) <$> l) ++ rest)
    = markerNumbers rest.
Proof. induction l as [|c l IH]; [done|]. simpl. done. Qed.

Lemma replaceArgEscapes_plain (m : nat) (a k : string) (rest : list ArgPiece) :
  replaceArgEscapes m a
    (((λ c, PlainText (String c "")) <$> String.list_ascii_of_string k) ++ rest)
    = k +:+ replaceArgEscapes m a rest.
Proof.
  unfold replaceArgEscapes.
  induction k as [|c k IH]; [done|].
  cbn [String.list_ascii_of_string fmap list_fmap app foldr].
  rewrite IH. done.
Qed.

(** The first [arg] of [toHeader] puts the key in the place of [%1]. *)
Lemma QString_arg_first (key : string) :
  QString_arg "%1 (%2)" key = key +:+ " (%2)".
Proof.
  unfold QString_arg, replaceArgEscapes. simpl.
  induction key as [|c key IH]; [done|]. simpl. by f_equal.
Qed.

(** For a key without [%] the header is the key and the module name in
    brackets. *)
Lemma toHeader_plain (key moduleName : string) :
  Forall (λ c, c ≠ "%"%char) (String.list_ascii_of_string key) →
  toHeader key moduleName = key +:+ " (" +:+ moduleName +:+ ")".
Proof.
  intros Hk. unfold toHeader. rewrite QString_arg_first. unfold QString_arg.
  rewrite (findArgEscapes_plain key " (%2)" Hk).
  unfold min_escape. rewrite markerNumbers_plain.
  change (findArgEscapes InText " (%2)")
    with [PlainText " "; PlainText "("; PlaceMarker 2 "%2"; PlainText ")"].
  cbn [markerNumbers omap list_omap].
  rewrite replaceArgEscapes_plain. f_equal.
Qed.

(** A key with a place marker of its own takes the module name: the second
    [arg] finds [%1] in the key before [%2]. *)
Example toHeader_of_place_marker : toHeader "%1f" "KJV" = "KJVf (%2)".
Proof. reflexivity. Qed.

(** ** hasDescendant *)

(** With a folder among its direct children, [hasDescendant] answers [true]
    for every item. *)
Lemma hasDescendant_with_child_folder (F c : BookmarkItemBase) (N : ptr) :
  c ∈ m_children F → isFolderItem c = true → hasDescendant F N = true.
Proof.
  intros Hc Hfolder. rewrite hasDescendant_computes.
  replace (existsb isFolderItem (m_children F)) with true.
  - by rewrite orb_true_r.
  - symmetry. apply existsb_exists. exists c. split; [|done].
    by apply list_elem_of_In.
Qed.

(** C2.  In [nestedState] the folder [Outer], at address 1, holds the
    folder [Inner], and the folder [Other], at address 3, is its sibling:
    neither [Outer] nor one of its descendants.  [hasDescendant] on [Outer]
    answers [true] for it, where the specification wants [false]. *)
Theorem hasDescendant_true_on_non_descendant :
  ∃ F : BookmarkItemBase,
    deref nestedState 1 = Some F ∧
    isFolderItem F = true ∧
    (3 ∈ addresses (m_rootItem nestedState)) ∧
    (3 ∉ addresses F) ∧
    hasDescendant F 3 = true ∧
    BtBookmarksModel_hasDescendant nestedState (Index 0 0 1) (Index 1 0 3)
      = Some true.
Proof.
  eexists. split; [vm_compute; reflexivity|].
  split; [reflexivity|]. split; [by_computation|]. split; [by_computation|].
  split; vm_compute; reflexivity.
Qed.

(** ** Decoding one element *)

(** A [Bookmark] element without [title] gives a bookmark with the text the
    constructor set, which its key and its module name have no part in. *)
Lemma untitled_bookmark_text (P : Platform) (attrs : gmap string string)
    (kids : list QDomNode) (parent : option ptr) (next : ptr) :
  attrs !! "title" = None →
  ∃ b, (handleXmlElement P (ElementNode "Bookmark" attrs kids) parent next).1
         = Some b ∧
       m_text b = m_text (BookmarkItem_new P next parent).
Proof.
  intros Htitle. simpl. rewrite Htitle. eexists. split; [reflexivity|].
  destruct (attrs !! "modulename"), (attrs !! "key"), (attrs !! "description");
    reflexivity.
Qed.

(** C9.  The element [<Bookmark key="John 3:16" modulename="KJV"/>] has no
    title.  The bookmark decoded from it has that key and that module name,
    and its text is [" (unknown)"], the header of an empty key and of no
    module, and not the header ["John 3:16 (KJV)"] of the bookmark. *)
Theorem untitled_bookmark_text_is_header_of_nothing :
  ∃ b : BookmarkItemBase,
    (handleXmlElement samplePlatform untitledBookmark None 0).1 = Some b ∧
    englishKey b = "John 3:16" ∧
    moduleName b = "KJV" ∧
    m_text b = " (unknown)" ∧
    ownHeader samplePlatform b = "John 3:16 (KJV)".
Proof.
  eexists. split; [vm_compute; reflexivity|].
  repeat split; vm_compute; reflexivity.
Qed.

(** [saveItem] gives a bookmark element a title when the text of the
    bookmark is not empty, and only then. *)
Lemma saveItem_title (P : Platform) (b : BookmarkItemBase) (tag : string)
    (attrs : gmap string string) (kids : list QDomNode) :
  isBookmarkItem b = true →
  ∃ battrs,
    saveItem P b (ElementNode tag attrs kids)
      = ElementNode tag attrs (kids ++ [ElementNode "Bookmark" battrs []]) ∧
    battrs !! "title" = (if decide (m_text b = "") then None else Some (m_text b)).
Proof.
  destruct b as [a d ch f i p t tip]. destruct d; try done. intros _. simpl.
  destruct (decide (t = "")); eexists; (split; [reflexivity|]).
  - by simplify_map_eq.
  - by simplify_map_eq.
Qed.

(** ** Elements with another tag *)

(** Below a folder an element that is neither [Folder] nor [Bookmark] leaves
    no trace, and neither does a node that is no element. *)
Lemma handleChildNodes_skips (P : Platform) (n : QDomNode)
    (l : list QDomNode) (parent : option ptr) (next : ptr) :
  tagName_of (Some n) ≠ "Folder" →
  tagName_of (Some n) ≠ "Bookmark" →
  handleChildNodes P (n :: l) parent next = handleChildNodes P l parent next.
Proof.
  intros HF HB. simpl.
  destruct n as [tag attrs kids| | |]; simpl in *;
    try by destruct (handleChildNodes P l parent next).
  rewrite !decide_False by done.
  by destruct (handleChildNodes P l parent next).
Qed.

(** At the top of the document such an element leaves a null pointer in the
    list of [loadTree]. *)
Lemma loadTree_loop_other_tag (P : Platform) (tag : string)
    (attrs : gmap string string) (kids rest : list QDomNode) (next : ptr) :
  tag ≠ "Folder" → tag ≠ "Bookmark" →
  (loadTree_loop P (ElementNode tag attrs kids :: rest) next).1
    = None :: (loadTree_loop P rest next).1.
Proof.
  intros HF HB. simpl. rewrite !decide_False by done.
  by destruct (loadTree_loop P rest next).
Qed.

(** With a null pointer in that list, [load] does not return. *)
Lemma load_null_item (P : Platform) (st : State) (fileName : string)
    (rootItem : QModelIndex) :
  None ∈ (loadTree P (files st) fileName (heap_next st)).1 →
  load P st fileName rootItem = None.
Proof.
  unfold load.
  destruct (loadTree P (files st) fileName (heap_next st)) as [items next].
  simpl. intros Hnull.
  destruct (if negb (isValid rootItem) && bool_decide (fileName = "")
            then _ else _) as [st2|]; [|done].
  simpl. rewrite bool_decide_eq_false_2.
  2:{ destruct items; [by apply elem_of_nil in Hnull|done]. }
  destruct (deref st2 (item st rootItem)) as [target|]; [|done]. simpl.
  replace (mapM id items) with (@None (list BookmarkItemBase)); [done|].
  symmetry. clear -Hnull.
  induction items as [|i items IH]; [by apply elem_of_nil in Hnull|].
  apply elem_of_cons in Hnull as [<-|Hin]; [done|].
  destruct i as [y|]; [|done].
  change (mapM id (Some y :: items))
    with (k ← mapM id items; Some (y :: k)).
  by rewrite (IH Hin).
Qed.

(** C5.  The document [<SwordBookmarks syntaxVersion="1"><Note/><Folder
    caption="A"/></SwordBookmarks>] has an element [Note] at the top.
    [loadTree] puts a null pointer into its list for it, where the folder
    below comes second, and [load] then follows that pointer: the run does
    not return. *)
Theorem unknown_top_level_element_gives_null_item :
  (loadTree samplePlatform (files noteState) "notes.xml" (heap_next noteState)).1
    = [None; Some (BookmarkFolder_new 1 "A" None)] ∧
  load samplePlatform noteState "notes.xml" InvalidIndex = None.
Proof. split; vm_compute; reflexivity. Qed.

(** ** The save timer *)

(** The default constructor leaves the default model registered, with the
    timer set to a single shot of thirty seconds, connected once, and not
    running. *)
Lemma BtBookmarksModel_new_timer (P : Platform) (q : nat)
    (defaultModel : option nat) (next : ptr) (fs : gmap string QFile)
    (now : Z) (st : State) :
  BtBookmarksModel_new P q defaultModel next fs now = Some st →
  timerSettings st = (30000%Z, true, 1, Some q, q) ∧
  expiry (m_saveTimer st) = None.
Proof.
  unfold BtBookmarksModel_new, load. simpl.
  destruct (loadTree P fs "" (S next)) as [items n]. simpl.
  destruct defaultModel as [m|]; [done|]. simpl.
  destruct (bool_decide (length items = 0)); simpl.
  { by intros [= <-]. }
  destruct (deref _ _); [|done]. simpl.
  destruct (mapM id items); [|done]. simpl.
  destruct (callOn _ _ _); [|done]. simpl. by intros [= <-].
Qed.

Lemma timerSettings_needSave (st : State) :
  timerSettings (needSave st) = timerSettings st.
Proof.
  unfold needSave. destruct (decide _); [|done]. by destruct (isActive _).
Qed.

Lemma timerSettings_sortFolder (P : Platform) (order : SortOrder)
    (parents : list ptr) :
  ∀ st, timerSettings (foldl (sortFolder P order) st parents) = timerSettings st.
Proof.
  induction parents as [|f parents IH]; intros st; [done|]. simpl.
  rewrite IH. unfold sortFolder. by rewrite timerSettings_needSave.
Qed.

Lemma timerSettings_save (P : Platform) (st : State) (fileName : string)
    (rootItem : QModelIndex) (b : bool) (st' : State) :
  save P st fileName rootItem = Some (b, st') →
  timerSettings st' = timerSettings st.
Proof.
  unfold save. destruct (deref st (item st rootItem)); [|done]. simpl.
  intros [= <- <-]. by destruct (isActive _).
Qed.

Lemma timerSettings_emit_timeout (P : Platform) (connections : nat) :
  ∀ st st', emit_timeout P connections st = Some st' →
            timerSettings st' = timerSettings st.
Proof.
  induction connections as [|n IH]; intros st st'; simpl.
  { by intros [= <-]. }
  unfold slotSave.
  destruct (save P st "" InvalidIndex) as [[b s]|] eqn:Hsave; [|done]. simpl.
  intros Hrest. rewrite (IH _ _ Hrest).
  apply (timerSettings_save _ _ _ _ _ _ Hsave).
Qed.

(** No use of the default model changes these settings. *)
Lemma Use_timerSettings (P : Platform) (st st' : State) :
  m_defaultModel st = Some (q_ptr st) →
  Use P st st' → timerSettings st' = timerSettings st.
Proof.
  intros Hdefault [index val role b Hrun|index text Hrun
    |row count parent b Hrun|row count parent b Hrun
    |row parent module key description title index Hrun
    |row parent name index Hrun|row parent toCopy result Hrun
    |parent order Hrun|fileName rootItem b Hrun|fileName rootItem b Hrun
    |t Hrun]; revert Hrun.
  - unfold setData.
    destruct (deref st (item st index)) as [x|]; [|done]. simpl.
    destruct role; intros [= <- <-]; try done;
      destruct (_ || _); try done; by rewrite timerSettings_needSave.
  - unfold BtBookmarksModel_setDescription.
    destruct (deref st (item st index)) as [x|]; [|done]. simpl.
    destruct (isBookmarkItem x); intros [= <-]; [|done].
    by rewrite timerSettings_needSave.
  - unfold removeRows.
    destruct (deref st (item st parent)) as [x|]; [|done]. simpl.
    destruct (bool_decide _); [|done].
    destruct (removeRows_loop _ _ _); [|done]. simpl. intros [= <- <-].
    by rewrite timerSettings_needSave.
  - unfold insertRows.
    destruct (deref st (item st parent)) as [x|]; [|done]. simpl.
    destruct (bool_decide _); [|done].
    destruct (insertRows_loop _ _ _ _) as [[x1 n]|]; [|done]. simpl.
    destruct (callOn _ _ _); [|done]. simpl. by intros [= <- <-].
  - unfold addBookmark.
    destruct (deref st (item st parent)) as [x|]; [|done]. simpl.
    destruct (isFolderItem x); [|by intros [= <- <-]].
    destruct (callOn _ _ _) as [root|]; [|done]. simpl.
    destruct (BookmarkItemBase_index _ _); [|done]. simpl. intros [= <- <-].
    by rewrite timerSettings_needSave.
  - unfold addFolder.
    destruct (deref st (item st parent)) as [x|]; [|done]. simpl.
    destruct (isFolderItem x); [|by intros [= <- <-]].
    destruct (callOn _ _ _) as [root|]; [|done]. simpl.
    destruct (BookmarkItemBase_index _ _); [|done]. simpl. intros [= <- <-].
    by rewrite timerSettings_needSave.
  - unfold copyItems.
    destruct (copyItems_loop _ _ _ _ _ _) as [s|]; [|done]. simpl.
    destruct (if negb (bookmarksOnly s) && _ then _ else _) as [s2|]; [|done].
    simpl. destruct (_ || _); [by intros [= <- <-]|].
    destruct (callOn _ _ _) as [r|]; [|done]. simpl.
    destruct (mapM _ _); [|done]. simpl. intros [= <- <-].
    by rewrite timerSettings_needSave.
  - unfold sortItems.
    destruct (deref st (item st parent)) as [x|]; [|done]. simpl.
    destruct (isFolderItem x); intros [= <-]; [|done].
    apply timerSettings_sortFolder.
  - unfold load.
    destruct (loadTree P (files st) fileName (heap_next st)) as [items n].
    destruct (negb (isValid rootItem) && bool_decide (fileName = "")).
    { simpl. by rewrite Hdefault. }
    simpl. destruct (bool_decide (length items = 0)); [by intros [= <- <-]|].
    destruct (deref _ _); [|done]. simpl.
    destruct (mapM id items); [|done]. simpl.
    destruct (callOn _ _ _); [|done]. simpl. by intros [= <- <-].
  - apply timerSettings_save.
  - unfold processEvents. simpl.
    destruct (expiry (m_saveTimer st)) as [e|]; [|by intros [= <-]].
    destruct (bool_decide (e ≤ t)%Z); [|by intros [= <-]].
    intros Hemit. rewrite (timerSettings_emit_timeout _ _ _ _ Hemit).
    by destruct (singleShot (m_saveTimer st)).
Qed.

(** Whatever has been done with the default model since it was made, it
    is registered and its timer is set as the constructor set it. *)
Lemma default_model_timerSettings (P : Platform) (q : nat)
    (defaultModel : option nat) (next : ptr) (fs : gmap string QFile)
    (now : Z) (st0 st : State) :
  BtBookmarksModel_new P q defaultModel next fs now = Some st0 →
  rtc (Use P) st0 st →
  timerSettings st = (30000%Z, true, 1, Some q, q).
Proof.
  intros [Hnew _]%BtBookmarksModel_new_timer Huses.
  induction Huses as [st|st0 st1 st Huse _ IH]; [done|].
  apply IH. rewrite <- Hnew. apply (Use_timerSettings P); [|done].
  unfold timerSettings in Hnew. injection Hnew as _ _ _ Hd Hq.
  by rewrite Hd, Hq.
Qed.

(** With the timer so set and not running, [needSave()] at [t1] starts it,
    and [needSave()] at [t2], before the thirty seconds are over, leaves it
    as it is. *)
Lemma needSave_twice_at_rest (P : Platform) (st : State) (t1 t2 : Z) :
  DefaultStoreAtRest st →
  (t1 ≤ t2 < t1 + 30000)%Z →
  ∃ s2, markedDirtyTwice P st t1 t2 = Some s2 ∧
        expiry (m_saveTimer s2) = Some (t1 + 30000)%Z ∧
        written s2 = written st ∧
        (∀ t, (t2 ≤ t < t1 + 30000)%Z →
           ∃ s3, processEvents P t s2 = Some s3 ∧
                 written s3 = written st ∧
                 expiry (m_saveTimer s3) = Some (t1 + 30000)%Z) ∧
        (∀ t, (t1 + 30000 ≤ t)%Z →
           ∃ s3, processEvents P t s2 = Some s3 ∧
                 written s3 =
                   (defaultBookmarksFile P,
                    serializeTreeFromRootItem P (m_rootItem st)) :: written st ∧
                 expiry (m_saveTimer s3) = None ∧
                 ∀ t', processEvents P t' s3 = Some (set_clock t' s3)).
Proof.
  intros [Hdef Hint Hshot Hconn Hoff] Ht.
  destruct st as [root timer q dm next fs clk wr].
  destruct timer as [iv ss ex conn]. simpl in *. subst.
  unfold markedDirtyTwice, processEvents, needSave. simpl.
  rewrite decide_True by done. simpl.
  rewrite bool_decide_eq_false_2 by lia. simpl.
  rewrite decide_True by done. simpl.
  eexists. split; [reflexivity|]. simpl.
  split; [done|]. split; [done|]. split.
  - intros t Hlt. rewrite bool_decide_eq_false_2 by lia.
    eexists. split; [reflexivity|]. done.
  - intros t Hge. rewrite bool_decide_eq_true_2 by lia. simpl.
    unfold slotSave, save, deref. simpl. rewrite findItem_here. simpl.
    eexists. split; [reflexivity|]. simpl. split; [done|]. split; [done|].
    done.
Qed.

(** C7.  Let the default model be made by its constructor, which sets the
    timer to a single shot of thirty seconds and, in [load()], connects it
    to [slotSave], and let it be used in whatever way since, the timer not
    running now.  [needSave()] at [t1] starts the timer, and [needSave()]
    at [t2], before the thirty seconds are over, leaves it as it is: it
    runs out at [t1 + 30000].  Until then the event loop saves nothing;
    when it comes round at or after that time it saves once, to the default
    file, and the timer is inactive, so that nothing more is saved
    later. *)
Theorem needSave_twice_saves_once (P : Platform) (q : nat)
    (defaultModel : option nat) (next : ptr) (fs : gmap string QFile)
    (now : Z) (st0 st : State) (t1 t2 : Z) :
  BtBookmarksModel_new P q defaultModel next fs now = Some st0 →
  rtc (Use P) st0 st →
  expiry (m_saveTimer st) = None →
  (t1 ≤ t2 < t1 + 30000)%Z →
  ∃ s2, markedDirtyTwice P st t1 t2 = Some s2 ∧
        expiry (m_saveTimer s2) = Some (t1 + 30000)%Z ∧
        written s2 = written st ∧
        (∀ t, (t2 ≤ t < t1 + 30000)%Z →
           ∃ s3, processEvents P t s2 = Some s3 ∧
                 written s3 = written st ∧
                 expiry (m_saveTimer s3) = Some (t1 + 30000)%Z) ∧
        (∀ t, (t1 + 30000 ≤ t)%Z →
           ∃ s3, processEvents P t s2 = Some s3 ∧
                 written s3 =
                   (defaultBookmarksFile P,
                    serializeTreeFromRootItem P (m_rootItem st)) :: written st ∧
                 expiry (m_saveTimer s3) = None ∧
                 ∀ t', processEvents P t' s3 = Some (set_clock t' s3)).
Proof.
  intros Hnew Huses Hrest Ht.
  pose proof (default_model_timerSettings _ _ _ _ _ _ _ _ Hnew Huses) as Hset.
  unfold timerSettings in Hset. injection Hset as Hi Hs Hc Hd Hq.
  apply needSave_twice_at_rest; [|done].
  constructor; try done. by rewrite Hd, Hq.
Qed.

(** [restingState] is what the constructor and a first [load()] give. *)
Lemma restingState_reached :
  load samplePlatform freshState "" InvalidIndex = Some (false, restingState).
Proof. reflexivity. Qed.

(** The theorem at work: the default model of a process without files,
    a row inserted below its root, and [needSave()] after one second and
    after nine. *)
Lemma needSave_twice_saves_once_witness :
  ∃ s2, markedDirtyTwice samplePlatform restingStateWithRow 1000 9000 = Some s2 ∧
        expiry (m_saveTimer s2) = Some (1000 + 30000)%Z ∧
        written s2 = written restingStateWithRow ∧
        (∀ t, (9000 ≤ t < 1000 + 30000)%Z →
           ∃ s3, processEvents samplePlatform t s2 = Some s3 ∧
                 written s3 = written restingStateWithRow ∧
                 expiry (m_saveTimer s3) = Some (1000 + 30000)%Z) ∧
        (∀ t, (1000 + 30000 ≤ t)%Z →
           ∃ s3, processEvents samplePlatform t s2 = Some s3 ∧
                 written s3 =
                   (defaultBookmarksFile samplePlatform,
                    serializeTreeFromRootItem samplePlatform
                      (m_rootItem restingStateWithRow))
                     :: written restingStateWithRow ∧
                 expiry (m_saveTimer s3) = None ∧
                 ∀ t', processEvents samplePlatform t' s3 = Some (set_clock t' s3)).
Proof.
  apply (needSave_twice_saves_once samplePlatform 7 None 0 ∅ 0 restingState
           restingStateWithRow 1000 9000).
  - reflexivity.
  - apply rtc_once. by apply (use_insertRows _ _ _ 0%Z 1%Z InvalidIndex true).
  - reflexivity.
  - lia.
Defined.

(** ** copyItems *)

Lemma sameModel_set_heap_next (st : State) (n : ptr) :
  sameModel st (set_heap_next n st).
Proof. by repeat split. Qed.

Lemma folderCount_pos (st : State) (toCopy : list QModelIndex) :
  0 < folderCount st toCopy →
  ∃ index, index ∈ toCopy ∧ isFolderIndex st index = true.
Proof.
  unfold folderCount. intros Hpos.
  destruct (filter _ toCopy) as [|index l] eqn:Hf; [simpl in Hpos; lia|].
  exists index.
  assert (Hin : index ∈ filter (λ index, isFolderIndex st index = true) toCopy)
    by (rewrite Hf; left).
  by apply list_elem_of_filter in Hin as [? ?].
Qed.

(** With more than one index selected, the loop stops at the first folder. *)
Lemma copyItems_loop_not_alone (P : Platform) (st : State)
    (parent : QModelIndex) (count : nat) (toCopy : list QModelIndex)
    (s : CopyLocals) :
  1 < count →
  Forall (Selectable st) toCopy →
  (∃ index, index ∈ toCopy ∧ isFolderIndex st index = true) →
  ∃ s', copyItems_loop P st parent count toCopy s = Some s' ∧
        bookmarksOnly s' = false ∧ moreThanOneFolder s' = true.
Proof.
  intros Hcount Hsel. revert s.
  induction Hsel as [|index rest (x & Hx & Hkind) Hrest IH];
    intros s (i & Hin & Hfolder).
  { by apply elem_of_nil in Hin. }
  simpl. rewrite Hx. simpl.
  destruct (isFolderItem x) eqn:Hfx.
  - rewrite bool_decide_eq_true_2 by done. eexists. by split.
  - destruct Hkind as [?|Hb]; [congruence|]. rewrite Hb.
    apply IH. exists i. split; [|done].
    apply elem_of_cons in Hin as [->|?]; [|done].
    unfold isFolderIndex in Hfolder. rewrite Hx in Hfolder. congruence.
Qed.

(** And it ends in no other way, whatever the other indexes stand for. *)
Lemma copyItems_loop_not_alone_only (P : Platform) (st : State)
    (parent : QModelIndex) (count : nat) (toCopy : list QModelIndex) :
  1 < count →
  (∃ index, index ∈ toCopy ∧ isFolderIndex st index = true) →
  ∀ s s', copyItems_loop P st parent count toCopy s = Some s' →
          bookmarksOnly s' = false ∧ moreThanOneFolder s' = true.
Proof.
  intros Hcount.
  induction toCopy as [|index rest IH]; intros (i & Hin & Hfolder) s s'.
  { by apply elem_of_nil in Hin. }
  simpl. destruct (deref st (item st index)) as [x|] eqn:Hx; [|done]. simpl.
  destruct (isFolderItem x) eqn:Hfx.
  - rewrite bool_decide_eq_true_2 by done. by intros [= <-].
  - destruct (isBookmarkItem x); [|done].
    apply IH. exists i. split; [|done].
    apply elem_of_cons in Hin as [->|?]; [|done].
    unfold isFolderIndex in Hfolder. rewrite Hx in Hfolder. congruence.
Qed.

(** Let the selection have more than one folder, or one folder and
    something else.  Whenever [copyItems] returns, it returns the empty list
    and has left the tree as it was; and it does return when the indexes of
    the selection stand for folders and bookmarks of the tree. *)
Lemma copyItems_folder_not_alone (P : Platform) (st : State) (row : Z)
    (parent : QModelIndex) (toCopy : list QModelIndex) :
  1 < folderCount st toCopy
    ∨ (folderCount st toCopy = 1 ∧ 1 < length toCopy) →
  (∀ res st', copyItems P st row parent toCopy = Some (res, st') →
     res = [] ∧ sameModel st st') ∧
  (Forall (Selectable st) toCopy →
   ∃ st', copyItems P st row parent toCopy = Some ([], st') ∧ sameModel st st').
Proof.
  intros Hcond.
  assert (Hlen : 1 < length toCopy).
  { destruct Hcond as [H|[_ H]]; [|done].
    unfold folderCount in H.
    pose proof (length_filter (λ index, isFolderIndex st index = true) toCopy).
    lia. }
  assert (Hpos : 0 < folderCount st toCopy) by (destruct Hcond; lia).
  apply folderCount_pos in Hpos.
  assert (Hrejected : ∀ s,
    bookmarksOnly s = false → moreThanOneFolder s = true →
    (if negb (bookmarksOnly s) && bool_decide (length toCopy = 1)
     then (first ← head toCopy;
           x ← deref st (item st first);
           if isFolderItem x then
             '(c, next) ← deepCopy P x (copy_next s);
             Some {| bookmarksOnly := bookmarksOnly s;
                     targetIncluded := targetIncluded s;
                     moreThanOneFolder := moreThanOneFolder s;
                     newList := newList s ++ [c]; copy_next := next |}
           else None)
     else Some s) = Some s).
  { intros s Hb _. rewrite Hb. simpl.
    by rewrite (bool_decide_eq_false_2 (length toCopy = 1)) by lia. }
  split.
  - intros res st'. unfold copyItems.
    destruct (copyItems_loop P st parent (length toCopy) toCopy _)
      as [s'|] eqn:Hloop; [|done].
    destruct (copyItems_loop_not_alone_only P st parent _ toCopy Hlen Hpos
                _ _ Hloop) as [Hb Hm].
    simpl. rewrite (Hrejected s' Hb Hm). simpl. rewrite Hm. simpl.
    intros [= <- <-]. split; [done|]. apply sameModel_set_heap_next.
  - intros Hsel. unfold copyItems.
    destruct (copyItems_loop_not_alone P st parent (length toCopy) toCopy
                {| bookmarksOnly := true; targetIncluded := false;
                   moreThanOneFolder := false; newList := [];
                   copy_next := heap_next st |} Hlen Hsel Hpos)
      as (s' & -> & Hb & Hm).
    simpl. rewrite (Hrejected s' Hb Hm). simpl. rewrite Hm. simpl.
    eexists. split; [reflexivity|]. apply sameModel_set_heap_next.
Qed.

(** The lemma at work: a bookmark and a folder are selected. *)
Lemma copyItems_folder_not_alone_witness :
  ∃ st', copyItems samplePlatform favoritesState 0 (Index 1 0 3)
           [Index 0 0 2; Index 0 0 1] = Some ([], st') ∧
         sameModel favoritesState st'.
Proof.
  apply (copyItems_folder_not_alone samplePlatform favoritesState 0
           (Index 1 0 3) [Index 0 0 2; Index 0 0 1]).
  - right. split; [reflexivity|]. simpl. lia.
  - repeat constructor.
    + eexists. split; [vm_compute; reflexivity|]. by right.
    + eexists. split; [vm_compute; reflexivity|]. by left.
Defined.

(** An item that is neither folder nor bookmark, after bookmarks only: the
    loop takes the null pointer of the failed [dynamic_cast] for a bookmark
    to copy, and does not return. *)
Lemma copyItems_loop_plain_item (P : Platform) (st : State)
    (parent : QModelIndex) (count : nat) (bookmarks : list QModelIndex)
    (index : QModelIndex) (rest : list QModelIndex) (x : BookmarkItemBase) :
  Forall (λ i, ∃ y, deref st (item st i) = Some y ∧
                    isFolderItem y = false ∧ isBookmarkItem y = true)
         bookmarks →
  deref st (item st index) = Some x →
  isFolderItem x = false →
  isBookmarkItem x = false →
  ∀ s, copyItems_loop P st parent count (bookmarks ++ index :: rest) s = None.
Proof.
  intros Hbs Hx Hfolder Hbookmark.
  induction Hbs as [|i bs (y & Hy & Hfy & Hby) _ IH]; intros s; simpl.
  - by rewrite Hx; simpl; rewrite Hfolder, Hbookmark.
  - rewrite Hy. simpl. rewrite Hfy, Hby. apply IH.
Qed.

(** So [copyItems] does not return for a selection with such an item before
    its first folder, whatever follows the item. *)
Lemma copyItems_plain_item (P : Platform) (st : State) (row : Z)
    (parent : QModelIndex) (bookmarks : list QModelIndex)
    (index : QModelIndex) (rest : list QModelIndex) (x : BookmarkItemBase) :
  Forall (λ i, ∃ y, deref st (item st i) = Some y ∧
                    isFolderItem y = false ∧ isBookmarkItem y = true)
         bookmarks →
  deref st (item st index) = Some x →
  isFolderItem x = false →
  isBookmarkItem x = false →
  copyItems P st row parent (bookmarks ++ index :: rest) = None.
Proof.
  intros Hbs Hx Hfolder Hbookmark. unfold copyItems.
  by rewrite (copyItems_loop_plain_item P st parent _ bookmarks index rest x).
Qed.

(** C4.  In [placeholdersState] the second row of the root is an item made
    by [insertRows], at address 5, neither folder nor bookmark, and the
    first row is the folder [Favorites], at address 1.  The selection of
    the two, the item first, is one folder together with one other item;
    [copyItems] of it does not return the empty list: it does not return,
    the item being taken for a bookmark after a failed [dynamic_cast].
    With the folder first it returns the empty list. *)
Theorem copyItems_placeholder_and_folder :
  index placeholdersState 1 0 InvalidIndex = Some (Index 1 0 5) ∧
  index placeholdersState 0 0 InvalidIndex = Some (Index 0 0 1) ∧
  (isFolderItem <$> deref placeholdersState 5) = Some false ∧
  (isBookmarkItem <$> deref placeholdersState 5) = Some false ∧
  (isFolderItem <$> deref placeholdersState 1) = Some true ∧
  folderCount placeholdersState [Index 1 0 5; Index 0 0 1] = 1 ∧
  length [Index 1 0 5; Index 0 0 1] = 2 ∧
  copyItems samplePlatform placeholdersState 0 (Index 3 0 3)
    [Index 1 0 5; Index 0 0 1] = None ∧
  fst <$> copyItems samplePlatform placeholdersState 0 (Index 3 0 3)
            [Index 0 0 1; Index 1 0 5] = Some [].
Proof. split_and!; vm_compute; reflexivity. Qed.

Lemma hasDescendant_through_folders (F : BookmarkItemBase) (d : ptr) :
  ThroughFolders F d → hasDescendant F d = true.
Proof.
  intros H. rewrite hasDescendant_computes.
  destruct H as [x|x c Hc|x c d Hc Hf _].
  - by rewrite bool_decide_eq_true_2.
  - replace (containsPtr (m_children x) (this c)) with true.
    + by rewrite orb_true_r.
    + symmetry. apply containsPtr_true. by exists c.
  - replace (existsb isFolderItem (m_children x)) with true.
    + by rewrite orb_true_r.
    + symmetry. apply existsb_exists. exists c. split; [|done].
      by apply list_elem_of_In.
Qed.

Lemma addresses_cases (x : BookmarkItemBase) (d : ptr) :
  d ∈ addresses x →
  d = this x ∨ ∃ c, c ∈ m_children x ∧ d ∈ addresses c.
Proof.
  rewrite addresses_unfold. intros [->|H]%elem_of_cons; [by left|right].
  apply list_elem_of_join in H as (l & Hd & Hl).
  apply list_elem_of_fmap in Hl as (c & -> & Hc). by exists c.
Qed.

(** In a tree where only folders hold items, every item below a folder is
    reached through folders. *)
Lemma descendant_through_folders (F : BookmarkItemBase) (d : ptr) :
  OnlyFoldersHoldItems F → d ∈ addresses F → ThroughFolders F d.
Proof.
  revert d. induction F as [a dv kids f i p t tip IH] using BookmarkItemBase_ind.
  intros d Hok Hd. inversion Hok as [x Hfolder Hkids]; subst.
  apply addresses_cases in Hd as [->|(c & Hc & Hd)]; [apply through_here|].
  simpl in Hc, Hkids.
  rewrite Forall_forall in IH. rewrite Forall_forall in Hkids.
  pose proof (IH c Hc d (Hkids c Hc) Hd) as Hthrough.
  destruct (decide (d = this c)) as [->|Hne]; [by apply through_child|].
  apply (through_folder _ c); [done| |done].
  pose proof (Hkids c Hc) as Hokc. inversion Hokc as [y Hfc _]; subst.
  apply Hfc. intros Hnil.
  apply addresses_cases in Hd as [?|(c' & Hc' & _)]; [done|].
  rewrite Hnil in Hc'. by apply elem_of_nil in Hc'.
Qed.

(** In such a tree [hasDescendant] answers [true] for the folder and for
    every item below it. *)
Lemma hasDescendant_of_descendant (F : BookmarkItemBase) (d : ptr) :
  OnlyFoldersHoldItems F → d ∈ addresses F → hasDescendant F d = true.
Proof.
  intros Hok Hd. by apply hasDescendant_through_folders,
    descendant_through_folders.
Qed.

(** When the selection is one folder and the target is that folder, or an
    item below it with folders only between the two, [copyItems] returns
    the empty list and leaves the tree as it was. *)
Lemma copyItems_folder_into_itself (P : Platform) (st : State) (row : Z)
    (parent index : QModelIndex) (F : BookmarkItemBase) :
  deref st (item st index) = Some F →
  isFolderItem F = true →
  ThroughFolders F (item st parent) →
  ∃ st', copyItems P st row parent [index] = Some ([], st') ∧ sameModel st st'.
Proof.
  intros HF Hfolder Hthrough. unfold copyItems. simpl.
  rewrite HF. simpl. rewrite Hfolder.
  rewrite (hasDescendant_through_folders F _ Hthrough). simpl.
  destruct (deepCopy_returns P F (heap_next st)) as (c & next & -> & _).
  simpl. eexists. split; [reflexivity|]. apply sameModel_set_heap_next.
Qed.

(** The lemma at work: the folder [Favorites] is copied onto its
    bookmark. *)
Lemma copyItems_folder_into_itself_witness :
  ∃ st', copyItems samplePlatform favoritesState 0 (Index 0 0 2)
           [Index 0 0 1] = Some ([], st') ∧
         sameModel favoritesState st'.
Proof.
  apply (copyItems_folder_into_itself samplePlatform favoritesState 0
           (Index 0 0 2) (Index 0 0 1)
           (default (m_rootItem freshState) (deref favoritesState 1))).
  - vm_compute. reflexivity.
  - reflexivity.
  - apply (through_child _
             (default (m_rootItem freshState) (deref favoritesState 2))).
    apply list_elem_of_lookup. exists 0. vm_compute. reflexivity.
Defined.

(** C3.  In [bookmarkWithChildState] the item at address 4 is below the
    folder [Favorites], at address 1, with a bookmark between the two: it
    is the child that [copyItems] of the bookmark onto itself gave the
    bookmark, no guard of [copyItems] asking for a folder as the parent.
    [hasDescendant], which is to answer for every direct or indirect
    subitem, answers [false] for it, and [copyItems] of the folder onto it,
    which is not to drop a folder onto a descendant, does not return the
    empty list: it returns one index, and the item has a child it had not
    before. *)
Theorem copyItems_folder_below_its_bookmark :
  ∃ (F : BookmarkItemBase) (result : list QModelIndex) (st' : State),
    copyItems samplePlatform favoritesState 0 (Index 0 0 2) [Index 0 0 2]
      = Some ([Index 0 0 4], bookmarkWithChildState) ∧
    deref bookmarkWithChildState 1 = Some F ∧
    isFolderItem F = true ∧
    (4 ∈ addresses F) ∧
    hasDescendant F 4 = false ∧
    copyItems samplePlatform bookmarkWithChildState 0 (Index 0 0 4)
      [Index 0 0 1] = Some (result, st') ∧
    result ≠ [] ∧
    childCount <$> deref bookmarkWithChildState 4 = Some 0 ∧
    childCount <$> deref st' 4 = Some 1.
Proof.
  eexists _, _, _. split; [vm_compute; reflexivity|].
  split; [vm_compute; reflexivity|].
  split; [reflexivity|]. split; [by_computation|].
  split; [vm_compute; reflexivity|].
  split; [vm_compute; reflexivity|].
  split; [discriminate|].
  split; vm_compute; reflexivity.
Qed.

(** ** Encoding and decoding *)

(** The file of [favoritesFiles] loads as the folder [Favorites] with its
    bookmark, which has the key, the module name and the title of its
    element, and the folder [Other]. *)
Example favoritesState_content :
  content <$> m_children (m_rootItem favoritesState) =
    [FolderContent "Favorites"
       [BookmarkContent "John 3:16" "" "KJV" "Key Verse" []];
     FolderContent "Other" []].
Proof. vm_compute. reflexivity. Qed.

Lemma saveItem_unfold (P : Platform) (x : BookmarkItemBase)
    (parentElement : QDomNode) :
  saveItem P x parentElement =
    match derived x with
    | FolderItem =>
        appendChild
          (saveItems P (m_children x)
             (setAttribute "caption" (m_text x) (createElement "Folder")))
          parentElement
    | BookmarkData _ _ _ =>
        appendChild (ElementNode "Bookmark" (bookmarkAttributes P x) [])
                    parentElement
    | PlainItem => parentElement
    end.
Proof.
  destruct x as [a d kids f i p t tip]. destruct d; simpl; [done| |].
  - f_equal. generalize (ElementNode "Folder" (<["caption":=t]> ∅) []).
    induction kids as [|c kids IH]; intros e; [done|]. simpl. apply IH.
  - unfold bookmarkAttributes. simpl. by destruct (decide (t = "")).
Qed.

(** [saveItem] appends the elements of the item to the parent element. *)
Lemma saveItem_appends (P : Platform) (x : BookmarkItemBase) :
  ∀ tag attrs kids,
    saveItem P x (ElementNode tag attrs kids)
      = ElementNode tag attrs (kids ++ elementsOfItem P x).
Proof.
  induction x as [a d ch f i p t tip IH] using BookmarkItemBase_ind.
  intros tag attrs kids. rewrite saveItem_unfold. destruct d; simpl.
  - by rewrite app_nil_r.
  - f_equal. f_equal.
    assert (Hall : ∀ ekids,
      saveItems P ch (ElementNode "Folder" (<["caption":=t]> ∅) ekids)
        = ElementNode "Folder" (<["caption":=t]> ∅)
            (ekids ++ mjoin (elementsOfItem P <$> ch))).
    { induction IH as [|c ch Hc _ IHch]; intros ekids; simpl.
      - by rewrite app_nil_r.
      - rewrite Hc, IHch. by rewrite <- app_assoc. }
    f_equal. apply (Hall []).
  - done.
Qed.

Lemma saveItems_appends (P : Platform) (l : list BookmarkItemBase)
    (tag : string) (attrs : gmap string string) (kids : list QDomNode) :
  saveItems P l (ElementNode tag attrs kids)
    = ElementNode tag attrs (kids ++ mjoin (elementsOfItem P <$> l)).
Proof.
  revert kids. induction l as [|c l IH]; intros kids; simpl.
  - by rewrite app_nil_r.
  - rewrite saveItem_appends, IH. by rewrite <- app_assoc.
Qed.

Lemma handleXmlElement_folder (P : Platform) (attrs : gmap string string)
    (childList : list QDomNode) (parent : option ptr) (next : ptr) :
  handleXmlElement P (ElementNode "Folder" attrs childList) parent next =
    let newFolder := BookmarkFolder_new next "" parent in
    let newFolder :=
      match attrs !! "caption" with
      | Some caption => setText caption newFolder
      | None => newFolder
      end in
    let '(kids, next) := handleChildNodes P childList (Some next) (S next) in
    (Some (setChildren kids newFolder), next).
Proof.
  simpl.
  assert (Hloop : ∀ l n,
    (fix each (l : list QDomNode) (next0 : ptr) : list BookmarkItemBase * ptr :=
       match l with
       | [] => ([], next0)
       | newElement :: l' =>
           let '(i, next1) := handleXmlElement P newElement (Some next) next0 in
           let '(rest, next2) := each l' next1 in
           (option_list i ++ rest, next2)
       end) l n = handleChildNodes P l (Some next) n).
  { induction l as [|e l IH]; intros n; [done|]. simpl.
    destruct (handleXmlElement P e (Some next) n) as [i n1]. by rewrite IH. }
  by rewrite Hloop.
Qed.

Lemma handleXmlElement_bookmark (P : Platform) (attrs : gmap string string)
    (childList : list QDomNode) (parent : option ptr) (next : ptr) :
  handleXmlElement P (ElementNode "Bookmark" attrs childList) parent next =
    (Some (withAttribute (attrs !! "title") setText
             (withAttribute (attrs !! "description") setDescription
                (withAttribute (attrs !! "key") setKey
                   (withAttribute (attrs !! "modulename") setModule
                      (BookmarkItem_new P next parent))))),
     S next).
Proof. reflexivity. Qed.

Lemma bookmarkAttributes_key (P : Platform) (x : BookmarkItemBase) :
  bookmarkAttributes P x !! "key" = Some (englishKey x).
Proof. unfold bookmarkAttributes. case_decide; by simplify_map_eq. Qed.

Lemma bookmarkAttributes_description (P : Platform) (x : BookmarkItemBase) :
  bookmarkAttributes P x !! "description" = Some (description x).
Proof. unfold bookmarkAttributes. case_decide; by simplify_map_eq. Qed.

Lemma bookmarkAttributes_modulename (P : Platform) (x : BookmarkItemBase) :
  bookmarkAttributes P x !! "modulename" = Some (moduleName x).
Proof. unfold bookmarkAttributes. case_decide; by simplify_map_eq. Qed.

Lemma bookmarkAttributes_title (P : Platform) (x : BookmarkItemBase) :
  bookmarkAttributes P x !! "title" =
    if decide (m_text x = "") then None else Some (m_text x).
Proof. unfold bookmarkAttributes. case_decide; by simplify_map_eq. Qed.

Lemma titledTree_unfold (x : BookmarkItemBase) :
  titledTree x =
    match derived x with
    | FolderItem => forallb titledTree (m_children x)
    | BookmarkData _ _ _ =>
        match m_children x with
        | [] => negb (bool_decide (m_text x = ""))
        | _ => false
        end
    | PlainItem => false
    end.
Proof. by destruct x. Qed.

(** The element of an item of a titled tree decodes to an item with the
    content of that item. *)
Lemma decode_element (P : Platform) (x : BookmarkItemBase) :
  titledTree x = true →
  ∀ parent next,
    ∃ e y next',
      elementsOfItem P x = [e] ∧ isElement e = true ∧
      handleXmlElement P e parent next = (Some y, next') ∧
      content y = content x.
Proof.
  induction x as [a d ch f i p t tip IH] using BookmarkItemBase_ind.
  rewrite titledTree_unfold. destruct d; simpl; [done| |].
  - intros Hch parent next.
    assert (Hkids : ∀ n, ∃ ys n',
      handleChildNodes P (mjoin (elementsOfItem P <$> ch)) (Some next) n
        = (ys, n') ∧ content <$> ys = content <$> ch).
    { clear -IH Hch.
      induction IH as [|c ch Hc _ IHch]; intros n; csimpl.
      - by eexists _, _.
      - simpl in Hch. apply andb_true_iff in Hch as [Hc1 Hch].
        destruct (Hc Hc1 (Some next) n) as (e & y & n1 & -> & _ & He & Hy).
        destruct (IHch Hch n1) as (ys & n2 & Hys & Hcs).
        csimpl. rewrite He, Hys. eexists _, _. split; [reflexivity|].
        csimpl. by rewrite Hy, Hcs. }
    destruct (Hkids (S next)) as (ys & n' & Hys & Hcs).
    eexists _, _, _. split; [reflexivity|]. split; [reflexivity|].
    rewrite handleXmlElement_folder, lookup_insert_eq. simpl. rewrite Hys.
    split; [reflexivity|]. simpl. by rewrite Hcs.
  - destruct ch as [|c ch]; [|done]. intros Ht parent next.
    apply negb_true_iff, bool_decide_eq_false in Ht.
    eexists _, _, _. split; [reflexivity|]. split; [reflexivity|].
    rewrite handleXmlElement_bookmark.
    rewrite bookmarkAttributes_modulename, bookmarkAttributes_key,
      bookmarkAttributes_description, bookmarkAttributes_title.
    simpl. rewrite decide_False by done. split; reflexivity.
Qed.

(** The elements of the items of titled trees, at the top of the document,
    decode to as many items, none of them null, with their contents. *)
Lemma loadTree_loop_decodes (P : Platform) (l : list BookmarkItemBase) :
  Forall (λ x, titledTree x = true) l →
  ∀ next,
    ∃ ys next',
      loadTree_loop P (mjoin (elementsOfItem P <$> l)) next
        = (Some <$> ys, next') ∧
      content <$> ys = content <$> l.
Proof.
  induction 1 as [|x l Hx _ IH]; intros next; csimpl.
  - by exists [], next.
  - destruct (decode_element P x Hx None next)
      as (e & y & n1 & -> & Hel & He & Hy).
    destruct (IH n1) as (ys & n2 & Hys & Hcs).
    csimpl. rewrite Hel, He, Hys. eexists (y :: ys), _.
    split; [reflexivity|]. csimpl. by rewrite Hy, Hcs.
Qed.

Lemma documentOfRootItem_element (P : Platform) (rootItem : BookmarkItemBase) :
  documentElement (documentOfRootItem P rootItem) =
    Some (ElementNode "SwordBookmarks"
            (<["syntaxVersion" := CURRENT_SYNTAX_VERSION]> ∅)
            (mjoin (elementsOfItem P <$> m_children rootItem))).
Proof.
  unfold documentOfRootItem, documentElement. simpl.
  by rewrite saveItems_appends.
Qed.

(** C1, as the code has it.  Let the items below [rootItem] be trees of
    folders and of bookmarks, where a bookmark holds no items and has a
    text that is not empty, and let the text [serializeTreeFromRootItem]
    gives be in the file, Qt reading from that text the document it was
    written from.  Then [loadTree] gives as many items as [rootItem] has
    children, none of them null, with the same captions, keys,
    descriptions, module names and titles, in the same order at every
    level. *)
Theorem loadTree_of_serialized_tree (P : Platform) (fs : gmap string QFile)
    (fileName : string) (rootItem : BookmarkItemBase) (next : ptr) :
  Forall (λ x, titledTree x = true) (m_children rootItem) →
  fs !! sourceName P fileName
    = Some (Readable (serializeTreeFromRootItem P rootItem)) →
  setContent P (serializeTreeFromRootItem P rootItem)
    = documentOfRootItem P rootItem →
  ∃ items,
    (loadTree P fs fileName next).1 = Some <$> items ∧
    content <$> items = content <$> m_children rootItem.
Proof.
  intros Htitled Hfile Hqt. unfold loadTree, loadXmlFromFile.
  rewrite Hfile, Hqt.
  rewrite documentOfRootItem_element. simpl.
  destruct (loadTree_loop_decodes P (m_children rootItem) Htitled next)
    as (ys & n' & -> & Hcs).
  by exists ys.
Qed.

(** The theorem at work: the tree of [favoritesRoot] is written and read. *)
Lemma loadTree_of_serialized_tree_witness :
  ∃ items,
    (loadTree samplePlatform savedFavoritesFiles "bookmarks.xml" 10).1
      = Some <$> items ∧
    content <$> items = content <$> m_children favoritesRoot.
Proof.
  apply (loadTree_of_serialized_tree samplePlatform savedFavoritesFiles
           "bookmarks.xml" favoritesRoot 10).
  - by_computation.
  - vm_compute. reflexivity.
  - vm_compute. reflexivity.
Defined.

(** C1, as the specification has it, fails.  In [untitledRoot] the bookmark
    below [Favorites] has an empty text.  The text of the tree is in the
    file and the document is read back from it; the bookmark [loadTree]
    gives has the key, the description and the module name of the first,
    and the text [" (unknown)"]. *)
Lemma loadTree_of_untitled_bookmark :
  ∃ items : list BookmarkItemBase,
    setContent samplePlatform
        (serializeTreeFromRootItem samplePlatform untitledRoot)
      = documentOfRootItem samplePlatform untitledRoot ∧
    (loadTree samplePlatform savedUntitledFiles "bookmarks.xml" 10).1
      = Some <$> items ∧
    content <$> m_children untitledRoot =
      [FolderContent "Favorites"
         [BookmarkContent "John 3:16" "" "KJV" "" []];
       FolderContent "Other" []] ∧
    content <$> items =
      [FolderContent "Favorites"
         [BookmarkContent "John 3:16" "" "KJV" " (unknown)" []];
       FolderContent "Other" []] ∧
    content <$> items ≠ content <$> m_children untitledRoot.
Proof.
  exists (default []
            (mapM id (loadTree samplePlatform savedUntitledFiles
                        "bookmarks.xml" 10).1)).
  split; [vm_compute; reflexivity|].
  split; [vm_compute; reflexivity|].
  split; [vm_compute; reflexivity|].
  split; [vm_compute; reflexivity|].
  intros Heq. vm_compute in Heq. discriminate Heq.
Qed.

(** ** Pointers into a tree of distinct objects *)

Local Arguments subitems : simpl never.
Local Arguments findItem : simpl never.
Local Arguments updateItem : simpl never.

Lemma subitems_here (x : BookmarkItemBase) : x ∈ subitems x.
Proof. rewrite subitems_unfold. left. Qed.

Lemma subitems_cases (x y : BookmarkItemBase) :
  y ∈ subitems x → y = x ∨ ∃ c, c ∈ m_children x ∧ y ∈ subitems c.
Proof.
  rewrite subitems_unfold. intros [->|H]%elem_of_cons; [by left|right].
  apply list_elem_of_join in H as (l & Hy & Hl).
  apply list_elem_of_fmap in Hl as (c & -> & Hc). by exists c.
Qed.

Lemma subitems_child (x c y : BookmarkItemBase) :
  c ∈ m_children x → y ∈ subitems c → y ∈ subitems x.
Proof.
  intros Hc Hy. rewrite subitems_unfold. right.
  apply list_elem_of_join. exists (subitems c). split; [done|].
  by apply list_elem_of_fmap_2.
Qed.

Lemma subitems_trans (x y z : BookmarkItemBase) :
  y ∈ subitems x → z ∈ subitems y → z ∈ subitems x.
Proof.
  induction x as [a d kids f i p t tip IH] using BookmarkItemBase_ind.
  intros Hy Hz. apply subitems_cases in Hy as [->|(c & Hc & Hy)]; [done|].
  simpl in Hc. rewrite Forall_forall in IH.
  apply (subitems_child _ c); [done|]. by apply IH.
Qed.

Lemma addresses_subitem (x y : BookmarkItemBase) (a : ptr) :
  y ∈ subitems x → a ∈ addresses y → a ∈ addresses x.
Proof.
  unfold addresses. intros Hy (z & -> & Hz)%list_elem_of_fmap.
  apply list_elem_of_fmap_2. by apply (subitems_trans x y).
Qed.

(** The addresses of a tree are distinct: so are those below each child,
    and no address is below two children. *)
Lemma NoDup_addresses_inv (x : BookmarkItemBase) :
  NoDup (addresses x) →
  (this x ∉ mjoin (addresses <$> m_children x)) ∧
  NoDup (mjoin (addresses <$> m_children x)).
Proof. rewrite addresses_unfold. by intros [? ?]%NoDup_cons. Qed.

Lemma NoDup_addresses_child (x c : BookmarkItemBase) :
  NoDup (addresses x) → c ∈ m_children x → NoDup (addresses c).
Proof.
  intros [_ Hnd]%NoDup_addresses_inv Hc.
  induction (m_children x) as [|k kids IH]; [by apply elem_of_nil in Hc|].
  csimpl in Hnd. apply NoDup_app in Hnd as (Hk & _ & Hkids).
  apply elem_of_cons in Hc as [->|Hc]; [done|]. by apply IH.
Qed.

Lemma findItem_Some (a : ptr) (x y : BookmarkItemBase) :
  findItem a x = Some y → y ∈ subitems x ∧ this y = a.
Proof.
  induction x as [b d kids f i p t tip IH] using BookmarkItemBase_ind.
  rewrite findItem_unfold. destruct (decide _) as [Heq|Hne].
  - intros [= <-]. split; [apply subitems_here|done].
  - simpl. intros Hfind.
    assert (∃ c, c ∈ kids ∧ findItem a c = Some y) as (c & Hc & Hy).
    { clear -Hfind. induction kids as [|c kids IHk]; [done|]. simpl in Hfind.
      destruct (findItem a c) eqn:Hc.
      - exists c. split; [left|]. congruence.
      - destruct (IHk Hfind) as (c' & ? & ?). exists c'. split; [by right|done]. }
    rewrite Forall_forall in IH. destruct (IH c Hc Hy) as [Hsub Hthis].
    split; [|done]. by apply (subitems_child _ c).
Qed.

Lemma findItem_None (a : ptr) (x : BookmarkItemBase) :
  a ∉ addresses x → findItem a x = None.
Proof.
  intros Hnot. destruct (findItem a x) as [y|] eqn:Hy; [|done].
  apply findItem_Some in Hy as [Hsub <-]. destruct Hnot.
  by apply list_elem_of_fmap_2.
Qed.

(** In a tree of distinct objects a pointer to an object finds it. *)
Lemma findItem_subitem (x y : BookmarkItemBase) :
  NoDup (addresses x) → y ∈ subitems x → findItem (this y) x = Some y.
Proof.
  induction x as [b d kids f i p t tip IH] using BookmarkItemBase_ind.
  intros Hnd Hy. rewrite findItem_unfold. simpl.
  apply subitems_cases in Hy as [->|(c & Hc & Hy)].
  { by rewrite decide_True. }
  simpl in Hc.
  pose proof (NoDup_addresses_inv _ Hnd) as [Hroot Hkids]. simpl in Hroot, Hkids.
  rewrite decide_False.
  2:{ intros Heq. apply Hroot. apply list_elem_of_join.
      exists (addresses c). split; [|by apply list_elem_of_fmap_2].
      rewrite Heq. by apply list_elem_of_fmap_2. }
  clear Hroot Hnd. induction kids as [|k kids IHk]; [by apply elem_of_nil in Hc|].
  csimpl in Hkids. apply NoDup_app in Hkids as (Hk & Hdisj & Hrest).
  apply Forall_cons in IH as [IHhead IHtail]. simpl.
  apply elem_of_cons in Hc as [->|Hc].
  - by rewrite (IHhead Hk Hy).
  - rewrite findItem_None; [by apply IHk|].
    intros Hin. apply (Hdisj _ Hin). apply list_elem_of_join.
    exists (addresses c). split; [by apply list_elem_of_fmap_2|].
    by apply list_elem_of_fmap_2.
Qed.

Lemma updateItem_absent (a : ptr) (f : BookmarkItemBase → BookmarkItemBase)
    (x : BookmarkItemBase) :
  a ∉ addresses x → updateItem a f x = x.
Proof.
  induction x as [b d kids fl i p t tip IH] using BookmarkItemBase_ind.
  intros Hnot. rewrite updateItem_unfold. simpl.
  rewrite addresses_unfold in Hnot. simpl in Hnot.
  apply not_elem_of_cons in Hnot as [Hne Hkids].
  rewrite decide_False by done. unfold setChildren. simpl. f_equal.
  induction kids as [|c kids IHk]; [done|].
  apply Forall_cons in IH as [IHc IHkids]. csimpl in Hkids.
  apply not_elem_of_app in Hkids as [Hc Hrest]. simpl.
  by rewrite (IHc Hc), (IHk IHkids Hrest).
Qed.

Section Reordering.
Context (a : ptr) (f : BookmarkItemBase → BookmarkItemBase).
Hypothesis f_reorders : Reorders f.

Lemma updateItem_this (x : BookmarkItemBase) : this (updateItem a f x) = this x.
Proof.
  rewrite updateItem_unfold. destruct (decide _); [|done].
  by destruct (f_reorders x) as (l & -> & _).
Qed.

Lemma updateItem_derived (x : BookmarkItemBase) :
  derived (updateItem a f x) = derived x.
Proof.
  rewrite updateItem_unfold. destruct (decide _); [|done].
  by destruct (f_reorders x) as (l & -> & _).
Qed.

Lemma updateItem_text (x : BookmarkItemBase) :
  m_text (updateItem a f x) = m_text x.
Proof.
  rewrite updateItem_unfold. destruct (decide _); [|done].
  by destruct (f_reorders x) as (l & -> & _).
Qed.

(** The objects of the changed tree are the changed objects of the tree. *)
Lemma subitems_updateItem (x : BookmarkItemBase) :
  NoDup (addresses x) →
  subitems (updateItem a f x) ≡ₚ updateItem a f <$> subitems x.
Proof.
  induction x as [b d kids fl i p t tip IH] using BookmarkItemBase_ind.
  intros Hnd. rewrite (subitems_unfold (Item _ _ _ _ _ _ _ _)). csimpl.
  pose proof (NoDup_addresses_inv _ Hnd) as [Hroot Hkids]. simpl in Hroot, Hkids.
  rewrite (updateItem_unfold a f (Item _ _ _ _ _ _ _ _)). simpl.
  destruct (decide (b = a)) as [->|Hne].
  - destruct (f_reorders (Item a d kids fl i p t tip)) as (l & Hf & Hl).
    rewrite Hf, subitems_unfold. simpl in *. apply Permutation_skip.
    rewrite Hl. clear IH Hnd Hkids Hf Hl l.
    assert (Hid : Forall (λ y, updateItem a f y = y)
                         (mjoin (subitems <$> kids))).
    { apply Forall_forall. intros y Hy. apply updateItem_absent.
      intros Ha. apply Hroot.
      apply list_elem_of_join in Hy as (s & Hy & Hs).
      apply list_elem_of_fmap in Hs as (c & -> & Hc).
      apply list_elem_of_join. exists (addresses c).
      split; [|by apply list_elem_of_fmap_2].
      by apply (addresses_subitem c y). }
    induction Hid as [|y l Hy _ IHl]; [done|]. csimpl. by rewrite Hy, <- IHl.
  - rewrite subitems_unfold. simpl. apply Permutation_skip.
    clear Hroot Hnd. induction kids as [|c kids IHk]; [done|].
    apply Forall_cons in IH as [IHc IHkids]. csimpl in Hkids.
    apply NoDup_app in Hkids as (Hc & _ & Hrest). csimpl.
    rewrite fmap_app. by rewrite (IHc Hc), (IHk IHkids Hrest).
Qed.

Lemma addresses_updateItem (x : BookmarkItemBase) :
  NoDup (addresses x) → addresses (updateItem a f x) ≡ₚ addresses x.
Proof.
  intros Hnd. unfold addresses. rewrite (subitems_updateItem x Hnd).
  rewrite <- list_fmap_compose.
  replace (this ∘ updateItem a f <$> subitems x) with (this <$> subitems x);
    [done|].
  apply list_fmap_ext. intros _ y _. symmetry. apply updateItem_this.
Qed.

(** A pointer that found an object finds the changed object. *)
Lemma findItem_updateItem (b : ptr) (x y : BookmarkItemBase) :
  NoDup (addresses x) →
  findItem b x = Some y →
  findItem b (updateItem a f x) = Some (updateItem a f y).
Proof.
  intros Hnd [Hsub <-]%findItem_Some.
  rewrite <- (updateItem_this y). apply findItem_subitem.
  - by rewrite (addresses_updateItem x Hnd).
  - rewrite (subitems_updateItem x Hnd). by apply list_elem_of_fmap_2.
Qed.

End Reordering.

(** In a tree of distinct objects, only what a change does to the object
    the pointer finds matters. *)
Lemma updateItem_ext (a : ptr) (f g : BookmarkItemBase → BookmarkItemBase)
    (r y : BookmarkItemBase) :
  NoDup (addresses r) → findItem a r = Some y → f y = g y →
  updateItem a f r = updateItem a g r.
Proof.
  induction r as [b d kids fl i p t tip IH] using BookmarkItemBase_ind.
  intros Hnd Hy Hfg. rewrite !updateItem_unfold. simpl.
  rewrite findItem_unfold in Hy. simpl in Hy.
  destruct (decide (b = a)) as [->|Hne]; [congruence|].
  f_equal. apply list_fmap_ext. intros _ c Hc%list_elem_of_lookup_2.
  destruct (decide (a ∈ addresses c)) as [Hin|Hout].
  - rewrite Forall_forall in IH. apply (IH c Hc); [|  |done].
    + by apply (NoDup_addresses_child (Item b d kids fl i p t tip)).
    + assert (Hyr : findItem a (Item b d kids fl i p t tip) = Some y).
      { rewrite findItem_unfold. simpl. by rewrite decide_False. }
      apply list_elem_of_fmap in Hin as (z & -> & Hz).
      pose proof (findItem_subitem _ z Hnd
                    (subitems_child (Item b d kids fl i p t tip) c z Hc Hz)) as Hzr.
      assert (z = y) as -> by congruence.
      apply findItem_subitem; [|done].
      by apply (NoDup_addresses_child (Item b d kids fl i p t tip)).
  - by rewrite !updateItem_absent.
Qed.

(** ** Insertion through a pointer *)

(** [insertChild] returns for a child that is not among the children, and
    for no other. *)
Lemma insertChild_Some (index : Z) (c x : BookmarkItemBase) :
  this c ∉ this <$> m_children x →
  insertChild index c x = Some (childInserted index c x).
Proof.
  intros Hnew. unfold insertChild.
  change (this (setParent (Some (this x)) c)) with (this c).
  by rewrite (proj2 (containsPtr_false _ _) Hnew).
Qed.

Lemma insertChild_inv (index : Z) (c x x' : BookmarkItemBase) :
  insertChild index c x = Some x' →
  (this c ∉ this <$> m_children x) ∧ x' = childInserted index c x.
Proof.
  unfold insertChild.
  change (this (setParent (Some (this x)) c)) with (this c).
  destruct (containsPtr (m_children x) (this c)) eqn:Hin; [done|].
  intros [= <-]. split; [|done]. by apply containsPtr_false.
Qed.

Lemma children_childInserted (index : Z) (c x : BookmarkItemBase) :
  this <$> m_children (childInserted index c x)
    ≡ₚ this c :: (this <$> m_children x).
Proof.
  unfold childInserted. simpl. rewrite fmap_app. simpl.
  rewrite <- Permutation_middle. apply Permutation_skip.
  by rewrite <- fmap_app, take_drop.
Qed.

Lemma insertChildren_inv (l : list BookmarkItemBase) :
  ∀ index x x',
    insertChildren index l x = Some x' →
    x' = childrenInserted index l x ∧ NoDup (this <$> l) ∧
    Forall (λ c, this c ∉ this <$> m_children x) l.
Proof.
  induction l as [|c l IH]; intros index x x' Hrun; simpl in Hrun.
  { injection Hrun as <-. split; [done|]. split; [constructor|done]. }
  destruct (insertChild index c x) as [x1|] eqn:Hc; [|done]. simpl in Hrun.
  apply insertChild_inv in Hc as [Hnew ->].
  apply IH in Hrun as (-> & Hnd & Hall). split; [done|].
  rewrite Forall_forall in Hall. split.
  - csimpl. apply NoDup_cons. split; [|done].
    intros (c' & Hthis & Hc')%list_elem_of_fmap. apply (Hall c' Hc').
    rewrite children_childInserted, <- Hthis. left.
  - apply Forall_cons. split; [done|]. apply Forall_forall. intros c' Hc' Hin.
    apply (Hall c' Hc'). rewrite children_childInserted. by right.
Qed.

Lemma insertChildren_Some (l : list BookmarkItemBase) :
  ∀ index x,
    NoDup (this <$> l) → Forall (λ c, this c ∉ this <$> m_children x) l →
    insertChildren index l x = Some (childrenInserted index l x).
Proof.
  induction l as [|c l IH]; intros index x Hnd Hall; [done|]. csimpl in *.
  apply NoDup_cons in Hnd as [Hc Hnd]. apply Forall_cons in Hall as [Hnew Hall].
  rewrite insertChild_Some by done. simpl. apply IH; [done|].
  rewrite Forall_forall in Hall. apply Forall_forall. intros c' Hc'.
  rewrite children_childInserted. intros [Heq|Hin]%elem_of_cons.
  - apply Hc. rewrite <- Heq. by apply list_elem_of_fmap_2.
  - by apply (Hall c' Hc').
Qed.

(** A call through a pointer into a tree of distinct objects changes the
    one object the pointer finds. *)
Lemma callOn_Some (a : ptr) (f : BookmarkItemBase → option BookmarkItemBase)
    (g : BookmarkItemBase → BookmarkItemBase) (r x : BookmarkItemBase) :
  NoDup (addresses r) → findItem a r = Some x → f x = Some (g x) →
  callOn a f r = Some (updateItem a g r).
Proof.
  intros Hnd Hx Hf. unfold callOn. rewrite Hx. simpl. rewrite Hf. simpl.
  f_equal. apply (updateItem_ext _ _ _ _ x); [done|done|]. by rewrite Hf.
Qed.

Lemma callOn_inv (a : ptr) (f : BookmarkItemBase → option BookmarkItemBase)
    (r r' : BookmarkItemBase) :
  callOn a f r = Some r' →
  ∃ x x', findItem a r = Some x ∧ f x = Some x' ∧
          r' = updateItem a (λ y, default y (f y)) r.
Proof.
  unfold callOn. destruct (findItem a r) as [x|]; [|done]. simpl.
  destruct (f x) as [x'|] eqn:Hf; [|done]. simpl. intros [= <-].
  by exists x, x'.
Qed.

Lemma callOn_inv_distinct (a : ptr)
    (f : BookmarkItemBase → option BookmarkItemBase)
    (g : BookmarkItemBase → BookmarkItemBase) (r r' : BookmarkItemBase) :
  NoDup (addresses r) → (∀ x x', f x = Some x' → x' = g x) →
  callOn a f r = Some r' →
  ∃ x, findItem a r = Some x ∧ f x = Some (g x) ∧ r' = updateItem a g r.
Proof.
  intros Hnd Hg Hrun.
  destruct (callOn_inv _ _ _ _ Hrun) as (x & x' & Hx & Hf & ->).
  pose proof (Hg _ _ Hf) as ->.
  exists x. split; [done|]. split; [done|].
  apply (updateItem_ext _ _ _ _ x); [done|done|]. by rewrite Hf.
Qed.

(** ** load *)

Lemma set_heap_next_same (st : State) : set_heap_next (heap_next st) st = st.
Proof. by destruct st. Qed.

Lemma loadTree_absent (P : Platform) (fs : gmap string QFile)
    (fileName : string) (next : ptr) :
  loadXmlFromFile P fs fileName = None →
  loadTree P fs fileName next = ([], next).
Proof. unfold loadTree. by intros ->. Qed.

Lemma loadTree_wrong_root (P : Platform) (fs : gmap string QFile)
    (fileName text : string) (next : ptr) :
  loadXmlFromFile P fs fileName = Some text →
  tagName_of (documentElement (setContent P text)) ≠ "SwordBookmarks" →
  loadTree P fs fileName next = ([], next).
Proof. unfold loadTree. intros -> Htag. by rewrite decide_False. Qed.

Lemma loadTree_fails (P : Platform) (fs : gmap string QFile)
    (fileName : string) (next : ptr) :
  documentElement (setContent P "") = None →
  SourceFails P fs fileName →
  loadTree P fs fileName next = ([], next).
Proof.
  intros Hempty [H|H|H|text H Htag].
  - apply loadTree_absent. unfold loadXmlFromFile. by rewrite H.
  - apply loadTree_absent. unfold loadXmlFromFile. by rewrite H.
  - apply (loadTree_wrong_root _ _ _ "").
    + unfold loadXmlFromFile. by rewrite H.
    + by rewrite Hempty.
  - apply (loadTree_wrong_root _ _ _ text); [|done].
    unfold loadXmlFromFile. by rewrite H.
Qed.

Lemma childrenInserted_at_end (items : list BookmarkItemBase) :
  ∀ x : BookmarkItemBase,
    childrenInserted (Z.of_nat (childCount x)) items x = appendItems items x.
Proof.
  unfold appendItems, childCount.
  induction items as [|c items IH]; intros x; csimpl.
  - rewrite app_nil_r. by destruct x.
  - replace (Z.of_nat (length (m_children x)) + 1)%Z
      with (Z.of_nat (length (m_children (childInserted
              (Z.of_nat (length (m_children x))) c x)))).
    + rewrite IH. unfold childInserted, setChildren. simpl.
      rewrite Nat2Z.id, take_ge, drop_ge by lia.
      by rewrite <- app_assoc.
    + unfold childInserted. simpl.
      rewrite Nat2Z.id, take_ge, drop_ge by lia.
      rewrite length_app. simpl. lia.
Qed.

(** C6.  When the source of [load] is absent, cannot be read, is empty, or
    has a root element that is not [SwordBookmarks], [load] returns [false]
    and the tree of the model is what it was.  And whenever [load] returns,
    it has returned [false] and left the tree as it was, or it has returned
    [true] and put every item [loadTree] gave, none of them null, after the
    children of the target.  The parser is taken to find no document
    element in the empty text, the call to respect the assertion that a
    default model is registered once, and, for the second part, the items
    of the tree to be distinct objects. *)
Theorem load_failure_leaves_tree (P : Platform) (st : State)
    (fileName : string) (rootItem : QModelIndex) :
  documentElement (setContent P "") = None →
  (isValid rootItem = false → fileName = "" → m_defaultModel st = None) →
  (SourceFails P (files st) fileName →
   ∃ st', load P st fileName rootItem = Some (false, st') ∧
          m_rootItem st' = m_rootItem st ∧
          files st' = files st ∧
          written st' = written st) ∧
  (NoDup (addresses (m_rootItem st)) →
   ∀ b st', load P st fileName rootItem = Some (b, st') →
     (b = false ∧ m_rootItem st' = m_rootItem st) ∨
     (b = true ∧
      ∃ items,
        (loadTree P (files st) fileName (heap_next st)).1 = Some <$> items ∧
        m_rootItem st' =
          updateItem (item st rootItem) (appendItems items) (m_rootItem st))).
Proof.
  intros Hempty Hassert. split.
  - intros Hfail. unfold load.
    rewrite (loadTree_fails P (files st) fileName (heap_next st) Hempty Hfail).
    rewrite set_heap_next_same.
    destruct (isValid rootItem) eqn:Hvalid; simpl.
    + eexists. split; [reflexivity|]. done.
    + destruct (decide (fileName = "")) as [->|Hne].
      * rewrite bool_decide_eq_true_2 by done. rewrite Hassert by done.
        simpl. eexists. split; [reflexivity|]. done.
      * rewrite bool_decide_eq_false_2 by done. simpl.
        eexists. split; [reflexivity|]. done.
  - intros Hnd b st'. unfold load.
    destruct (loadTree P (files st) fileName (heap_next st)) as [items next].
    set (st1 := set_heap_next next st).
    destruct (if negb (isValid rootItem) && bool_decide (fileName = "")
              then _ else _) as [st2|] eqn:Hreg; [|done].
    assert (Hroot : m_rootItem st2 = m_rootItem st).
    { destruct (negb (isValid rootItem) && bool_decide (fileName = "")).
      - destruct (m_defaultModel st1); [done|]. by injection Hreg as <-.
      - by injection Hreg as <-. }
    simpl. destruct (bool_decide (length items = 0)).
    { intros [= <- <-]. by left. }
    unfold deref. rewrite Hroot.
    destruct (findItem (item st rootItem) (m_rootItem st)) as [target|]
      eqn:Htarget; [|done].
    simpl. destruct (mapM id items) as [ys|] eqn:Hys; [|done].
    simpl. destruct (callOn _ _ _) as [r|] eqn:Hcall; [|done].
    simpl. intros [= <- <-]. right. split; [done|]. exists ys. split.
    + apply mapM_Some in Hys. clear -Hys.
      induction Hys as [|i y items ys Hi _ IH]; [done|]. csimpl.
      simpl in Hi. by rewrite Hi, IH.
    + simpl.
      apply (callOn_inv_distinct _ _
               (childrenInserted (Z.of_nat (childCount target)) ys))
        in Hcall as (x & Hx & _ & ->); [|done|].
      2:{ intros x x' H. by apply insertChildren_inv in H as [-> _]. }
      apply (updateItem_ext _ _ _ _ target); try done.
      apply childrenInserted_at_end.
Qed.

(** The theorem at work: [load] of an empty file. *)
Lemma load_failure_leaves_tree_witness :
  ∃ st', load samplePlatform emptyFileState "empty.xml" InvalidIndex
           = Some (false, st') ∧
         m_rootItem st' = m_rootItem emptyFileState ∧
         files st' = files emptyFileState ∧
         written st' = written emptyFileState.
Proof.
  apply (load_failure_leaves_tree samplePlatform emptyFileState "empty.xml"
           InvalidIndex).
  - reflexivity.
  - intros _ Hname. discriminate Hname.
  - apply source_empty. reflexivity.
Defined.

(** C10.  [load()] with no file name and the invalid index, on a process
    without a default model yet, makes this model the default one and
    connects the timer to [slotSave], also when the default file is absent
    and the call returns [false]. *)
Theorem load_registers_default_model_on_failure (P : Platform) (st : State) :
  m_defaultModel st = None →
  files st !! defaultBookmarksFile P = None →
  ∃ st', load P st "" InvalidIndex = Some (false, st') ∧
         m_defaultModel st' = Some (q_ptr st) ∧
         q_ptr st' = q_ptr st ∧
         slotSave_connections (m_saveTimer st')
           = S (slotSave_connections (m_saveTimer st)) ∧
         m_rootItem st' = m_rootItem st.
Proof.
  intros Hnone Habsent. unfold load.
  rewrite loadTree_absent.
  2:{ unfold loadXmlFromFile, sourceName. rewrite decide_True by done.
      by rewrite Habsent. }
  rewrite set_heap_next_same. simpl. rewrite Hnone. simpl.
  eexists. split; [reflexivity|]. done.
Qed.

(** The theorem at work: the first [load()] of a process without files. *)
Lemma load_registers_default_model_on_failure_witness :
  ∃ st', load samplePlatform freshState "" InvalidIndex = Some (false, st') ∧
         m_defaultModel st' = Some (q_ptr freshState) ∧
         q_ptr st' = q_ptr freshState ∧
         slotSave_connections (m_saveTimer st')
           = S (slotSave_connections (m_saveTimer freshState)) ∧
         m_rootItem st' = m_rootItem freshState.
Proof.
  apply (load_registers_default_model_on_failure samplePlatform freshState).
  - reflexivity.
  - reflexivity.
Defined.

(** ** sortItems *)

Lemma folderAddresses_cons (x : BookmarkItemBase) (l : list BookmarkItemBase) :
  folderAddresses (x :: l) =
    (if isFolderItem x then [this x] else []) ++ folderAddresses l.
Proof.
  unfold folderAddresses. destruct (isFolderItem x) eqn:Hx.
  - by rewrite filter_cons_True.
  - rewrite filter_cons_False; [done|]. by rewrite Hx.
Qed.

Local Instance folderAddresses_Permutation :
  Proper ((≡ₚ) ==> (≡ₚ)) folderAddresses.
Proof. intros l1 l2 H. unfold folderAddresses. by rewrite H. Qed.

(** The loop over [items] comes to every item of the trees it starts from:
    [parents] receives the folders among them. *)
Lemma collectFolders_all (turns : nat) (pending : list BookmarkItemBase) :
  (length (mjoin (subitems <$> pending)) ≤ turns)%nat →
  collectFolders turns pending ≡ₚ folderAddresses (mjoin (subitems <$> pending)).
Proof.
  revert pending. induction turns as [|turns IH]; intros pending Hlen.
  - destruct pending as [|x rest]; [done|]. csimpl in Hlen.
    rewrite subitems_unfold in Hlen. simpl in Hlen. lia.
  - destruct pending as [|x rest]; [done|]. csimpl. csimpl in Hlen.
    rewrite subitems_unfold in Hlen |- *. simpl in Hlen.
    rewrite <- app_comm_cons, folderAddresses_cons.
    apply Permutation_app_head. rewrite IH.
    + rewrite fmap_app, join_app. apply folderAddresses_Permutation.
      apply Permutation_app_comm.
    + rewrite fmap_app, join_app. rewrite !length_app in *. lia.
Qed.

Lemma collectFolders_root (root : BookmarkItemBase) :
  collectFolders (length (addresses root)) [root]
    ≡ₚ folderAddresses (subitems root).
Proof.
  rewrite collectFolders_all; csimpl; rewrite app_nil_r; [done|].
  unfold addresses. by rewrite length_fmap.
Qed.

Lemma comparator_text (P : Platform) (order : SortOrder)
    (i1 i2 : BookmarkItemBase) :
  comparator P order i1 i2 = textBefore P order (m_text i1) (m_text i2).
Proof. by destruct order. Qed.

Lemma kidsView_this (x : BookmarkItemBase) :
  this <$> m_children x = fst <$> kidsView x.
Proof. unfold kidsView. by rewrite <- list_fmap_compose. Qed.

Lemma kidsView_text (x : BookmarkItemBase) :
  m_text <$> m_children x = snd <$> kidsView x.
Proof. unfold kidsView. by rewrite <- list_fmap_compose. Qed.

Section Sorting.
Context (P : Platform) (order : SortOrder).
Hypothesis contract : SortContract P.

Lemma sortChildren_reorders : Reorders (sortChildren P order).
Proof.
  intros y. exists (std_sort P (comparator P order) (m_children y)).
  split; [done|]. apply contract.
Qed.

Lemma kidsView_sortChildren (y : BookmarkItemBase) :
  kidsView (sortChildren P order y) ≡ₚ kidsView y ∧
  Sorted (textOrder P order) (snd <$> kidsView (sortChildren P order y)).
Proof.
  destruct (contract order (m_children y)) as [Hperm Hsorted].
  unfold kidsView, sortChildren. simpl. split; [by rewrite Hperm|].
  rewrite <- list_fmap_compose.
  apply (Sorted_fmap _ (inOrder P order)); [|done].
  intros i1 i2. unfold inOrder, notAfter, textOrder.
  by rewrite comparator_text.
Qed.

Lemma kidsView_updateItem (a : ptr) (y : BookmarkItemBase) :
  kidsView (updateItem a (sortChildren P order) y) =
    if decide (this y = a) then kidsView (sortChildren P order y)
    else kidsView y.
Proof.
  rewrite updateItem_unfold. destruct (decide _); [done|].
  unfold kidsView. simpl. rewrite <- list_fmap_compose.
  apply list_fmap_ext. intros _ c _. simpl.
  by rewrite (updateItem_this _ _ sortChildren_reorders),
             (updateItem_text _ _ sortChildren_reorders).
Qed.

Lemma sortFolder_rootItem (st : State) (parents : list ptr) :
  m_rootItem (foldl (sortFolder P order) st parents)
    = sortEach P order (m_rootItem st) parents.
Proof.
  revert st. induction parents as [|f ps IH]; intros st; [done|].
  simpl. rewrite IH. unfold sortFolder, needSave.
  destruct (decide _); [|done]. by destruct (isActive _).
Qed.

(** Every object is found again after the loop, with its type and its text.
    The children of an object in [parents] are the ones it had, in order;
    the children of another are the ones it had, as they were. *)
Lemma sortEach_effect (parents : list ptr) :
  ∀ r, NoDup (addresses r) → NoDup parents →
  ∀ b y, findItem b r = Some y →
    ∃ y', findItem b (sortEach P order r parents) = Some y' ∧
          derived y' = derived y ∧ m_text y' = m_text y ∧
          kidsView y' ≡ₚ kidsView y ∧
          (b ∈ parents → Sorted (textOrder P order) (snd <$> kidsView y')) ∧
          (b ∉ parents → kidsView y' = kidsView y).
Proof.
  induction parents as [|a ps IH]; intros r Hr Hps b y Hy.
  { exists y. repeat split; try done. intros Hin. by apply elem_of_nil in Hin. }
  apply NoDup_cons in Hps as [Ha Hps]. simpl.
  pose proof (findItem_updateItem a _ sortChildren_reorders b r y Hr Hy) as Hy1.
  assert (Hr1 : NoDup (addresses (updateItem a (sortChildren P order) r))).
  { by rewrite (addresses_updateItem a _ sortChildren_reorders r Hr). }
  destruct (IH _ Hr1 Hps b _ Hy1) as (y' & Hfind & Hd & Ht & Hperm & Hin & Hout).
  apply findItem_Some in Hy as [_ Hthis].
  exists y'. split; [done|].
  rewrite (updateItem_derived _ _ sortChildren_reorders) in Hd.
  rewrite (updateItem_text _ _ sortChildren_reorders) in Ht.
  rewrite kidsView_updateItem, Hthis in Hperm, Hout.
  destruct (kidsView_sortChildren y) as [Hsp Hss].
  split; [done|]. split; [done|].
  destruct (decide (b = a)) as [->|Hne].
  - split; [by rewrite Hperm|]. split.
    + intros _. by rewrite (Hout Ha).
    + intros Hnot. destruct Hnot. left.
  - split; [done|]. split.
    + intros [?|?]%elem_of_cons; [done|by apply Hin].
    + intros Hnot. apply Hout. intros ?. apply Hnot. by right.
Qed.

End Sorting.

Lemma sortEach_within (P : Platform) (order : SortOrder) (st st' : State)
    (parents : list ptr) :
  SortContract P →
  NoDup (addresses (m_rootItem st)) →
  NoDup parents →
  m_rootItem st' = sortEach P order (m_rootItem st) parents →
  SortedWithin P order st st' (λ a, a ∈ parents).
Proof.
  intros Hc Hr Hps Hroot a x Hx. unfold deref in *. rewrite Hroot.
  destruct (sortEach_effect P order Hc parents _ Hr Hps a x Hx)
    as (x' & Hfind & Hd & Ht & Hperm & Hin & Hout).
  exists x'. split; [done|]. split; [done|]. split; [done|].
  rewrite !kidsView_this, kidsView_text. split; [by rewrite Hperm|].
  split; [done|]. intros Hnot. by rewrite (Hout Hnot).
Qed.

(** C8.  Let the items of the tree be distinct objects, [std::sort] keep
    its promise, and [parent] stand for a folder.  When that folder is the
    root, [sortItems] puts the children of every folder of the tree, at
    every depth, in the order asked for, and leaves the children of the
    other items as they were; when it is another folder, [sortItems] does so
    for that folder and leaves the children of all other items as they
    were. *)
Theorem sortItems_sorts_folders (P : Platform) (st : State)
    (parent : QModelIndex) (order : SortOrder) (F : BookmarkItemBase) :
  SortContract P →
  NoDup (addresses (m_rootItem st)) →
  deref st (item st parent) = Some F →
  isFolderItem F = true →
  ∃ st', sortItems P st parent order = Some st' ∧
    if decide (item st parent = this (m_rootItem st)) then
      SortedWithin P order st st'
        (λ a, ∃ x, deref st a = Some x ∧ isFolderItem x = true)
    else
      SortedWithin P order st st' (λ a, a = item st parent).
Proof.
  intros Hc Hr HF Hfolder. unfold sortItems. rewrite HF. simpl. rewrite Hfolder.
  eexists. split; [reflexivity|].
  pose proof (findItem_Some _ _ _ HF) as [HFsub HFthis].
  destruct (decide (item st parent = this (m_rootItem st))) as [Heq|Hne].
  - rewrite decide_True by congruence.
    assert (F = m_rootItem st) as ->.
    { unfold deref in HF. rewrite Heq, findItem_here in HF. congruence. }
    pose proof (collectFolders_root (m_rootItem st)) as Hparents.
    assert (Hnd : NoDup (collectFolders (length (addresses (m_rootItem st)))
                           [m_rootItem st])).
    { rewrite Hparents. unfold folderAddresses.
      apply (sublist_NoDup _ (addresses (m_rootItem st))); [done|].
      unfold addresses. apply fmap_sublist, sublist_filter. }
    pose proof (sortEach_within P order st _ _ Hc Hr Hnd
                  (sortFolder_rootItem P order st _)) as Hsorted.
    intros a x Hx. destruct (Hsorted a x Hx) as (x' & ? & ? & ? & ? & Hin & Hout).
    exists x'. repeat (split; [done|]).
    pose proof (findItem_Some _ _ _ Hx) as [Hxsub Hxthis].
    split.
    + intros (x0 & Hx0 & Hfx). apply Hin. rewrite Hparents.
      assert (x0 = x) as -> by (unfold deref in *; congruence).
      rewrite <- Hxthis. unfold folderAddresses.
      apply list_elem_of_fmap_2. by apply list_elem_of_filter.
    + intros Hnot. apply Hout. rewrite Hparents. intros Hin'.
      apply Hnot. exists x. split; [done|].
      unfold folderAddresses in Hin'.
      apply list_elem_of_fmap in Hin' as (z & Hz & [Hfz Hzsub]%list_elem_of_filter).
      pose proof (findItem_subitem _ z Hr Hzsub) as Hfind.
      rewrite <- Hz in Hfind. unfold deref in Hx. congruence.
  - rewrite decide_False by congruence.
    assert (Hnd : NoDup [this F]) by (apply NoDup_singleton).
    pose proof (sortEach_within P order st _ _ Hc Hr Hnd
                  (sortFolder_rootItem P order st _)) as Hsorted.
    intros a x Hx. destruct (Hsorted a x Hx) as (x' & ? & ? & ? & ? & Hin & Hout).
    exists x'. repeat (split; [done|]). split.
    + intros ->. apply Hin. rewrite HFthis. left.
    + intros Hnot. apply Hout. intros ->%list_elem_of_singleton. congruence.
Qed.

(** The platform of the examples keeps the promise of [std::sort]. *)
Lemma compareStrings_opposite (a b : string) :
  (compareStrings a b < 0)%Z → ¬ (compareStrings b a < 0)%Z.
Proof.
  unfold compareStrings. rewrite (String.compare_antisym a b).
  destruct (String.compare b a); simpl; lia.
Qed.

Lemma compareStrings_opposite_gt (a b : string) :
  (compareStrings a b > 0)%Z → ¬ (compareStrings b a > 0)%Z.
Proof.
  unfold compareStrings. rewrite (String.compare_antisym a b).
  destruct (String.compare b a); simpl; lia.
Qed.

Lemma samplePlatform_contract : SortContract samplePlatform.
Proof.
  intros order l. simpl. split; [apply merge_sort_Permutation|].
  assert (Htotal : Total (notAfter (comparator samplePlatform order))).
  2:{ unfold inOrder. apply Sorted_merge_sort. apply _. }
  intros i1 i2. unfold notAfter, comparator, BtBookmarksModelSortAscending,
    BtBookmarksModelSortDescending. simpl.
  destruct order.
  - destruct (decide (compareStrings (m_text i2) (m_text i1) < 0)%Z) as [H|H].
    + right. apply bool_decide_eq_false_2. by apply compareStrings_opposite.
    + left. by apply bool_decide_eq_false_2.
  - destruct (decide (compareStrings (m_text i2) (m_text i1) > 0)%Z) as [H|H].
    + right. apply bool_decide_eq_false_2. by apply compareStrings_opposite_gt.
    + left. by apply bool_decide_eq_false_2.
Qed.

(** The theorem at work: the whole tree of [favoritesState] is sorted in
    descending order. *)
Lemma sortItems_sorts_folders_witness :
  ∃ st', sortItems samplePlatform favoritesState InvalidIndex DescendingOrder
           = Some st' ∧
    SortedWithin samplePlatform DescendingOrder favoritesState st'
      (λ a, ∃ x, deref favoritesState a = Some x ∧ isFolderItem x = true).
Proof.
  apply (sortItems_sorts_folders samplePlatform favoritesState InvalidIndex
           DescendingOrder favoritesRoot).
  - apply samplePlatform_contract.
  - by_computation.
  - vm_compute. reflexivity.
  - reflexivity.
Defined.

(** Sorted from the root in descending order, [favoritesState] has [Other]
    before [Favorites]. *)
Example sortItems_favorites :
  (λ st, content <$> m_children (m_rootItem st))
    <$> sortItems samplePlatform favoritesState InvalidIndex DescendingOrder =
  Some [FolderContent "Other" [];
        FolderContent "Favorites"
          [BookmarkContent "John 3:16" "" "KJV" "Key Verse" []]].
Proof. vm_compute. reflexivity. Qed.

(** ** A change at one object *)

Lemma findItem_None_absent (a : ptr) (x : BookmarkItemBase) :
  NoDup (addresses x) → findItem a x = None → a ∉ addresses x.
Proof.
  intros Hnd Hnone Hin. apply list_elem_of_fmap in Hin as (y & -> & Hy).
  by rewrite (findItem_subitem x y Hnd Hy) in Hnone.
Qed.

Lemma updateItem_absent_all (a : ptr) (f : BookmarkItemBase → BookmarkItemBase)
    (l : list BookmarkItemBase) :
  a ∉ mjoin (addresses <$> l) →
  updateItem a f <$> l = l ∧
  updateItem a f <$> mjoin (subitems <$> l) = mjoin (subitems <$> l).
Proof.
  intros Hout. split.
  - induction l as [|c l IH]; [done|]. csimpl in *.
    rewrite not_elem_of_app in Hout. destruct Hout as [Hc Hl].
    by rewrite (updateItem_absent a f c Hc), (IH Hl).
  - assert (Hid : Forall (λ y, updateItem a f y = y) (mjoin (subitems <$> l))).
    { apply Forall_forall. intros y Hy. apply updateItem_absent.
      intros Ha. apply Hout.
      apply list_elem_of_join in Hy as (s & Hy & Hs).
      apply list_elem_of_fmap in Hs as (c & -> & Hc).
      apply list_elem_of_join. exists (addresses c).
      split; [|by apply list_elem_of_fmap_2].
      by apply (addresses_subitem c y). }
    induction Hid as [|y k Hy _ IHk]; [done|]. csimpl. by rewrite Hy, IHk.
Qed.

(** The objects of a tree are those of the object a pointer finds and the
    others; after a change at that object they are the objects the change
    gives and the others, of which those above have the changed object
    below them. *)
Lemma subitems_updateItem_at (a : ptr) (f : BookmarkItemBase → BookmarkItemBase)
    (r : BookmarkItemBase) :
  ∀ x, NoDup (addresses r) → findItem a r = Some x →
  ∃ others,
    subitems r ≡ₚ subitems x ++ others ∧
    subitems (updateItem a f r) ≡ₚ subitems (f x) ++ (updateItem a f <$> others).
Proof.
  induction r as [b d kids fl i p t tip IH] using BookmarkItemBase_ind.
  intros x Hnd Hx.
  rewrite findItem_unfold in Hx. rewrite updateItem_unfold. simpl in *.
  destruct (decide (b = a)) as [->|Hne].
  { injection Hx as <-. exists []. by rewrite !app_nil_r. }
  pose proof (NoDup_addresses_inv _ Hnd) as [_ Hkids]. simpl in Hkids.
  rewrite (subitems_unfold (Item _ _ _ _ _ _ _ _)),
          (subitems_unfold (setChildren _ _)). simpl.
  assert (∃ others,
            mjoin (subitems <$> kids) ≡ₚ subitems x ++ others ∧
            mjoin (subitems <$> map (updateItem a f) kids)
              ≡ₚ subitems (f x) ++ (updateItem a f <$> others))
    as (others & H1 & H2).
  { clear Hnd. induction kids as [|c kids IHk]; [done|].
    apply Forall_cons in IH as [IHc IHkids]. csimpl in *.
    apply NoDup_app in Hkids as (Hc & Hdisj & Hrest).
    destruct (findItem a c) as [y|] eqn:Hy.
    - injection Hx as ->. destruct (IHc x Hc eq_refl) as (o & Ho1 & Ho2).
      exists (o ++ mjoin (subitems <$> kids)).
      assert (Hout : a ∉ mjoin (addresses <$> kids)).
      { apply Hdisj. apply findItem_Some in Hy as [Hsub <-].
        by apply list_elem_of_fmap_2. }
      destruct (updateItem_absent_all a f kids Hout) as [Hk1 Hk2].
      change (map (updateItem a f) kids) with (updateItem a f <$> kids).
      rewrite Hk1, fmap_app, Hk2, Ho1, Ho2. by rewrite !(assoc_L (++)).
    - assert (Hout : a ∉ addresses c) by by apply findItem_None_absent.
      rewrite (updateItem_absent a f c Hout).
      destruct (IHk IHkids Hx Hrest) as (o & Ho1 & Ho2).
      exists (subitems c ++ o). split.
      + rewrite Ho1. by rewrite !(assoc_L (++)), (comm (++) (subitems c)).
      + rewrite Ho2, fmap_app.
        destruct (updateItem_absent_all a f [c]) as [_ Hc2].
        { csimpl. by rewrite app_nil_r. }
        csimpl in Hc2. rewrite app_nil_r in Hc2. rewrite Hc2.
        by rewrite !(assoc_L (++)), (comm (++) (subitems c)). }
  exists (Item b d kids fl i p t tip :: others). split.
  - rewrite H1. apply Permutation_middle.
  - csimpl. rewrite (updateItem_unfold a f (Item _ _ _ _ _ _ _ _)). simpl.
    rewrite decide_False by done. rewrite H2. apply Permutation_middle.
Qed.

(** The same of the addresses: those of the others stay. *)
Lemma addresses_updateItem_at (a : ptr) (f : BookmarkItemBase → BookmarkItemBase)
    (r x : BookmarkItemBase) :
  NoDup (addresses r) → findItem a r = Some x →
  ∃ rest,
    addresses r ≡ₚ addresses x ++ rest ∧
    addresses (updateItem a f r) ≡ₚ addresses (f x) ++ rest.
Proof.
  intros Hnd Hx.
  destruct (subitems_updateItem_at a f r x Hnd Hx) as (others & H1 & H2).
  exists (this <$> others). unfold addresses. split.
  - by rewrite H1, fmap_app.
  - rewrite H2, fmap_app. f_equiv. rewrite <- list_fmap_compose.
    apply Permutation_refl'. apply list_fmap_ext. intros _ o Ho%list_elem_of_lookup_2.
    simpl. rewrite updateItem_unfold. destruct (decide (this o = a)) as [Ha|]; [|done].
    exfalso. unfold addresses in Hnd. rewrite H1, fmap_app in Hnd.
    apply NoDup_app in Hnd as (_ & Hdisj & _). apply (Hdisj a).
    + apply findItem_Some in Hx as [_ <-]. apply list_elem_of_fmap_2, subitems_here.
    + rewrite <- Ha. by apply list_elem_of_fmap_2.
Qed.

(** The objects stay distinct when those the change gives are distinct and
    none of them is an object of the tree elsewhere. *)
Lemma NoDup_updateItem (a : ptr) (f : BookmarkItemBase → BookmarkItemBase)
    (r x : BookmarkItemBase) :
  NoDup (addresses r) → findItem a r = Some x →
  NoDup (addresses (f x)) →
  (∀ b, b ∈ addresses (f x) → b ∈ addresses x ∨ b ∉ addresses r) →
  NoDup (addresses (updateItem a f r)).
Proof.
  intros Hnd Hx Hfx Hnew.
  destruct (addresses_updateItem_at a f r x Hnd Hx) as (rest & H1 & H2).
  rewrite H2. rewrite H1 in Hnd. apply NoDup_app in Hnd as (_ & Hdisj & Hrest).
  apply NoDup_app. split; [done|]. split; [|done].
  intros b Hb Hr. destruct (Hnew b Hb) as [Hin|Hout].
  - by apply (Hdisj b).
  - apply Hout. rewrite H1. apply elem_of_app. by right.
Qed.

(** What a pointer finds after the change: an object the change gave, and
    an object from elsewhere with the change below it. *)
Lemma findItem_updateItem_inside (a : ptr)
    (f : BookmarkItemBase → BookmarkItemBase) (r x z : BookmarkItemBase) :
  NoDup (addresses r) → findItem a r = Some x →
  NoDup (addresses (updateItem a f r)) →
  z ∈ subitems (f x) →
  findItem (this z) (updateItem a f r) = Some z.
Proof.
  intros Hnd Hx Hnd' Hz. apply findItem_subitem; [done|].
  destruct (subitems_updateItem_at a f r x Hnd Hx) as (others & _ & H2).
  rewrite H2. apply elem_of_app. by left.
Qed.

Lemma findItem_updateItem_outside (a b : ptr)
    (f : BookmarkItemBase → BookmarkItemBase) (r x y : BookmarkItemBase) :
  NoDup (addresses r) → findItem a r = Some x →
  NoDup (addresses (updateItem a f r)) →
  findItem b r = Some y → b ∉ addresses x →
  findItem b (updateItem a f r) = Some (updateItem a f y).
Proof.
  intros Hnd Hx Hnd' Hy Hout.
  destruct (subitems_updateItem_at a f r x Hnd Hx) as (others & H1 & H2).
  apply findItem_Some in Hy as [Hy <-].
  assert (Hne : this y ≠ a).
  { intros Ha. apply Hout. apply findItem_Some in Hx as [_ <-].
    rewrite Ha. apply list_elem_of_fmap_2, subitems_here. }
  assert (Hthis : this (updateItem a f y) = this y).
  { rewrite updateItem_unfold. by rewrite decide_False. }
  rewrite <- Hthis. apply findItem_subitem; [done|].
  rewrite H2. apply elem_of_app. right. apply list_elem_of_fmap_2.
  rewrite H1 in Hy. apply elem_of_app in Hy as [Hy|Hy]; [|done].
  exfalso. apply Hout. by apply list_elem_of_fmap_2.
Qed.

(** Two changes at the same object are one. *)
Lemma updateItem_twice (a : ptr) (f g : BookmarkItemBase → BookmarkItemBase)
    (r : BookmarkItemBase) :
  (∀ y, this (f y) = this y) →
  updateItem a g (updateItem a f r) = updateItem a (g ∘ f) r.
Proof.
  intros Hf. induction r as [b d kids fl i p t tip IH] using BookmarkItemBase_ind.
  rewrite (updateItem_unfold a f), (updateItem_unfold a (g ∘ f)). simpl.
  destruct (decide (b = a)) as [->|Hne].
  - rewrite updateItem_unfold. by rewrite decide_True by by rewrite Hf.
  - rewrite updateItem_unfold. simpl. rewrite decide_False by done.
    unfold setChildren. simpl. f_equal. rewrite map_map.
    apply list_fmap_ext. intros _ c Hc%list_elem_of_lookup_2.
    rewrite Forall_forall in IH. by apply IH.
Qed.

(** A change that gives the object back leaves the tree. *)
Lemma updateItem_same (a : ptr) (f : BookmarkItemBase → BookmarkItemBase)
    (r x : BookmarkItemBase) :
  NoDup (addresses r) → findItem a r = Some x → f x = x →
  updateItem a f r = r.
Proof.
  intros Hnd Hx Hf.
  rewrite (updateItem_ext a f id r x Hnd Hx Hf).
  clear. induction r as [b d kids fl i p t tip IH] using BookmarkItemBase_ind.
  rewrite updateItem_unfold. simpl. destruct (decide (b = a)); [done|].
  unfold setChildren. simpl. f_equal.
  induction IH as [|c l Hc _ IHl]; [done|]. simpl. by rewrite Hc, IHl.
Qed.

(** ** Trees of objects *)

Local Arguments parentsAgree : simpl never.

Lemma parentsAgree_Forall (x : BookmarkItemBase) :
  parentsAgree x = true ↔
  Forall (λ c, m_parent c = Some (this x) ∧ parentsAgree c = true) (m_children x).
Proof.
  destruct x as [a d kids fl i p t tip]. unfold parentsAgree; fold parentsAgree.
  simpl. rewrite forallb_forall, Forall_forall.
  split; intros H c Hc.
  - apply list_elem_of_In in Hc. specialize (H c Hc).
    apply andb_true_iff in H as [H1 H2].
    split; [by apply bool_decide_eq_true in H1|done].
  - apply list_elem_of_In in Hc. destruct (H c Hc) as [H1 H2].
    by rewrite bool_decide_eq_true_2, H2.
Qed.

Lemma parentsAgree_subitem (r x : BookmarkItemBase) :
  parentsAgree r = true → x ∈ subitems r → parentsAgree x = true.
Proof.
  induction r as [b d kids fl i p t tip IH] using BookmarkItemBase_ind.
  intros Hr Hx. apply subitems_cases in Hx as [->|(c & Hc & Hx)]; [done|].
  simpl in Hc. apply parentsAgree_Forall in Hr. simpl in Hr.
  rewrite Forall_forall in IH, Hr. apply (IH c Hc); [|done]. by apply Hr.
Qed.

Lemma NoDup_addresses_subitem (r x : BookmarkItemBase) :
  NoDup (addresses r) → x ∈ subitems r → NoDup (addresses x).
Proof.
  induction r as [b d kids fl i p t tip IH] using BookmarkItemBase_ind.
  intros Hr Hx. apply subitems_cases in Hx as [->|(c & Hc & Hx)]; [done|].
  simpl in Hc. rewrite Forall_forall in IH. apply (IH c Hc); [|done].
  by apply (NoDup_addresses_child (Item b d kids fl i p t tip)).
Qed.

(** The one child that has the address below it finds what the parent
    finds. *)
Lemma findItem_child (a : ptr) (r c x : BookmarkItemBase) :
  NoDup (addresses r) → c ∈ m_children r → findItem a r = Some x →
  a ∈ addresses c → findItem a c = Some x.
Proof.
  intros Hnd Hc Hx Hin.
  apply list_elem_of_fmap in Hin as (z & -> & Hz).
  pose proof (findItem_subitem _ z Hnd (subitems_child r c z Hc Hz)) as Hzr.
  assert (z = x) as -> by congruence.
  apply findItem_subitem; [|done]. by apply (NoDup_addresses_child r).
Qed.

Lemma updateItem_keeps (a : ptr) (f : BookmarkItemBase → BookmarkItemBase)
    (r x : BookmarkItemBase) :
  findItem a r = Some x →
  this (f x) = this x → m_parent (f x) = m_parent x →
  this (updateItem a f r) = this r ∧ m_parent (updateItem a f r) = m_parent r.
Proof.
  intros Hx Hthis Hparent. rewrite updateItem_unfold.
  rewrite findItem_unfold in Hx.
  destruct (decide (this r = a)); [|done]. by injection Hx as <-.
Qed.

Lemma parentsAgree_updateItem (a : ptr) (f : BookmarkItemBase → BookmarkItemBase)
    (r : BookmarkItemBase) :
  ∀ x, NoDup (addresses r) → findItem a r = Some x →
  this (f x) = this x → m_parent (f x) = m_parent x →
  parentsAgree (f x) = true →
  parentsAgree r = true → parentsAgree (updateItem a f r) = true.
Proof.
  induction r as [b d kids fl i p t tip IH] using BookmarkItemBase_ind.
  intros x Hnd Hx Hthis Hparent Hfx Hr.
  rewrite updateItem_unfold. pose proof Hx as Hx'.
  rewrite findItem_unfold in Hx'. simpl in *.
  destruct (decide (b = a)) as [->|Hne]; [by injection Hx' as <-|].
  apply parentsAgree_Forall. apply parentsAgree_Forall in Hr. simpl in *.
  change (map (updateItem a f) kids) with (updateItem a f <$> kids).
  apply Forall_fmap. rewrite Forall_forall in IH, Hr |- *.
  intros c Hc. simpl. destruct (Hr c Hc) as [Hp Hagree].
  destruct (decide (a ∈ addresses c)) as [Hin|Hout].
  - pose proof (findItem_child a _ c x Hnd Hc Hx Hin) as Hxc.
    destruct (updateItem_keeps a f c x Hxc Hthis Hparent) as [_ ->].
    split; [done|]. apply (IH c Hc x); try done.
    by apply (NoDup_addresses_child (Item b d kids fl i p t tip)).
  - by rewrite updateItem_absent.
Qed.

(** A change at an object of a tree of objects gives a tree of objects,
    when it gives the object with its address and its parent, distinct
    objects below it that are its own or new, and their parents. *)
Lemma WellFormed_updateItem (next next' : ptr) (a : ptr)
    (f : BookmarkItemBase → BookmarkItemBase) (r x : BookmarkItemBase) :
  WellFormed next r → (next ≤ next')%nat → findItem a r = Some x →
  this (f x) = this x → m_parent (f x) = m_parent x →
  NoDup (addresses (f x)) →
  Forall (λ b, b ∈ addresses x ∨ (next ≤ b < next')%nat) (addresses (f x)) →
  parentsAgree (f x) = true →
  WellFormed next' (updateItem a f r).
Proof.
  intros [Hnd Halloc Hagree] Hle Hx Hthis Hparent Hndf Hnew Hfx.
  rewrite Forall_forall in Halloc, Hnew. split.
  - apply (NoDup_updateItem a f r x); try done.
    intros b Hb. destruct (Hnew b Hb) as [Hin|Hfresh]; [by left|].
    right. intros Hr. specialize (Halloc b Hr). lia.
  - destruct (addresses_updateItem_at a f r x Hnd Hx) as (rest & H1 & H2).
    rewrite H2. apply Forall_app. split; apply Forall_forall; intros b Hb.
    + destruct (Hnew b Hb) as [Hin|Hfresh]; [|lia].
      assert (b < next); [|lia]. apply Halloc. rewrite H1.
      apply elem_of_app. by left.
    + assert (b < next); [|lia]. apply Halloc. rewrite H1.
      apply elem_of_app. by right.
  - by apply (parentsAgree_updateItem a f r x).
Qed.

(** *** What the changes of the model give *)

Lemma addresses_setParent (p : option ptr) (c : BookmarkItemBase) :
  addresses (setParent p c) = addresses c.
Proof. by rewrite !addresses_unfold. Qed.

Lemma parentsAgree_setParent (p : option ptr) (c : BookmarkItemBase) :
  parentsAgree (setParent p c) = parentsAgree c.
Proof. by destruct c. Qed.

Lemma addresses_childInserted (index : Z) (c x : BookmarkItemBase) :
  addresses (childInserted index c x) ≡ₚ addresses x ++ addresses c.
Proof.
  rewrite (addresses_unfold (childInserted _ _ _)), (addresses_unfold x).
  simpl. apply Permutation_skip.
  rewrite <- (take_drop (Z.to_nat index) (m_children x)) at 3.
  rewrite <- (addresses_setParent (Some (this x)) c).
  generalize (setParent (Some (this x)) c). intros c'.
  rewrite !fmap_app, !join_app. csimpl.
  rewrite <- !(assoc_L (++)). f_equiv. apply Permutation_app_comm.
Qed.

Lemma parentsAgree_childInserted (index : Z) (c x : BookmarkItemBase) :
  parentsAgree x = true → parentsAgree c = true →
  parentsAgree (childInserted index c x) = true.
Proof.
  rewrite !parentsAgree_Forall. intros Hx Hc. simpl.
  apply Forall_app. split; [by apply Forall_take|].
  apply Forall_cons. split; [|by apply Forall_drop].
  split; [done|]. rewrite parentsAgree_setParent. by apply parentsAgree_Forall.
Qed.

Lemma childrenInserted_keeps (l : list BookmarkItemBase) :
  ∀ index x,
    this (childrenInserted index l x) = this x ∧
    m_parent (childrenInserted index l x) = m_parent x ∧
    derived (childrenInserted index l x) = derived x ∧
    m_text (childrenInserted index l x) = m_text x.
Proof.
  induction l as [|c l IH]; intros index x; [done|]. simpl.
  destruct (IH (index + 1)%Z (childInserted index c x)) as (-> & -> & -> & ->).
  done.
Qed.

Lemma addresses_childrenInserted (l : list BookmarkItemBase) :
  ∀ index x,
    addresses (childrenInserted index l x) ≡ₚ addresses x ++ mjoin (addresses <$> l).
Proof.
  induction l as [|c l IH]; intros index x; simpl.
  - by rewrite app_nil_r.
  - rewrite IH, addresses_childInserted. csimpl. by rewrite (assoc_L (++)).
Qed.

Lemma parentsAgree_childrenInserted (l : list BookmarkItemBase) :
  ∀ index x,
    parentsAgree x = true → Forall (λ y, parentsAgree y = true) l →
    parentsAgree (childrenInserted index l x) = true.
Proof.
  induction l as [|c l IH]; intros index x Hx Hl; [done|].
  apply Forall_cons in Hl as [Hc Hl]. simpl.
  apply IH; [|done]. by apply parentsAgree_childInserted.
Qed.

(** New items put below an object of a tree of objects. *)
Lemma WellFormed_childrenInserted (next next' : ptr) (a : ptr) (index : Z)
    (l : list BookmarkItemBase) (r x : BookmarkItemBase) :
  WellFormed next r → (next ≤ next')%nat → findItem a r = Some x →
  NewItems next next' l →
  WellFormed next' (updateItem a (childrenInserted index l) r).
Proof.
  intros Hr Hle Hx [Hnd Halloc Hagree].
  destruct (childrenInserted_keeps l index x) as (Hthis & Hparent & _).
  pose proof (findItem_Some a r x Hx) as [Hsub _].
  apply (WellFormed_updateItem next next' a _ r x); try done.
  - rewrite addresses_childrenInserted. apply NoDup_app. split; [|split; [|done]].
    + apply (NoDup_addresses_subitem r); [apply Hr|done].
    + intros b Hb Hl. rewrite Forall_forall in Halloc. specialize (Halloc b Hl).
      destruct Hr as [_ Hr _]. rewrite Forall_forall in Hr.
      assert (b < next); [|lia]. apply Hr. by apply (addresses_subitem r x).
  - rewrite addresses_childrenInserted. apply Forall_app. split.
    + apply Forall_forall. intros b Hb. by left.
    + eapply Forall_impl; [exact Halloc|]. intros b Hb. by right.
  - apply parentsAgree_childrenInserted; [|done].
    apply (parentsAgree_subitem r); [apply Hr|done].
Qed.

(** *** New items *)

Lemma WellFormed_later (next next' : ptr) (r : BookmarkItemBase) :
  WellFormed next r → (next ≤ next')%nat → WellFormed next' r.
Proof.
  intros [Hnd Halloc Hagree] Hle. split; [done| |done].
  eapply Forall_impl; [exact Halloc|]. intros b Hb. simpl in *. lia.
Qed.

Lemma NewItems_nil (next next' : ptr) : NewItems next next' [].
Proof. split; csimpl; by constructor. Qed.

Lemma NewItems_app (n0 n1 n2 : ptr) (l1 l2 : list BookmarkItemBase) :
  (n0 ≤ n1)%nat → (n1 ≤ n2)%nat →
  NewItems n0 n1 l1 → NewItems n1 n2 l2 → NewItems n0 n2 (l1 ++ l2).
Proof.
  intros H01 H12 [Hnd1 Ha1 Hp1] [Hnd2 Ha2 Hp2].
  rewrite Forall_forall in Ha1, Ha2. split.
  - rewrite fmap_app, join_app. apply NoDup_app. split; [done|]. split; [|done].
    intros b Hb1 Hb2. specialize (Ha1 b Hb1). specialize (Ha2 b Hb2).
    simpl in *. lia.
  - rewrite fmap_app, join_app. apply Forall_app.
    split; apply Forall_forall; intros b Hb.
    + specialize (Ha1 b Hb). simpl in *. lia.
    + specialize (Ha2 b Hb). simpl in *. lia.
  - by apply Forall_app.
Qed.

(** A new object at [a] above new items made after it. *)
Lemma NewItems_node (a next' : ptr) (y : BookmarkItemBase) :
  this y = a → (a < next')%nat →
  NewItems (S a) next' (m_children y) →
  Forall (λ c, m_parent c = Some a) (m_children y) →
  NewItems a next' [y].
Proof.
  intros Hthis Hlt [Hnd Halloc Hagree] Hparents.
  rewrite Forall_forall in Halloc. split; csimpl; rewrite ?app_nil_r.
  - rewrite addresses_unfold, Hthis. apply NoDup_cons. split; [|done].
    intros Ha. specialize (Halloc a Ha). simpl in *. lia.
  - rewrite addresses_unfold, Hthis. apply Forall_cons. split; [lia|].
    apply Forall_forall. intros b Hb. specialize (Halloc b Hb). simpl in *. lia.
  - apply Forall_cons. split; [|done]. apply parentsAgree_Forall.
    rewrite Hthis. rewrite Forall_forall in Hagree, Hparents |- *.
    intros c Hc. split; [by apply Hparents|by apply Hagree].
Qed.

Lemma NewItems_leaf (a : ptr) (y : BookmarkItemBase) :
  this y = a → m_children y = [] → NewItems a (S a) [y].
Proof.
  intros Hthis Hkids. apply NewItems_node; [done|lia| |]; rewrite Hkids.
  - apply NewItems_nil.
  - constructor.
Qed.

(** The setters of a bookmark leave address, parent and children. *)
Lemma withAttribute_keeps (value : option string)
    (set : string → BookmarkItemBase → BookmarkItemBase) (x : BookmarkItemBase) :
  (∀ v y, this (set v y) = this y ∧ m_parent (set v y) = m_parent y
          ∧ m_children (set v y) = m_children y) →
  this (withAttribute value set x) = this x
  ∧ m_parent (withAttribute value set x) = m_parent x
  ∧ m_children (withAttribute value set x) = m_children x.
Proof. intros Hset. destruct value as [v|]; [apply Hset|done]. Qed.

Lemma setKey_keeps (v : string) (y : BookmarkItemBase) :
  this (setKey v y) = this y ∧ m_parent (setKey v y) = m_parent y
  ∧ m_children (setKey v y) = m_children y.
Proof. unfold setKey. by destruct (derived y). Qed.

Lemma setDescription_keeps (v : string) (y : BookmarkItemBase) :
  this (setDescription v y) = this y
  ∧ m_parent (setDescription v y) = m_parent y
  ∧ m_children (setDescription v y) = m_children y.
Proof. unfold setDescription. by destruct (derived y). Qed.

Lemma setModule_keeps (v : string) (y : BookmarkItemBase) :
  this (setModule v y) = this y ∧ m_parent (setModule v y) = m_parent y
  ∧ m_children (setModule v y) = m_children y.
Proof. unfold setModule. by destruct (derived y). Qed.

(** The items [handleXmlElement] and the loops over it make are new, and
    have the parent they were made with. *)
Lemma handleChildNodes_new_from (P : Platform) (l : list QDomNode) :
  Forall (λ e, ∀ parent next i next',
            handleXmlElement P e parent next = (i, next') →
            (next ≤ next')%nat ∧ NewItems next next' (option_list i)
            ∧ Forall (λ y, m_parent y = parent) (option_list i)) l →
  ∀ parent next items next',
    handleChildNodes P l parent next = (items, next') →
    (next ≤ next')%nat ∧ NewItems next next' items
    ∧ Forall (λ y, m_parent y = parent) items.
Proof.
  induction 1 as [|e l He _ IH]; intros parent next items next' Hrun; simpl in Hrun.
  - injection Hrun as <- <-. split; [done|]. split; [apply NewItems_nil|constructor].
  - destruct (handleXmlElement P e parent next) as [i n1] eqn:Hi.
    destruct (handleChildNodes P l parent n1) as [rest n2] eqn:Hrest.
    injection Hrun as <- <-.
    destruct (He _ _ _ _ Hi) as (H1 & H2 & H3).
    destruct (IH _ _ _ _ Hrest) as (H4 & H5 & H6).
    split; [lia|]. split; [by apply (NewItems_app next n1 n2)|by apply Forall_app].
Qed.

Lemma handleXmlElement_new (P : Platform) (e : QDomNode) :
  ∀ parent next i next',
    handleXmlElement P e parent next = (i, next') →
    (next ≤ next')%nat ∧ NewItems next next' (option_list i)
    ∧ Forall (λ y, m_parent y = parent) (option_list i).
Proof.
  induction e as [tag attrs kids IH|d|d|t d] using QDomNode_ind;
    intros parent next i next' Hrun.
  2,3,4: injection Hrun as <- <-; split; [done|];
         split; [apply NewItems_nil|constructor].
  destruct (decide (tag = "Folder")) as [->|Hfolder].
  { rewrite handleXmlElement_folder in Hrun. simpl in Hrun.
    destruct (handleChildNodes P kids (Some next) (S next)) as [items n2] eqn:Hitems.
    injection Hrun as <- <-.
    destruct (handleChildNodes_new_from P kids IH _ _ _ _ Hitems) as (H1 & H2 & H3).
    split; [lia|]. split.
    - apply NewItems_node; simpl; [by destruct (attrs !! "caption")|lia|done|done].
    - constructor; [|constructor]. simpl. by destruct (attrs !! "caption"). }
  destruct (decide (tag = "Bookmark")) as [->|Hbookmark].
  { rewrite handleXmlElement_bookmark in Hrun. injection Hrun as <- <-.
    set (b := BookmarkItem_new P next parent).
    assert (Hb : ∀ y, this y = this b ∧ m_parent y = m_parent b
                      ∧ m_children y = m_children b →
                 ∀ v set,
                   (∀ v y, this (set v y) = this y ∧ m_parent (set v y) = m_parent y
                           ∧ m_children (set v y) = m_children y) →
                   this (withAttribute v set y) = this b
                   ∧ m_parent (withAttribute v set y) = m_parent b
                   ∧ m_children (withAttribute v set y) = m_children b).
    { intros y (Y1 & Y2 & Y3) v set Hset.
      destruct (withAttribute_keeps v set y Hset) as (-> & -> & ->). done. }
    match goal with |- context [Some ?y] =>
      assert (this y = next ∧ m_parent y = parent ∧ m_children y = [])
        as (K1 & K2 & K3)
    end.
    { apply Hb; [|done]. apply Hb; [|apply setDescription_keeps].
      apply Hb; [|apply setKey_keeps]. apply Hb; [|apply setModule_keeps]. done. }
    split; [lia|]. split.
    - by apply NewItems_leaf.
    - by constructor. }
  simpl in Hrun. rewrite !decide_False in Hrun by done.
  injection Hrun as <- <-. split; [done|]. split; [apply NewItems_nil|constructor].
Qed.

Lemma handleChildNodes_new (P : Platform) (l : list QDomNode) :
  ∀ parent next items next',
    handleChildNodes P l parent next = (items, next') →
    (next ≤ next')%nat ∧ NewItems next next' items
    ∧ Forall (λ y, m_parent y = parent) items.
Proof.
  apply handleChildNodes_new_from. apply Forall_forall. intros e _.
  apply handleXmlElement_new.
Qed.

Lemma loadTree_loop_new (P : Platform) (l : list QDomNode) :
  ∀ next items next',
    loadTree_loop P l next = (items, next') →
    (next ≤ next')%nat ∧ NewItems next next' (mjoin (option_list <$> items)).
Proof.
  induction l as [|e l IH]; intros next items next' Hrun; simpl in Hrun.
  { injection Hrun as <- <-. split; [done|apply NewItems_nil]. }
  destruct (isElement e).
  - destruct (handleXmlElement P e None next) as [i n1] eqn:Hi.
    destruct (loadTree_loop P l n1) as [rest n2] eqn:Hrest.
    injection Hrun as <- <-.
    destruct (handleXmlElement_new P e _ _ _ _ Hi) as (H1 & H2 & _).
    destruct (IH _ _ _ Hrest) as (H4 & H5).
    split; [lia|]. csimpl. by apply (NewItems_app next n1 n2).
  - injection Hrun as <- <-. split; [done|apply NewItems_nil].
Qed.

Lemma loadTree_new (P : Platform) (fs : gmap string QFile) (fileName : string)
    (next : ptr) (items : list (option BookmarkItemBase)) (next' : ptr)
    (ys : list BookmarkItemBase) :
  loadTree P fs fileName next = (items, next') →
  mapM id items = Some ys →
  (next ≤ next')%nat ∧ NewItems next next' ys.
Proof.
  intros Hrun Hys.
  assert (Hjoin : mjoin (option_list <$> items) = ys).
  { apply mapM_Some in Hys. clear -Hys.
    induction Hys as [|i y items ys Hi _ IH]; [done|]. csimpl.
    simpl in Hi. by rewrite Hi, IH. }
  assert ((next ≤ next')%nat ∧ NewItems next next' (mjoin (option_list <$> items)))
    as [H1 H2]; [|by rewrite <- Hjoin].
  unfold loadTree in Hrun.
  destruct (loadXmlFromFile P fs fileName) as [text|].
  2:{ injection Hrun as <- <-. split; [done|apply NewItems_nil]. }
  destruct (decide _).
  - by apply (loadTree_loop_new P _ _ _ _ Hrun).
  - injection Hrun as <- <-. split; [done|apply NewItems_nil].
Qed.

(** *** Copies *)

Local Arguments addresses : simpl never.

Lemma addChild_insertChild (c x : BookmarkItemBase) :
  addChild c x = insertChild (Z.of_nat (childCount x)) c x.
Proof.
  unfold addChild, insertChild, childCount. rewrite Nat2Z.id.
  by rewrite firstn_all, drop_all.
Qed.

Lemma NewItems_singleton (n n' : ptr) (y : BookmarkItemBase) :
  NewItems n n' [y] ↔
  NoDup (addresses y) ∧ Forall (λ a, (n ≤ a < n')%nat) (addresses y)
  ∧ parentsAgree y = true.
Proof.
  assert (Hjoin : mjoin (addresses <$> [y]) = addresses y).
  { simpl. apply app_nil_r. }
  split.
  - intros [Hnd Halloc Hagree]. rewrite Hjoin in Hnd, Halloc.
    by apply Forall_cons in Hagree as [Hagree _].
  - intros (Hnd & Halloc & Hagree). split; rewrite ?Hjoin; try done.
    by repeat constructor.
Qed.

(** A new folder at [a] with what was made since below it, and a new item
    more. *)
Lemma NewItems_addChild (a n n' : ptr) (c x x' : BookmarkItemBase) :
  this x = a → (a < n)%nat → (n ≤ n')%nat →
  NewItems a n [x] → NewItems n n' [c] →
  addChild c x = Some x' →
  this x' = a ∧ NewItems a n' [x'].
Proof.
  rewrite !NewItems_singleton.
  intros Hthis Hlt Hle (Hnd & Halloc & Hagree) (Hndc & Hallocc & Hagreec) Hadd.
  rewrite addChild_insertChild in Hadd.
  apply insertChild_inv in Hadd as [_ ->]. split; [done|].
  rewrite Forall_forall in Halloc, Hallocc.
  rewrite addresses_childInserted. split; [|split].
  - apply NoDup_app. split; [done|].
    split; [|done]. intros b Hb Hc. specialize (Halloc b Hb).
    specialize (Hallocc b Hc). simpl in *. lia.
  - apply Forall_app.
    split; apply Forall_forall; intros b Hb.
    + specialize (Halloc b Hb). simpl in *. lia.
    + specialize (Hallocc b Hb). simpl in *. lia.
  - by apply parentsAgree_childInserted.
Qed.

Lemma BookmarkItem_copy_new (P : Platform) (a : ptr) (x : BookmarkItemBase) :
  NewItems a (S a) [BookmarkItem_copy P a x].
Proof. by apply NewItems_leaf. Qed.

Lemma deepCopy_each_new_from (P : Platform) (l : list BookmarkItemBase) :
  Forall (λ x, ∀ next c next',
            deepCopy P x next = Some (c, next') →
            (next < next')%nat ∧ this c = next ∧ NewItems next next' [c]) l →
  ∀ a newFolder next c next',
    this newFolder = a → (a < next)%nat → NewItems a next [newFolder] →
    deepCopy_each P l newFolder next = Some (c, next') →
    (next ≤ next')%nat ∧ this c = a ∧ NewItems a next' [c].
Proof.
  induction 1 as [|x l Hx _ IH]; intros a nf next c next' Hthis Hlt Hnf Hrun;
    simpl in Hrun.
  { by injection Hrun as <- <-. }
  destruct (isBookmarkItem x).
  { destruct (addChild (BookmarkItem_copy P next x) nf) as [nf'|] eqn:Hadd;
      [|done].
    simpl in Hrun.
    destruct (NewItems_addChild a next (S next) _ nf nf' Hthis Hlt
                (ltac:(lia) : (next ≤ S next)%nat) Hnf
                (BookmarkItem_copy_new P next x) Hadd) as [Hthis' Hnf'].
    destruct (IH a nf' (S next) c next' Hthis'
                (ltac:(lia) : (a < S next)%nat) Hnf' Hrun) as (H1 & H2 & H3).
    split; [lia|done]. }
  destruct (isFolderItem x).
  { destruct (deepCopy P x next) as [[c1 n1]|] eqn:Hc1; [|done].
    simpl in Hrun.
    destruct (Hx _ _ _ Hc1) as (K1 & K2 & K3).
    destruct (addChild c1 nf) as [nf'|] eqn:Hadd; [|done]. simpl in Hrun.
    destruct (NewItems_addChild a next n1 _ nf nf' Hthis Hlt
                (ltac:(lia) : (next ≤ n1)%nat) Hnf K3 Hadd) as [Hthis' Hnf'].
    destruct (IH a nf' n1 c next' Hthis' (ltac:(lia) : (a < n1)%nat) Hnf' Hrun)
      as (H1 & H2 & H3).
    split; [lia|done]. }
  by apply (IH a nf next c next').
Qed.

(** A deep copy is made of new objects, the first of them the copy of the
    folder. *)
Lemma deepCopy_new (P : Platform) (x : BookmarkItemBase) :
  ∀ next c next',
    deepCopy P x next = Some (c, next') →
    (next < next')%nat ∧ this c = next ∧ NewItems next next' [c].
Proof.
  induction x as [a d kids fl i p t tip IH] using BookmarkItemBase_ind.
  intros next c next' Hrun. rewrite deepCopy_unfold in Hrun. simpl in Hrun.
  destruct (deepCopy_each_new_from P kids IH next
              (BookmarkFolder_new next t None) (S next) c next' eq_refl)
    as (H1 & H2 & H3); [lia| |done|].
  - by apply NewItems_leaf.
  - split; [lia|done].
Qed.

(** *** Insertion of new items *)

Lemma callOn_insertChild (a : ptr) (index : Z) (c r r' : BookmarkItemBase) :
  NoDup (addresses r) → callOn a (insertChild index c) r = Some r' →
  r' = updateItem a (childInserted index c) r.
Proof.
  intros Hnd Hrun.
  apply (callOn_inv_distinct _ _ (childInserted index c)) in Hrun
    as (x & _ & _ & ->); [done|done|].
  intros x x' H. by apply insertChild_inv in H as [_ ->].
Qed.

Lemma callOn_insertChildren (a : ptr) (index : Z) (l : list BookmarkItemBase)
    (r r' : BookmarkItemBase) :
  NoDup (addresses r) → callOn a (insertChildren index l) r = Some r' →
  r' = updateItem a (childrenInserted index l) r.
Proof.
  intros Hnd Hrun.
  apply (callOn_inv_distinct _ _ (childrenInserted index l)) in Hrun
    as (x & _ & _ & ->); [done|done|].
  intros x x' H. by apply insertChildren_inv in H as [-> _].
Qed.

(** New items are distinct objects, and none of them is among the children
    of an item of the tree. *)
Lemma NewItems_not_children (next next' : ptr) (l : list BookmarkItemBase)
    (r x : BookmarkItemBase) (a : ptr) :
  WellFormed next r → findItem a r = Some x → NewItems next next' l →
  NoDup (this <$> l) ∧ Forall (λ c, this c ∉ this <$> m_children x) l.
Proof.
  intros [_ Halloc _] Hx [Hnd Hnew _].
  apply findItem_Some in Hx as [Hx _].
  rewrite Forall_forall in Halloc, Hnew. split.
  - clear -Hnd. induction l as [|c l IH]; [constructor|]. csimpl in *.
    apply NoDup_app in Hnd as (_ & Hdisj & Hnd). apply NoDup_cons.
    split; [|by apply IH].
    intros (c' & Hthis & Hc')%list_elem_of_fmap.
    apply (Hdisj (this c)).
    + apply list_elem_of_fmap_2, subitems_here.
    + rewrite Hthis. apply list_elem_of_join. exists (addresses c').
      split; [apply list_elem_of_fmap_2, subitems_here|].
      by apply list_elem_of_fmap_2.
  - apply Forall_forall.
    intros c Hc (c' & Hthis & Hc')%list_elem_of_fmap.
    assert (Hold : (this c' < next)%nat).
    { apply Halloc. apply (addresses_subitem _ x); [done|].
      apply (addresses_subitem _ c').
      - apply (subitems_child x c'); [done|apply subitems_here].
      - apply list_elem_of_fmap_2, subitems_here. }
    assert (Hfresh : (next ≤ this c < next')%nat).
    { apply Hnew. apply list_elem_of_join. exists (addresses c).
      split; [apply list_elem_of_fmap_2, subitems_here|].
      by apply list_elem_of_fmap_2. }
    lia.
Qed.

(** The children of an item of the tree are made already. *)
Lemma WellFormed_children (next : ptr) (r x : BookmarkItemBase) (a : ptr) :
  WellFormed next r → findItem a r = Some x →
  Forall (λ k, (this k < next)%nat) (m_children x).
Proof.
  intros [_ Halloc _] Hx. rewrite Forall_forall in Halloc.
  apply findItem_Some in Hx as [Hx _].
  apply Forall_forall. intros k Hk.
  apply Halloc. apply (addresses_subitem _ x); [done|].
  apply (addresses_subitem _ k).
  - apply (subitems_child x k); [done|apply subitems_here].
  - apply list_elem_of_fmap_2, subitems_here.
Qed.

Lemma callOn_insertChildren_new (next next' : ptr) (a : ptr) (index : Z)
    (l : list BookmarkItemBase) (r x : BookmarkItemBase) :
  WellFormed next r → findItem a r = Some x → NewItems next next' l →
  callOn a (insertChildren index l) r
    = Some (updateItem a (childrenInserted index l) r).
Proof.
  intros Hwf Hx Hl.
  destruct (NewItems_not_children _ _ _ _ _ _ Hwf Hx Hl) as [Hnd Hnew].
  apply (callOn_Some _ _ _ _ x); [apply Hwf|done|].
  by apply insertChildren_Some.
Qed.

Lemma callOn_insertChild_new (next : ptr) (a : ptr) (index : Z)
    (c r x : BookmarkItemBase) :
  WellFormed next r → findItem a r = Some x → (next ≤ this c)%nat →
  callOn a (insertChild index c) r
    = Some (updateItem a (childInserted index c) r).
Proof.
  intros Hwf Hx Hc.
  apply (callOn_Some _ _ _ _ x); [apply Hwf|done|].
  apply insertChild_Some.
  intros (c' & Hthis & Hc')%list_elem_of_fmap.
  destruct Hwf as [_ Halloc _]. rewrite Forall_forall in Halloc.
  apply findItem_Some in Hx as [Hx _].
  assert (Hold : (this c' < next)%nat); [|lia].
  apply Halloc. apply (addresses_subitem _ x); [done|].
  apply (addresses_subitem _ c').
  - apply (subitems_child x c'); [done|apply subitems_here].
  - apply list_elem_of_fmap_2, subitems_here.
Qed.

(** *** The operations of the model *)

Lemma needSave_tree (st : State) :
  m_rootItem (needSave st) = m_rootItem st ∧
  heap_next (needSave st) = heap_next st.
Proof.
  unfold needSave. destruct (decide _); [|done].
  by destruct (isActive _).
Qed.

Lemma TreeOfObjects_same (st st' : State) :
  m_rootItem st' = m_rootItem st → heap_next st' = heap_next st →
  TreeOfObjects st → TreeOfObjects st'.
Proof. unfold TreeOfObjects. by intros -> ->. Qed.

Lemma TreeOfObjects_later (st : State) (next : ptr) :
  TreeOfObjects st → (heap_next st ≤ next)%nat →
  TreeOfObjects (set_heap_next next st).
Proof.
  intros [Hwf Hroot] Hle. split; [|done].
  by apply (WellFormed_later (heap_next st)).
Qed.

(** A change at an object of the tree of a model, as in
    [WellFormed_updateItem]. *)
Lemma TreeOfObjects_updateItem (st : State) (a next' : ptr)
    (f : BookmarkItemBase → BookmarkItemBase) (x : BookmarkItemBase) :
  TreeOfObjects st → (heap_next st ≤ next')%nat → deref st a = Some x →
  this (f x) = this x → m_parent (f x) = m_parent x →
  NoDup (addresses (f x)) →
  Forall (λ b, b ∈ addresses x ∨ (heap_next st ≤ b < next')%nat)
         (addresses (f x)) →
  parentsAgree (f x) = true →
  TreeOfObjects (set_rootItem (updateItem a f (m_rootItem st))
                              (set_heap_next next' st)).
Proof.
  intros [Hwf Hroot] Hle Hx Hthis Hparent Hnd Hnew Hagree. split; simpl.
  - by apply (WellFormed_updateItem (heap_next st) next' a f _ x).
  - by destruct (updateItem_keeps a f _ x Hx Hthis Hparent) as [_ ->].
Qed.

Lemma TreeOfObjects_childrenInserted (st : State) (a next' : ptr) (index : Z)
    (l : list BookmarkItemBase) (x : BookmarkItemBase) :
  TreeOfObjects st → (heap_next st ≤ next')%nat → deref st a = Some x →
  NewItems (heap_next st) next' l →
  TreeOfObjects (set_rootItem (updateItem a (childrenInserted index l) (m_rootItem st))
                              (set_heap_next next' st)).
Proof.
  intros [Hwf Hroot] Hle Hx Hl. split; simpl.
  - by apply (WellFormed_childrenInserted (heap_next st) next' a index l _ x).
  - destruct (childrenInserted_keeps l index x) as (Hthis & Hparent & _).
    by destruct (updateItem_keeps a _ _ x Hx Hthis Hparent) as [_ ->].
Qed.

(** A change of the fields of an object other than its address, its parent
    and its children. *)
Lemma TreeOfObjects_fields (st : State) (a : ptr)
    (f : BookmarkItemBase → BookmarkItemBase) (x : BookmarkItemBase) :
  TreeOfObjects st → deref st a = Some x →
  this (f x) = this x → m_parent (f x) = m_parent x →
  m_children (f x) = m_children x →
  TreeOfObjects (set_rootItem (updateItem a f (m_rootItem st)) st).
Proof.
  intros Hst Hx Hthis Hparent Hkids.
  assert (Haddr : addresses (f x) = addresses x).
  { by rewrite !addresses_unfold, Hthis, Hkids. }
  pose proof (findItem_Some a _ x Hx) as [Hsub _].
  destruct Hst as [Hwf Hroot].
  rewrite <- (set_heap_next_same st) at 2.
  apply (TreeOfObjects_updateItem st a (heap_next st) f x); try done.
  - rewrite Haddr. apply (NoDup_addresses_subitem (m_rootItem st)); [apply Hwf|done].
  - rewrite Haddr. apply Forall_forall. intros b Hb. by left.
  - apply parentsAgree_Forall. rewrite Hthis, Hkids. apply parentsAgree_Forall.
    apply (parentsAgree_subitem (m_rootItem st)); [apply Hwf|done].
Qed.

(** The private part of a new model is a tree of objects, and [load] keeps
    it one: the items of the file are new objects. *)
Lemma BtBookmarksModelPrivate_new_objects (q : nat) (defaultModel : option nat)
    (next : ptr) (fs : gmap string QFile) (now : Z) :
  TreeOfObjects (BtBookmarksModelPrivate_new q defaultModel next fs now).
Proof.
  split; [|done]. simpl.
  assert (H : NewItems next (S next) [BookmarkFolder_new next "Root" None])
    by by apply NewItems_leaf.
  apply NewItems_singleton in H as (Hnd & Halloc & Hagree).
  split; [done| |done].
  eapply Forall_impl; [exact Halloc|]. intros b Hb. simpl in *. lia.
Qed.

Lemma load_objects (P : Platform) (st : State) (fileName : string)
    (rootItem : QModelIndex) (b : bool) (st' : State) :
  TreeOfObjects st → load P st fileName rootItem = Some (b, st') →
  TreeOfObjects st'.
Proof.
  intros Hst. unfold load.
  destruct (loadTree P (files st) fileName (heap_next st)) as [items next]
    eqn:Hitems.
  set (st1 := set_heap_next next st).
  destruct (if negb (isValid rootItem) && bool_decide (fileName = "")
            then _ else _) as [st2|] eqn:Hreg; [|done].
  assert (Hsame : m_rootItem st2 = m_rootItem st1 ∧ heap_next st2 = heap_next st1).
  { destruct (negb (isValid rootItem) && bool_decide (fileName = "")).
    - destruct (m_defaultModel st1); [done|]. by injection Hreg as <-.
    - by injection Hreg as <-. }
  destruct Hsame as [Hroot Hnext]. simpl.
  destruct (bool_decide (length items = 0)) eqn:Hlen.
  { intros [= <- <-]. apply (TreeOfObjects_same st1); [done..|].
    apply TreeOfObjects_later; [done|].
    apply bool_decide_eq_true in Hlen. destruct items; [|done].
    by destruct (loadTree_new P _ _ _ _ _ [] Hitems). }
  unfold deref. rewrite Hroot. simpl.
  destruct (findItem (item st rootItem) (m_rootItem st)) as [target|]
    eqn:Htarget; [|done].
  simpl. destruct (mapM id items) as [ys|] eqn:Hys; [|done].
  simpl. destruct (callOn _ _ _) as [r|] eqn:Hcall; [|done].
  apply callOn_insertChildren in Hcall as ->; [|apply Hst].
  simpl. intros [= <- <-].
  destruct (loadTree_new P _ _ _ _ _ ys Hitems Hys) as [Hle Hnew].
  eapply (TreeOfObjects_same
            (set_rootItem (updateItem (item st rootItem)
                             (childrenInserted (Z.of_nat (childCount target)) ys)
                             (m_rootItem st))
                          (set_heap_next next st))); [done|done|].
  by apply (TreeOfObjects_childrenInserted st _ next _ ys target).
Qed.

(** The copies [copyItems] makes are new objects. *)
Lemma copyItems_loop_new (P : Platform) (st : State) (parent : QModelIndex)
    (count : nat) (toCopy : list QModelIndex) (n0 : ptr) :
  ∀ s s',
    copyItems_loop P st parent count toCopy s = Some s' →
    (n0 ≤ copy_next s)%nat → NewItems n0 (copy_next s) (newList s) →
    (copy_next s ≤ copy_next s')%nat ∧ NewItems n0 (copy_next s') (newList s').
Proof.
  induction toCopy as [|index rest IH]; intros s s' Hrun Hle Hnew; simpl in Hrun.
  { by injection Hrun as <-. }
  destruct (deref st (item st index)) as [x|]; [|done]. simpl in Hrun.
  destruct (isFolderItem x).
  - destruct (bool_decide (1 < count)); [by injection Hrun as <-|].
    destruct (hasDescendant x (item st parent)); [by injection Hrun as <-|].
    by destruct (IH _ _ Hrun).
  - destruct (isBookmarkItem x); [|done].
    destruct (IH _ _ Hrun) as [H1 H2]; simpl in *; [lia| |split; [lia|done]].
    apply (NewItems_app n0 (copy_next s) (S (copy_next s))); [done|lia|done|].
    apply BookmarkItem_copy_new.
Qed.

Lemma copyItems_objects (P : Platform) (st : State) (row : Z)
    (parent : QModelIndex) (toCopy result : list QModelIndex) (st' : State) :
  TreeOfObjects st →
  copyItems P st row parent toCopy = Some (result, st') →
  TreeOfObjects st'.
Proof.
  intros Hst. unfold copyItems.
  destruct (copyItems_loop P st parent (length toCopy) toCopy _) as [s|]
    eqn:Hloop; [|done].
  apply (copyItems_loop_new P st parent _ _ (heap_next st)) in Hloop
    as [Hle Hnew]; [|done|apply NewItems_nil]. simpl in Hle.
  simpl.
  destruct (if negb (bookmarksOnly s) && bool_decide (length toCopy = 1)
            then _ else _) as [s2|] eqn:Hdeep; [|done].
  assert ((heap_next st ≤ copy_next s2)%nat
          ∧ NewItems (heap_next st) (copy_next s2) (newList s2)) as [Hle2 Hnew2].
  { destruct (negb (bookmarksOnly s) && bool_decide (length toCopy = 1));
      [|by injection Hdeep as <-].
    destruct (head toCopy) as [first|]; [|done]. simpl in Hdeep.
    destruct (deref st (item st first)) as [x|]; [|done]. simpl in Hdeep.
    destruct (isFolderItem x); [|done].
    destruct (deepCopy P x (copy_next s)) as [[c n]|] eqn:Hc; [|done].
    simpl in Hdeep. injection Hdeep as <-. simpl.
    destruct (deepCopy_new P x _ _ _ Hc) as (H1 & _ & H3).
    split; [lia|]. by apply (NewItems_app _ (copy_next s) n); [done|lia|done|]. }
  simpl.
  destruct (moreThanOneFolder s2
            || negb (bookmarksOnly s2) && bool_decide (1 < length toCopy)
            || targetIncluded s2).
  { intros [= <- <-]. by apply TreeOfObjects_later. }
  change (item (set_heap_next (copy_next s2) st) parent) with (item st parent).
  change (m_rootItem (set_heap_next (copy_next s2) st)) with (m_rootItem st).
  destruct (callOn _ _ _) as [r|] eqn:Hcall; [|done].
  pose proof (callOn_inv _ _ _ _ Hcall) as (target & _ & Htarget & _).
  apply callOn_insertChildren in Hcall as ->; [|apply Hst].
  simpl. match goal with |- context [mapM ?g ?l] => destruct (mapM g l) end;
    [|done].
  simpl. intros [= <- <-].
  match goal with |- TreeOfObjects (needSave ?s) =>
    apply (TreeOfObjects_same s); [apply needSave_tree..|] end.
  by apply (TreeOfObjects_childrenInserted st _ _ _ _ target).
Qed.

(** The placeholders of [insertRows]. *)
Lemma rowsInserted_spec (count : nat) (row : Z) :
  ∀ x next,
    (rowsInserted count row x next).2 = (next + count)%nat ∧
    this (rowsInserted count row x next).1 = this x ∧
    m_parent (rowsInserted count row x next).1 = m_parent x ∧
    derived (rowsInserted count row x next).1 = derived x ∧
    m_text (rowsInserted count row x next).1 = m_text x ∧
    addresses (rowsInserted count row x next).1
      ≡ₚ addresses x ++ seq next count ∧
    (parentsAgree x = true →
     parentsAgree (rowsInserted count row x next).1 = true).
Proof.
  induction count as [|count IH]; intros x next; simpl.
  { rewrite app_nil_r. repeat split; try done; lia. }
  destruct (IH (childInserted row (BookmarkItemBase_new next None) x) (S next))
    as (-> & -> & -> & -> & -> & Haddr & Hagree).
  repeat split; try done; [lia| |].
  - rewrite Haddr, addresses_childInserted. by rewrite <- (assoc_L (++)).
  - intros Hx. apply Hagree. by apply parentsAgree_childInserted.
Qed.

(** The loop of [insertRows] gives that, when it returns; and it returns
    when the placeholders are new objects. *)
Lemma insertRows_loop_inv (count : nat) (row : Z) :
  ∀ x next res,
    insertRows_loop count row x next = Some res →
    res = rowsInserted count row x next.
Proof.
  induction count as [|count IH]; intros x next res Hrun; simpl in Hrun.
  { by injection Hrun as <-. }
  destruct (insertChild row (BookmarkItemBase_new next None) x) as [x1|] eqn:Hx1;
    [|done].
  apply insertChild_inv in Hx1 as [_ ->]. by apply IH.
Qed.

Lemma insertRows_loop_Some (count : nat) (row : Z) :
  ∀ x next,
    Forall (λ k, (this k < next)%nat) (m_children x) →
    insertRows_loop count row x next = Some (rowsInserted count row x next).
Proof.
  induction count as [|count IH]; intros x next Hold; [done|]. simpl.
  rewrite insertChild_Some.
  2:{ intros (k & Hthis & Hk)%list_elem_of_fmap.
      rewrite Forall_forall in Hold. specialize (Hold k Hk). simpl in *. lia. }
  simpl. apply IH. simpl. apply Forall_app. split; [|apply Forall_cons; split].
  - apply Forall_take. eapply Forall_impl; [exact Hold|]. intros k Hk.
    simpl in Hk. lia.
  - simpl. lia.
  - apply Forall_drop. eapply Forall_impl; [exact Hold|]. intros k Hk.
    simpl in Hk. lia.
Qed.

Lemma insertRows_inv (st : State) (row count : Z) (parent : QModelIndex)
    (b : bool) (st' : State) :
  NoDup (addresses (m_rootItem st)) →
  insertRows st row count parent = Some (b, st') →
  ∃ x, deref st (item st parent) = Some x ∧ b = true ∧
       st' = set_rootItem
               (updateItem (this x)
                  (λ y, (rowsInserted (Z.to_nat count) row y (heap_next st)).1)
                  (m_rootItem st))
               (set_heap_next
                  (rowsInserted (Z.to_nat count) row x (heap_next st)).2 st).
Proof.
  intros Hnd. unfold insertRows.
  destruct (deref st (item st parent)) as [x|] eqn:Hx; [|done]. simpl.
  destruct (bool_decide _); [|done].
  destruct (insertRows_loop _ _ x _) as [[x1 next]|] eqn:Hloop; [|done].
  apply insertRows_loop_inv in Hloop. simpl.
  destruct (callOn _ _ _) as [r|] eqn:Hcall; [|done]. simpl. intros [= <- <-].
  exists x. split; [done|]. split; [done|].
  apply (callOn_inv_distinct _ _
           (λ y, (rowsInserted (Z.to_nat count) row y (heap_next st)).1))
    in Hcall as (x0 & _ & _ & ->); [|done|].
  - by rewrite <- Hloop.
  - intros y y' Hy.
    destruct (insertRows_loop _ _ y _) as [res|] eqn:Hres; [|done].
    apply insertRows_loop_inv in Hres. injection Hy as <-. by rewrite Hres.
Qed.

Lemma insertRows_objects (st : State) (row count : Z) (parent : QModelIndex)
    (b : bool) (st' : State) :
  TreeOfObjects st →
  insertRows st row count parent = Some (b, st') → TreeOfObjects st'.
Proof.
  intros Hst Hrun.
  apply insertRows_inv in Hrun as (x & Hx & -> & ->); [|apply Hst].
  pose proof (findItem_Some _ _ x Hx) as [Hsub Hthis].
  destruct (rowsInserted_spec (Z.to_nat count) row x (heap_next st))
    as (Hnext & H1 & H2 & _ & _ & Haddr & Hagree).
  rewrite Hnext.
  assert (Hndx : NoDup (addresses x)).
  { apply (NoDup_addresses_subitem (m_rootItem st)); [apply Hst|done]. }
  destruct Hst as [Hwf Hroot].
  apply (TreeOfObjects_updateItem st _ _ _ x); try done;
    [lia|by rewrite Hthis| | |].
  - rewrite Haddr. apply NoDup_app. split; [done|]. split; [|apply NoDup_seq].
    intros a Ha Hs. apply elem_of_seq in Hs.
    destruct Hwf as [_ Halloc _]. rewrite Forall_forall in Halloc.
    assert (a < heap_next st)%nat; [|lia].
    apply Halloc. by apply (addresses_subitem _ x).
  - rewrite Haddr. apply Forall_app. split; apply Forall_forall; intros a Ha.
    + by left.
    + right. apply elem_of_seq in Ha. lia.
  - apply Hagree. apply (parentsAgree_subitem (m_rootItem st)); [apply Hwf|done].
Qed.

(** What [removeChild] and the loop over it leave. *)
Lemma removeChild_spec (index : Z) (x x' : BookmarkItemBase) :
  removeChild index x = Some x' →
  ∃ c, m_children x !! Z.to_nat index = Some c ∧
       x' = setChildren (take (Z.to_nat index) (m_children x)
                         ++ drop (S (Z.to_nat index)) (m_children x)) x ∧
       addresses x ≡ₚ addresses x' ++ addresses c.
Proof.
  unfold removeChild. destruct (bool_decide_reflect (0 ≤ index < Z.of_nat (childCount x))%Z)
    as [Hin|]; [|done].
  intros [= <-]. unfold childCount in Hin.
  destruct (lookup_lt_is_Some_2 (m_children x) (Z.to_nat index)) as [c Hc]; [lia|].
  exists c. split; [done|]. rewrite delete_take_drop. split; [done|].
  rewrite (addresses_unfold x), (addresses_unfold (setChildren _ _)). simpl.
  apply Permutation_skip.
  rewrite <- (take_drop_middle (m_children x) _ c Hc) at 1.
  rewrite !fmap_app, !join_app. csimpl.
  rewrite <- !(assoc_L (++)). f_equiv. apply Permutation_app_comm.
Qed.

Lemma removeRows_loop_spec (count : nat) (row : Z) :
  ∀ x x',
    removeRows_loop count row x = Some x' →
    this x' = this x ∧ m_parent x' = m_parent x ∧
    (∃ removed, addresses x ≡ₚ addresses x' ++ removed) ∧
    (parentsAgree x = true → parentsAgree x' = true).
Proof.
  induction count as [|count IH]; intros x x' Hrun; simpl in Hrun.
  { injection Hrun as <-. repeat split; try done. exists []. by rewrite app_nil_r. }
  destruct (removeChild row x) as [x1|] eqn:Hx1; [|done]. simpl in Hrun.
  destruct (IH _ _ Hrun) as (-> & -> & (removed & Hrem) & Hagree).
  destruct (removeChild_spec _ _ _ Hx1) as (c & Hc & -> & Haddr).
  repeat split; try done.
  - exists (removed ++ addresses c). by rewrite Haddr, Hrem, (assoc_L (++)).
  - intros Hx. apply Hagree. apply parentsAgree_Forall. simpl.
    apply parentsAgree_Forall in Hx. apply Forall_app.
    split; [by apply Forall_take|by apply Forall_drop].
Qed.

Lemma removeRows_objects (st : State) (row count : Z) (parent : QModelIndex)
    (b : bool) (st' : State) :
  TreeOfObjects st →
  removeRows st row count parent = Some (b, st') → TreeOfObjects st'.
Proof.
  intros Hst. unfold removeRows.
  destruct (deref st (item st parent)) as [x|] eqn:Hx; [|done]. simpl.
  destruct (bool_decide _); [|done].
  destruct (removeRows_loop (Z.to_nat count) row x) as [x'|] eqn:Hx'; [|done].
  simpl. intros [= <- <-].
  match goal with |- TreeOfObjects (needSave ?s) =>
    apply (TreeOfObjects_same s); [apply needSave_tree..|] end.
  pose proof (findItem_Some _ _ x Hx) as [Hsub Hthis].
  destruct (removeRows_loop_spec _ _ _ _ Hx') as (H1 & H2 & (removed & Hrem) & Hagree).
  assert (Hndx : NoDup (addresses x)).
  { apply (NoDup_addresses_subitem (m_rootItem st)); [apply Hst|done]. }
  rewrite <- (set_heap_next_same st) at 2.
  apply (TreeOfObjects_updateItem st _ _ _ x); try done.
  - by rewrite Hthis.
  - rewrite Hrem in Hndx. by apply NoDup_app in Hndx as [? _].
  - apply Forall_forall. intros a Ha. left. rewrite Hrem. apply elem_of_app. by left.
  - apply Hagree. apply (parentsAgree_subitem (m_rootItem st)); [apply Hst|done].
Qed.

Lemma addBookmark_objects (P : Platform) (st : State) (row : Z)
    (parent : QModelIndex) (module : CSwordModuleInfo)
    (key description title : string) (index : QModelIndex) (st' : State) :
  TreeOfObjects st →
  addBookmark P st row parent module key description title = Some (index, st') →
  TreeOfObjects st'.
Proof.
  intros Hst. unfold addBookmark.
  destruct (deref st (item st parent)) as [x|] eqn:Hx; [|done]. simpl.
  destruct (isFolderItem x); [|by intros [= <- <-]].
  destruct (callOn _ _ _) as [root|] eqn:Hcall; [|done].
  apply callOn_insertChild in Hcall as ->; [|apply Hst]. simpl.
  match goal with |- context [BookmarkItemBase_index ?s ?a] =>
    destruct (BookmarkItemBase_index s a) end; [|done].
  simpl. intros [= <- <-].
  match goal with |- TreeOfObjects (needSave ?s) =>
    apply (TreeOfObjects_same s); [apply needSave_tree..|] end.
  pose proof (findItem_Some _ _ x Hx) as [_ Hthis]. 
  match goal with |- context [childInserted ?r ?c] =>
    change (childInserted r c) with (childrenInserted r [c]) end.
  apply (TreeOfObjects_childrenInserted st _ _ _ _ x);
    [done|lia|by rewrite Hthis|].
  by apply NewItems_leaf.
Qed.

Lemma addFolder_objects (P : Platform) (st : State) (row : Z)
    (parent : QModelIndex) (name : string) (index : QModelIndex) (st' : State) :
  TreeOfObjects st →
  addFolder P st row parent name = Some (index, st') → TreeOfObjects st'.
Proof.
  intros Hst. unfold addFolder.
  destruct (deref st (item st parent)) as [x|] eqn:Hx; [|done]. simpl.
  destruct (isFolderItem x); [|by intros [= <- <-]].
  destruct (callOn _ _ _) as [root|] eqn:Hcall; [|done].
  apply callOn_insertChild in Hcall as ->; [|apply Hst]. simpl.
  match goal with |- context [BookmarkItemBase_index ?s ?a] =>
    destruct (BookmarkItemBase_index s a) end; [|done].
  simpl. intros [= <- <-].
  match goal with |- TreeOfObjects (needSave ?s) =>
    apply (TreeOfObjects_same s); [apply needSave_tree..|] end.
  pose proof (findItem_Some _ _ x Hx) as [_ Hthis].
  match goal with |- context [childInserted ?r ?c] =>
    change (childInserted r c) with (childrenInserted r [c]) end.
  apply (TreeOfObjects_childrenInserted st _ _ _ _ x);
    [done|lia|by rewrite Hthis|].
  by apply NewItems_leaf.
Qed.

Lemma setData_objects (st : State) (index : QModelIndex) (val : string)
    (role : ItemDataRole) (b : bool) (st' : State) :
  TreeOfObjects st →
  setData st index val role = Some (b, st') → TreeOfObjects st'.
Proof.
  intros Hst. unfold setData.
  destruct (deref st (item st index)) as [x|] eqn:Hx; [|done]. simpl.
  pose proof (findItem_Some _ _ x Hx) as [_ Hthis]. 
  assert (Hset : ∀ set : string → BookmarkItemBase → BookmarkItemBase,
            (∀ v y, this (set v y) = this y ∧ m_parent (set v y) = m_parent y
                    ∧ m_children (set v y) = m_children y) →
            TreeOfObjects
              (let st0 := set_rootItem
                            (updateItem (this x) (set val) (m_rootItem st)) st in
               if isFolderItem x || isBookmarkItem x then needSave st0 else st0)).
  { intros set Hkeeps. destruct (Hkeeps val x) as (K1 & K2 & K3).
    assert (TreeOfObjects (set_rootItem
                             (updateItem (this x) (set val) (m_rootItem st)) st)).
    { apply (TreeOfObjects_fields st _ _ x); try done. by rewrite Hthis. }
    simpl. destruct (isFolderItem x || isBookmarkItem x); [|done].
    match goal with |- TreeOfObjects (needSave ?s) =>
      by apply (TreeOfObjects_same s); [apply needSave_tree..|] end. }
  destruct role; intros [= <- <-]; try done; by apply Hset.
Qed.

Lemma setDescription_objects (st : State) (index : QModelIndex)
    (description : string) (st' : State) :
  TreeOfObjects st →
  BtBookmarksModel_setDescription st index description = Some st' →
  TreeOfObjects st'.
Proof.
  intros Hst. unfold BtBookmarksModel_setDescription.
  destruct (deref st (item st index)) as [x|] eqn:Hx; [|done]. simpl.
  pose proof (findItem_Some _ _ x Hx) as [_ Hthis].
  destruct (isBookmarkItem x); intros [= <-]; [|done].
  match goal with |- TreeOfObjects (needSave ?s) =>
    apply (TreeOfObjects_same s); [apply needSave_tree..|] end.
  destruct (setDescription_keeps description x) as (K1 & K2 & K3).
  apply (TreeOfObjects_fields st _ _ x); try done. by rewrite Hthis.
Qed.

Lemma sortFolder_objects (P : Platform) (order : SortOrder) (st : State)
    (f : ptr) :
  SortContract P → TreeOfObjects st → TreeOfObjects (sortFolder P order st f).
Proof.
  intros Hsort Hst. unfold sortFolder.
  match goal with |- TreeOfObjects (needSave ?s) =>
    apply (TreeOfObjects_same s); [apply needSave_tree..|] end.
  destruct (findItem f (m_rootItem st)) as [x|] eqn:Hx.
  2:{ rewrite updateItem_absent.
      - by apply (TreeOfObjects_same st).
      - apply findItem_None_absent; [apply Hst|done]. }
  pose proof (findItem_Some _ _ x Hx) as [Hsub Hthis].
  destruct (Hsort order (m_children x)) as [Hperm _].
  assert (Haddr : addresses (sortChildren P order x) ≡ₚ addresses x).
  { rewrite !addresses_unfold. simpl. apply Permutation_skip.
    by rewrite Hperm. }
  rewrite <- (set_heap_next_same st) at 2.
  apply (TreeOfObjects_updateItem st _ _ _ x); try done.
  - rewrite Haddr. apply (NoDup_addresses_subitem (m_rootItem st)); [apply Hst|done].
  - apply Forall_forall. intros a Ha. left. by rewrite <- Haddr.
  - apply parentsAgree_Forall. simpl. rewrite Hperm. apply parentsAgree_Forall.
    apply (parentsAgree_subitem (m_rootItem st)); [apply Hst|done].
Qed.

Lemma sortItems_objects (P : Platform) (st : State) (parent : QModelIndex)
    (order : SortOrder) (st' : State) :
  SortContract P → TreeOfObjects st →
  sortItems P st parent order = Some st' → TreeOfObjects st'.
Proof.
  intros Hsort Hst. unfold sortItems.
  destruct (deref st (item st parent)) as [x|]; [|done]. simpl.
  destruct (isFolderItem x); intros [= <-]; [|done].
  generalize (if decide (this x = this (m_rootItem st))
              then collectFolders (length (addresses x)) [x] else [this x]).
  intros parents. revert st Hst.
  induction parents as [|f parents IH]; intros st Hst; [done|]. simpl.
  apply IH. by apply sortFolder_objects.
Qed.

(** ** Rows *)

Lemma int_wrap_small (z : Z) : (- 2 ^ 31 ≤ z < 2 ^ 31)%Z → int_wrap z = z.
Proof. intros Hz. unfold int_wrap. rewrite Z.mod_small; lia. Qed.

Lemma int_wrap_range (z : Z) : (- 2 ^ 31 ≤ int_wrap z < 2 ^ 31)%Z.
Proof.
  unfold int_wrap.
  pose proof (Z.mod_pos_bound (z + 2 ^ 31) (2 ^ 32)). lia.
Qed.

Lemma int_wrap_le (z : Z) : (0 ≤ z)%Z → (int_wrap z ≤ z)%Z.
Proof.
  intros Hz. unfold int_wrap.
  pose proof (Z.mod_le (z + 2 ^ 31) (2 ^ 32)). lia.
Qed.

(** The assertion of [removeRows] and of [insertRows] holds of rows that
    are there, also where the sum comes round. *)
Lemma removeRows_assertion (row count : Z) (n : nat) :
  (0 ≤ row)%Z → (0 ≤ count)%Z → (row + count ≤ Z.of_nat n)%Z →
  (Z.of_nat n >= int_add row count)%Z.
Proof.
  intros Hrow Hcount Hlen. unfold int_add.
  pose proof (int_wrap_le (row + count)). lia.
Qed.

Lemma insertRows_assertion (row count : Z) (n : nat) :
  (0 ≤ row)%Z → (0 ≤ count)%Z → (row + count - 1 ≤ Z.of_nat n)%Z →
  (Z.of_nat n >= int_sub (int_add row count) 1)%Z.
Proof.
  intros Hrow Hcount Hlen. unfold int_sub, int_add.
  destruct (decide (row + count < 2 ^ 31)%Z) as [Hsmall|Hbig].
  - rewrite (int_wrap_small (row + count)) by lia.
    rewrite int_wrap_small by lia. lia.
  - pose proof (int_wrap_range (int_wrap (row + count) - 1)). lia.
Qed.

Lemma take_insert_middle {A : Type} (i : nat) (k : list A) (c : A) :
  take (S i) (take i k ++ c :: drop i k) = take i k ++ [c] ∧
  drop (S i) (take i k ++ c :: drop i k) = drop i k.
Proof.
  destruct (decide (i ≤ length k)%nat) as [Hle|Hgt].
  - assert (Hlen : length (take i k) = i) by (rewrite length_take; lia).
    split.
    + rewrite take_app_ge by lia. rewrite Hlen.
      replace (S i - i)%nat with 1%nat by lia. done.
    + rewrite drop_app_ge by lia. rewrite Hlen.
      replace (S i - i)%nat with 1%nat by lia. done.
  - rewrite (take_ge k i), (drop_ge k i) by lia. split.
    + rewrite take_ge; [done|]. rewrite length_app. simpl. lia.
    + rewrite drop_ge; [done|]. rewrite length_app. simpl. lia.
Qed.

Lemma childrenInserted_children (l : list BookmarkItemBase) :
  ∀ index x,
    (0 ≤ index)%Z →
    m_children (childrenInserted index l x) =
      take (Z.to_nat index) (m_children x)
      ++ (setParent (Some (this x)) <$> l)
      ++ drop (Z.to_nat index) (m_children x).
Proof.
  induction l as [|c l IH]; intros index x Hindex; simpl.
  { by rewrite take_drop. }
  rewrite IH by lia. simpl.
  replace (Z.to_nat (index + 1)) with (S (Z.to_nat index)) by lia.
  destruct (take_insert_middle (Z.to_nat index) (m_children x)
              (setParent (Some (this x)) c)) as [-> ->].
  by rewrite <- !(assoc_L (++)).
Qed.

Lemma childrenInserted_children_before (l : list BookmarkItemBase) :
  ∀ index x,
    (index + Z.of_nat (length l) ≤ 0)%Z →
    m_children (childrenInserted index l x) =
      reverse (setParent (Some (this x)) <$> l) ++ m_children x.
Proof.
  induction l as [|c l IH]; intros index x Hindex; simpl in *; [done|].
  rewrite IH by lia. simpl.
  replace (Z.to_nat index) with 0%nat by lia. simpl.
  by rewrite reverse_cons, <- (assoc_L (++)).
Qed.

Lemma needSave_set_rootItem (r : BookmarkItemBase) (st : State) :
  needSave (set_rootItem r st) = set_rootItem r (needSave st).
Proof.
  unfold needSave. simpl. destruct (decide _); [|done].
  by destruct (isActive _).
Qed.

Lemma removeRows_loop_rows (count : nat) (row : Z) :
  ∀ x, (0 ≤ row)%Z → (Z.to_nat row + count ≤ childCount x)%nat →
    removeRows_loop count row x =
      Some (setChildren (take (Z.to_nat row) (m_children x)
                         ++ drop (Z.to_nat row + count) (m_children x)) x).
Proof.
  induction count as [|count IH]; intros x Hrow Hlen; simpl.
  { rewrite Nat.add_0_r, take_drop. by destruct x. }
  unfold removeChild. unfold childCount in *.
  rewrite bool_decide_eq_true_2 by lia. simpl.
  rewrite IH; [|done|simpl; rewrite length_delete; [lia|]].
  2:{ apply lookup_lt_is_Some_2. lia. }
  simpl. f_equal. unfold setChildren. simpl. f_equal.
  rewrite delete_take_drop.
  rewrite take_app_ge by (rewrite length_take; lia).
  rewrite drop_app_ge by (rewrite length_take; lia).
  rewrite length_take.
  replace (Z.to_nat row `min` length (m_children x))%nat with (Z.to_nat row) by lia.
  rewrite Nat.sub_diag, take_0, app_nil_r.
  replace (Z.to_nat row + count - Z.to_nat row)%nat with count by lia.
  rewrite drop_drop. f_equal. f_equal. lia.
Qed.

Lemma removeRows_loop_Some (count : nat) (row : Z) :
  ∀ x x', removeRows_loop count row x = Some x' →
    count = 0%nat ∨ ((0 ≤ row)%Z ∧ (Z.to_nat row + count ≤ childCount x)%nat).
Proof.
  induction count as [|count IH]; intros x x' Hrun; [by left|right].
  simpl in Hrun. unfold removeChild in Hrun.
  destruct (bool_decide_reflect (0 ≤ row < Z.of_nat (childCount x))%Z)
    as [Hin|]; [|done].
  simpl in Hrun. apply IH in Hrun as [->|[_ Hlen]]; [lia|].
  unfold childCount in *. simpl in Hlen.
  rewrite length_delete in Hlen; [lia|]. apply lookup_lt_is_Some_2. lia.
Qed.

Lemma isValid_Index (row column : Z) (p : ptr) :
  (0 ≤ row)%Z → (0 ≤ column)%Z → isValid (Index row column p) = true.
Proof. intros Hr Hc. unfold isValid. by rewrite !bool_decide_eq_true_2. Qed.

Lemma item_Index (st : State) (row column : Z) (p : ptr) :
  (0 ≤ row)%Z → (0 ≤ column)%Z → item st (Index row column p) = p.
Proof. intros Hr Hc. unfold item. by rewrite isValid_Index. Qed.

Lemma item_same (st st' : State) (index : QModelIndex) :
  this (m_rootItem st') = this (m_rootItem st) → item st' index = item st index.
Proof. intros Hroot. unfold item. by rewrite Hroot. Qed.

Lemma deref_needSave (st : State) (a : ptr) :
  deref (needSave st) a = deref st a.
Proof. unfold deref. by destruct (needSave_tree st) as [-> _]. Qed.

Lemma item_needSave (st : State) (index : QModelIndex) :
  item (needSave st) index = item st index.
Proof. apply item_same. by destruct (needSave_tree st) as [-> _]. Qed.

(** The rows [removeRows] takes out, in the list of the children. *)
Lemma removed_rows_split {A : Type} (row count : nat) (k : list A) :
  k = take row k ++ take count (drop row k) ++ drop (row + count) k.
Proof.
  rewrite <- drop_drop. by rewrite take_drop, take_drop.
Qed.

(** X1.  [removeRows(row, count, parent)] with rows that are there takes
    the [count] children from [row] on out of the parent and keeps the
    others in their order, so that [rowCount] is [count] less; it starts
    the timer of the default model, also for a [count] of zero.  No
    pointer finds the items taken out or what was below them, and the items
    below the rows that stay are found as they were.  The items of the tree
    are distinct objects. *)
Theorem removeRows_removes (st : State) (row count : Z) (parent : QModelIndex)
    (x : BookmarkItemBase) :
  NoDup (addresses (m_rootItem st)) →
  deref st (item st parent) = Some x →
  (0 ≤ row)%Z → (0 ≤ count)%Z → (row + count ≤ Z.of_nat (childCount x))%Z →
  ∃ st' x',
    removeRows st row count parent = Some (true, st') ∧
    deref st' (item st' parent) = Some x' ∧
    m_children x' =
      take (Z.to_nat row) (m_children x)
      ++ drop (Z.to_nat (row + count)) (m_children x) ∧
    rowCount st' parent = Some (Z.of_nat (childCount x) - count)%Z ∧
    m_saveTimer st' = m_saveTimer (needSave st) ∧
    (∀ c a, c ∈ take (Z.to_nat count) (drop (Z.to_nat row) (m_children x)) →
            a ∈ addresses c → deref st' a = None) ∧
    (∀ c y, c ∈ m_children x' → y ∈ subitems c → deref st' (this y) = Some y).
Proof.
  intros Hnd Hx Hrow Hcount Hlen.
  pose proof (findItem_Some _ _ x Hx) as [Hsub Hthis].
  set (kids' := take (Z.to_nat row) (m_children x)
                ++ drop (Z.to_nat (row + count)) (m_children x)).
  set (x' := setChildren kids' x).
  set (r' := updateItem (this x) (λ _, x') (m_rootItem st)).
  assert (Hrun : removeRows st row count parent
                 = Some (true, needSave (set_rootItem r' st))).
  { unfold removeRows. rewrite Hx. simpl.
    rewrite bool_decide_eq_true_2 by (by apply removeRows_assertion).
    rewrite removeRows_loop_rows by (unfold childCount in *; lia). simpl.
    replace (Z.to_nat row + Z.to_nat count)%nat with (Z.to_nat (row + count))
      by lia.
    done. }
  assert (Hsplit : addresses x ≡ₚ
            addresses x' ++
            mjoin (addresses <$> take (Z.to_nat count)
                                      (drop (Z.to_nat row) (m_children x)))).
  { rewrite (addresses_unfold x), (addresses_unfold x'). simpl.
    apply Permutation_skip. unfold kids'.
    rewrite (removed_rows_split (Z.to_nat row) (Z.to_nat count) (m_children x)) at 1.
    replace (Z.to_nat row + Z.to_nat count)%nat with (Z.to_nat (row + count))
      by lia.
    rewrite !fmap_app, !join_app. rewrite <- !(assoc_L (++)). f_equiv.
    apply Permutation_app_comm. }
  assert (Hndx : NoDup (addresses x)).
  { by apply (NoDup_addresses_subitem (m_rootItem st)). }
  assert (Hndx' : NoDup (addresses x')).
  { rewrite Hsplit in Hndx. by apply NoDup_app in Hndx as [? _]. }
  assert (Hnd' : NoDup (addresses r')).
  { apply (NoDup_updateItem _ _ _ x); try done.
    - by rewrite <- Hthis in Hx.
    - intros b Hb. left. rewrite Hsplit. apply elem_of_app. by left. }
  assert (Hx' : ∀ z, z ∈ subitems x' → findItem (this z) r' = Some z).
  { intros z Hz. apply (findItem_updateItem_inside _ _ _ x); try done.
    by rewrite <- Hthis in Hx. }
  assert (Hitem : item (needSave (set_rootItem r' st)) parent = item st parent).
  { rewrite item_needSave. apply item_same. simpl.
    apply (updateItem_keeps (this x) (λ _, x') (m_rootItem st) x); try done.
    by rewrite Hthis. }
  assert (Hparent : deref (needSave (set_rootItem r' st)) (item st parent)
                    = Some x').
  { rewrite deref_needSave. unfold deref. simpl. rewrite <- Hthis.
    apply (Hx' x'), subitems_here. }
  exists (needSave (set_rootItem r' st)), x'.
  split; [done|]. split; [by rewrite Hitem|]. split; [done|].
  split; [|split; [|split]].
  - unfold rowCount. rewrite Hitem, Hparent. simpl. f_equal.
    unfold childCount. simpl. unfold childCount in Hlen. subst kids'.
    rewrite length_app, length_take, length_drop. lia.
  - by rewrite needSave_set_rootItem.
  - intros c a Hc Ha. rewrite deref_needSave. unfold deref. simpl.
    apply findItem_None.
    destruct (addresses_updateItem_at (this x) (λ _, x') (m_rootItem st) x Hnd)
      as (rest & H1 & H2); [by rewrite Hthis|].
    fold r' in H2. rewrite H2.
    assert (Hremoved : a ∈ mjoin (addresses <$>
                         take (Z.to_nat count) (drop (Z.to_nat row) (m_children x)))).
    { apply list_elem_of_join. exists (addresses c). split; [done|].
      by apply list_elem_of_fmap_2. }
    rewrite H1, Hsplit in Hnd.
    apply NoDup_app in Hnd as (Hnd1 & Hdisj & _).
    apply NoDup_app in Hnd1 as (_ & Hdisj1 & _).
    intros [Hin|Hin]%elem_of_app.
    + by apply (Hdisj1 a).
    + apply (Hdisj a); [|done]. apply elem_of_app. by right.
  - intros c y Hc Hy. rewrite deref_needSave. unfold deref. simpl.
    apply Hx'. by apply (subitems_child x' c).
Qed.

(** X2.  [removeRows] returns in these cases and in no other: the parent
    is an item of the tree, the sum [row + count], as [int]s give it, is
    not more than its number of rows, and, when there is something to
    remove, [row] is not negative and the parent has [count] rows from
    [row] on.  Elsewhere the assertion fails or [removeChild] takes a child
    that is not there. *)
Theorem removeRows_returns_iff (st : State) (row count : Z)
    (parent : QModelIndex) :
  is_Some (removeRows st row count parent) ↔
  ∃ x, deref st (item st parent) = Some x ∧
       (int_add row count ≤ Z.of_nat (childCount x))%Z ∧
       (count ≤ 0 ∨ (0 ≤ row ∧ row + count ≤ Z.of_nat (childCount x)))%Z.
Proof.
  unfold removeRows. split.
  - intros [res Hres].
    destruct (deref st (item st parent)) as [x|]; [|done]. simpl in Hres.
    destruct (bool_decide_reflect
                (Z.of_nat (childCount x) >= int_add row count)%Z)
      as [Hassert|]; [|done].
    destruct (removeRows_loop (Z.to_nat count) row x) as [x'|] eqn:Hloop; [|done].
    exists x. split; [done|]. split; [lia|].
    apply removeRows_loop_Some in Hloop as [H0|[Hrow Hlen]]; lia.
  - intros (x & -> & Hassert & Hcase). simpl.
    rewrite bool_decide_eq_true_2 by lia.
    destruct (decide (count ≤ 0)%Z) as [Hle|Hgt].
    + replace (Z.to_nat count) with 0%nat by lia. done.
    + rewrite removeRows_loop_rows by (unfold childCount in *; lia). done.
Qed.

(** A sum that leaves the range of [int] comes round, and the assertion
    fails on it. *)
Example removeRows_sum_out_of_range :
  removeRows favoritesState (-2147483648) (-1) InvalidIndex = None.
Proof. reflexivity. Qed.

(** The children after the loop of [insertRows]: the placeholders stand at
    [row], the last made first. *)
Lemma rowsInserted_children (count : nat) (row : Z) :
  ∀ x next,
    (0 ≤ row)%Z → (count = 0%nat ∨ Z.to_nat row ≤ childCount x)%nat →
    m_children (rowsInserted count row x next).1 =
      take (Z.to_nat row) (m_children x)
      ++ (placeholder x <$> reverse (seq next count))
      ++ drop (Z.to_nat row) (m_children x).
Proof.
  induction count as [|count IH]; intros x next Hrow Hlen; simpl.
  { by rewrite take_drop. }
  destruct Hlen as [|Hlen]; [done|]. unfold childCount in Hlen.
  rewrite IH; [|done|right; unfold childCount; simpl;
                     rewrite length_app, length_take; simpl; lia].
  simpl.
  rewrite take_app_ge by (rewrite length_take; lia).
  rewrite drop_app_ge by (rewrite length_take; lia).
  rewrite length_take.
  replace (Z.to_nat row `min` length (m_children x))%nat with (Z.to_nat row) by lia.
  rewrite Nat.sub_diag, take_0, app_nil_r. simpl.
  rewrite reverse_cons, fmap_app. simpl. by rewrite <- !(assoc_L (++)).
Qed.

Lemma elementsOfItem_unfold (P : Platform) (x : BookmarkItemBase) :
  elementsOfItem P x =
    match derived x with
    | FolderItem =>
        [ElementNode "Folder" (<["caption" := m_text x]> ∅)
           (mjoin (elementsOfItem P <$> m_children x))]
    | BookmarkData _ _ _ =>
        [ElementNode "Bookmark" (bookmarkAttributes P x) []]
    | PlainItem => []
    end.
Proof. by destruct x. Qed.

(** What the file gets of an item depends on its type, its text and what
    the file gets of its children. *)
Lemma elementsOfItem_ext (P : Platform) (x y : BookmarkItemBase) :
  derived y = derived x → m_text y = m_text x →
  mjoin (elementsOfItem P <$> m_children y)
    = mjoin (elementsOfItem P <$> m_children x) →
  elementsOfItem P y = elementsOfItem P x.
Proof.
  intros Hd Ht Hkids. rewrite !elementsOfItem_unfold, Hd, Ht, Hkids.
  assert (bookmarkAttributes P y = bookmarkAttributes P x) as ->; [|done].
  unfold bookmarkAttributes, module, moduleName, description, englishKey.
  by rewrite Hd, Ht.
Qed.

(** A change that the file does not see at the object is not seen in the
    tree. *)
Lemma elementsOfItem_updateItem (P : Platform) (a : ptr)
    (f : BookmarkItemBase → BookmarkItemBase) (r : BookmarkItemBase) :
  (∀ y, derived (f y) = derived y ∧ m_text (f y) = m_text y ∧
        mjoin (elementsOfItem P <$> m_children (f y))
          = mjoin (elementsOfItem P <$> m_children y)) →
  elementsOfItem P (updateItem a f r) = elementsOfItem P r ∧
  mjoin (elementsOfItem P <$> m_children (updateItem a f r))
    = mjoin (elementsOfItem P <$> m_children r).
Proof.
  intros Hf. induction r as [b d kids fl i p t tip IH] using BookmarkItemBase_ind.
  set (r := Item b d kids fl i p t tip).
  rewrite updateItem_unfold. destruct (decide (this r = a)) as [Ha|Hne].
  { destruct (Hf r) as (H1 & H2 & H3).
    split; [by apply elementsOfItem_ext|done]. }
  assert (Hkids : mjoin (elementsOfItem P <$> map (updateItem a f) kids)
                  = mjoin (elementsOfItem P <$> kids)).
  { clear r Hne. induction IH as [|c l [Hc _] _ IHl]; [done|]. csimpl.
    by rewrite Hc, IHl. }
  split; [|done]. by apply elementsOfItem_ext.
Qed.

Lemma rowsInserted_elements (P : Platform) (count : nat) (row : Z) :
  ∀ x next,
    mjoin (elementsOfItem P <$> m_children (rowsInserted count row x next).1)
      = mjoin (elementsOfItem P <$> m_children x).
Proof.
  induction count as [|count IH]; intros x next; simpl; [done|].
  rewrite IH. simpl. rewrite fmap_app, join_app. csimpl.
  rewrite <- join_app, <- fmap_app. by rewrite take_drop.
Qed.

Lemma serializeTreeFromRootItem_elements (P : Platform)
    (r r' : BookmarkItemBase) :
  mjoin (elementsOfItem P <$> m_children r')
    = mjoin (elementsOfItem P <$> m_children r) →
  serializeTreeFromRootItem P r' = serializeTreeFromRootItem P r.
Proof.
  intros Hkids. unfold serializeTreeFromRootItem, documentOfRootItem.
  unfold createElement, setAttribute. by rewrite !saveItems_appends, Hkids.
Qed.

(** X4.  The placeholders of [insertRows] are not seen by [save]: the text
    it would write is the one it would have written before. *)
Theorem insertRows_not_serialized (P : Platform) (st : State) (row count : Z)
    (parent : QModelIndex) (b : bool) (st' : State) :
  insertRows st row count parent = Some (b, st') →
  serializeTreeFromRootItem P (m_rootItem st')
    = serializeTreeFromRootItem P (m_rootItem st).
Proof.
  unfold insertRows.
  destruct (deref st (item st parent)) as [x|]; [|done]. simpl.
  destruct (bool_decide _); [|done].
  destruct (insertRows_loop _ _ x _) as [[x1 next]|]; [|done]. simpl.
  destruct (callOn _ _ _) as [r|] eqn:Hcall; [|done]. simpl.
  intros [= <- <-]. simpl.
  apply callOn_inv in Hcall as (x0 & x0' & _ & _ & ->).
  apply serializeTreeFromRootItem_elements.
  apply elementsOfItem_updateItem. intros y.
  destruct (insertRows_loop _ _ y _) as [res|] eqn:Hres; [|done].
  apply insertRows_loop_inv in Hres as ->. simpl.
  destruct (rowsInserted_spec (Z.to_nat count) row y (heap_next st))
    as (_ & _ & _ & Hd & Ht & _).
  split; [done|]. split; [done|]. apply rowsInserted_elements.
Qed.

Lemma rowsInserted_setChildren (count : nat) (row : Z) :
  ∀ x next,
    (rowsInserted count row x next).1
      = setChildren (m_children (rowsInserted count row x next).1) x.
Proof.
  induction count as [|count IH]; intros x next; simpl; [by destruct x|].
  by rewrite IH at 1.
Qed.

(** What [insertRows] leaves, told by the pointers: the object of the
    parent with its new children, and the placeholders. *)
Lemma insertRows_effect (st : State) (row count : Z) (parent : QModelIndex)
    (x : BookmarkItemBase) :
  TreeOfObjects st →
  deref st (item st parent) = Some x →
  (0 ≤ row)%Z → (0 ≤ count)%Z → (row + count - 1 ≤ Z.of_nat (childCount x))%Z →
  ∃ st' x',
    insertRows st row count parent = Some (true, st') ∧
    x' = (rowsInserted (Z.to_nat count) row x (heap_next st)).1 ∧
    m_rootItem st' = updateItem (this x)
                       (λ y, (rowsInserted (Z.to_nat count) row y (heap_next st)).1)
                       (m_rootItem st) ∧
    heap_next st' = (heap_next st + Z.to_nat count)%nat ∧
    m_saveTimer st' = m_saveTimer st ∧
    m_defaultModel st' = m_defaultModel st ∧ q_ptr st' = q_ptr st ∧
    clock st' = clock st ∧ files st' = files st ∧
    TreeOfObjects st' ∧
    item st' parent = item st parent ∧
    deref st' (item st parent) = Some x' ∧
    m_children x' =
      take (Z.to_nat row) (m_children x)
      ++ (placeholder x <$> reverse (seq (heap_next st) (Z.to_nat count)))
      ++ drop (Z.to_nat row) (m_children x) ∧
    (∀ a, a ∈ seq (heap_next st) (Z.to_nat count) →
          deref st' a = Some (placeholder x a)).
Proof.
  intros Hst Hx Hrow Hcount Hassert.
  pose proof (findItem_Some _ _ x Hx) as [Hsub Hthis].
  assert (Hrun : insertRows st row count parent = Some (true,
            set_rootItem
              (updateItem (this x)
                 (λ y, (rowsInserted (Z.to_nat count) row y (heap_next st)).1)
                 (m_rootItem st))
              (set_heap_next
                 (rowsInserted (Z.to_nat count) row x (heap_next st)).2 st))).
  { unfold insertRows. rewrite Hx. simpl.
    rewrite bool_decide_eq_true_2 by (by apply insertRows_assertion).
    assert (Hloop : ∀ y, Forall (λ k, (this k < heap_next st)%nat) (m_children y) →
              insertRows_loop (Z.to_nat count) row y (heap_next st)
              = Some (rowsInserted (Z.to_nat count) row y (heap_next st)))
      by (intros y; apply insertRows_loop_Some).
    pose proof (WellFormed_children _ _ _ _ (proj1 Hst) Hx) as Hkids.
    rewrite (Hloop x Hkids).
    destruct (rowsInserted (Z.to_nat count) row x (heap_next st))
      as [x1 next] eqn:Hx1. simpl.
    rewrite (callOn_Some _ _
               (λ y, (rowsInserted (Z.to_nat count) row y (heap_next st)).1)
               _ x); [done|apply Hst|by rewrite Hthis|].
    by rewrite (Hloop x Hkids), Hx1. }
  pose proof (insertRows_objects _ _ _ _ _ _ Hst Hrun) as Hst'.
  destruct (rowsInserted_spec (Z.to_nat count) row x (heap_next st))
    as (Hnext & H1 & H2 & _).
  set (x' := (rowsInserted (Z.to_nat count) row x (heap_next st)).1) in *.
  assert (Hkids : m_children x' =
      take (Z.to_nat row) (m_children x)
      ++ (placeholder x <$> reverse (seq (heap_next st) (Z.to_nat count)))
      ++ drop (Z.to_nat row) (m_children x)).
  { apply rowsInserted_children; [done|]. unfold childCount in *. lia. }
  assert (Hin : ∀ z, z ∈ subitems x' →
            findItem (this z)
              (updateItem (this x)
                 (λ y, (rowsInserted (Z.to_nat count) row y (heap_next st)).1)
                 (m_rootItem st)) = Some z).
  { intros z Hz.
    apply (findItem_updateItem_inside _ _ _ x); try done.
    - apply Hst.
    - by rewrite Hthis.
    - apply Hst'. }
  eexists _, x'. split; [exact Hrun|]. simpl.
  split_and!; try done.
  - apply item_same. simpl. 
    apply (updateItem_keeps (this x) _ (m_rootItem st) x); try done.
    by rewrite Hthis.
  - unfold deref. simpl. rewrite <- Hthis. rewrite <- H1 at 1.
    apply Hin, subitems_here.
  - intros a Ha. unfold deref. simpl.
    change a with (this (placeholder x a)) at 1. apply Hin.
    apply (subitems_child x' (placeholder x a)); [|apply subitems_here].
    rewrite Hkids. apply elem_of_app. right. apply elem_of_app. left.
    apply list_elem_of_fmap_2. by apply elem_of_reverse.
Qed.

(** X3.  [insertRows(row, count, parent)] puts [count] placeholders at
    [row]: items that are neither folder nor bookmark, without text and
    without children, which [data] calls folders.  It does not start the
    timer.  The assertion asks for [row + count - 1 <= rowCount(parent)], so
    that more than one row cannot be inserted behind the last. *)
Theorem insertRows_inserts_placeholders (P : Platform) (st : State)
    (row count : Z) (parent : QModelIndex) (x : BookmarkItemBase) :
  TreeOfObjects st →
  deref st (item st parent) = Some x →
  (0 ≤ row)%Z → (0 ≤ count)%Z → (row + count - 1 ≤ Z.of_nat (childCount x))%Z →
  ∃ st',
    insertRows st row count parent = Some (true, st') ∧
    rowCount st' parent = Some (Z.of_nat (childCount x) + count)%Z ∧
    m_saveTimer st' = m_saveTimer st ∧
    (∀ i, (row ≤ i < row + count)%Z →
       ∃ idx, index st' i 0 parent = Some idx ∧ isValid idx = true ∧
              isFolder st' idx = Some false ∧
              isBookmark st' idx = Some false ∧
              rowCount st' idx = Some 0%Z ∧
              BtBookmarksModel_data P st' idx DisplayRole
                = Some (StringVariant "") ∧
              BtBookmarksModel_data P st' idx TypeRole
                = Some (StringVariant "folder")).
Proof.
  intros Hst Hx Hrow Hcount Hassert.
  destruct (insertRows_effect st row count parent x Hst Hx Hrow Hcount Hassert)
    as (st' & x' & Hrun & _ & _ & _ & Htimer & _ & _ & _ & _ & _ & Hitem
        & Hx' & Hkids & Hnew).
  assert (Hlen : childCount x' = (childCount x + Z.to_nat count)%nat).
  { unfold childCount. rewrite Hkids.
    rewrite !length_app, length_fmap, length_reverse, length_seq.
    rewrite length_take, length_drop. lia. }
  exists st'. split; [done|]. split; [|split; [done|]].
  { unfold rowCount. rewrite Hitem, Hx'. simpl. f_equal. lia. }
  intros i Hi.
  assert (Hrowlen : (Z.to_nat row ≤ length (m_children x))%nat).
  { unfold childCount in Hassert. lia. }
  destruct (lookup_lt_is_Some_2
              (reverse (seq (heap_next st) (Z.to_nat count)))
              (Z.to_nat i - Z.to_nat row)) as [a Ha].
  { rewrite length_reverse, length_seq. lia. }
  assert (Hc : m_children x' !! Z.to_nat i = Some (placeholder x a)).
  { rewrite Hkids. rewrite lookup_app_r by (rewrite length_take; lia).
    rewrite length_take.
    replace (Z.to_nat row `min` length (m_children x))%nat with (Z.to_nat row)
      by lia.
    rewrite lookup_app_l by (rewrite length_fmap, length_reverse, length_seq; lia).
    rewrite list_lookup_fmap. unfold ptr in *. by rewrite Ha. }
  assert (Hderef : deref st' a = Some (placeholder x a)).
  { apply Hnew. apply elem_of_reverse. by apply list_elem_of_lookup_2 in Ha. }
  exists (Index i 0 a). split; [|split; [apply isValid_Index; lia|]].
  2:{ unfold isFolder, isBookmark, rowCount, BtBookmarksModel_data, isBookmark.
      rewrite item_Index by lia. by rewrite Hderef. }
  unfold index. rewrite Hitem, Hx'. simpl.
  rewrite !bool_decide_eq_true_2 by lia. simpl. by rewrite Hc.
Qed.

(** X5.  [removeRows] takes out what [insertRows] has put in: after
    [insertRows(row, count, parent)] and [removeRows(row, count, parent)]
    the tree is the one from before, and the timer of the default model has
    been started. *)
Theorem insertRows_then_removeRows (st : State) (row count : Z)
    (parent : QModelIndex) (x : BookmarkItemBase) :
  TreeOfObjects st →
  deref st (item st parent) = Some x →
  (0 ≤ row ≤ Z.of_nat (childCount x))%Z → (0 ≤ count)%Z →
  (row + count - 1 ≤ Z.of_nat (childCount x))%Z →
  ∃ st1 st2,
    insertRows st row count parent = Some (true, st1) ∧
    removeRows st1 row count parent = Some (true, st2) ∧
    m_rootItem st2 = m_rootItem st ∧
    m_saveTimer st2 = m_saveTimer (needSave st).
Proof.
  intros Hst Hx [Hrow Hrowlen] Hcount Hassert.
  destruct (insertRows_effect st row count parent x Hst Hx Hrow Hcount Hassert)
    as (st1 & x' & Hrun & Hx'def & Hroot1 & _ & Htimer & Hdefault & Hq & Hclock
        & _ & Hst1 & Hitem & Hx' & Hkids & _).
  pose proof (findItem_Some _ _ x Hx) as [Hsub Hthis].
  destruct (rowsInserted_spec (Z.to_nat count) row x (heap_next st))
    as (_ & H1 & _).
  rewrite <- Hx'def in H1. unfold childCount in Hrowlen.
  assert (Hlen : childCount x' = (childCount x + Z.to_nat count)%nat).
  { unfold childCount. rewrite Hkids.
    rewrite !length_app, length_fmap, length_reverse, length_seq.
    rewrite length_take, length_drop. lia. }
  assert (Hback : removeRows_loop (Z.to_nat count) row x' = Some x).
  { rewrite removeRows_loop_rows by (unfold childCount in *; lia). f_equal.
    rewrite Hkids.
    rewrite take_app_le by (rewrite length_take; lia).
    rewrite take_take, Nat.min_id.
    rewrite (assoc_L (++)).
    rewrite drop_app_ge
      by (rewrite length_app, length_take, length_fmap, length_reverse,
            length_seq; lia).
    rewrite length_app, length_take, length_fmap, length_reverse, length_seq.
    replace (Z.to_nat row + Z.to_nat count
             - (Z.to_nat row `min` length (m_children x) + Z.to_nat count))%nat
      with 0%nat by lia.
    rewrite drop_0, take_drop.
    rewrite Hx'def, rowsInserted_setChildren. by destruct x. }
  exists st1. eexists. split; [done|].
  unfold removeRows. rewrite Hitem, Hx'. simpl.
  rewrite bool_decide_eq_true_2
    by (apply removeRows_assertion; unfold childCount in *; lia).
  rewrite Hback. simpl.
  split; [reflexivity|]. rewrite needSave_set_rootItem. simpl.
  split.
  - rewrite Hroot1, H1.
    rewrite updateItem_twice
      by (intros y; by destruct (rowsInserted_spec (Z.to_nat count) row y
                                   (heap_next st)) as (_ & ? & _)).
    apply (updateItem_same _ _ _ x); [apply Hst|by rewrite Hthis|done].
  - unfold needSave. rewrite Hdefault, Hq, Htimer, Hclock.
    destruct (decide _); [|done]. by destruct (isActive _).
Qed.

(** ** New bookmarks and folders *)

(** One new object put below an object of the tree: what the pointers find
    afterwards, and the place [index()] finds the new item at. *)
Lemma childInserted_effect (st : State) (x c : BookmarkItemBase) (row : Z) :
  TreeOfObjects st → deref st (this x) = Some x →
  this c = heap_next st → m_children c = [] →
  let st1 := set_rootItem (updateItem (this x) (childInserted row c) (m_rootItem st))
                          (set_heap_next (S (heap_next st)) st) in
  TreeOfObjects st1 ∧
  deref st1 (this x) = Some (childInserted row c x) ∧
  deref st1 (heap_next st) = Some (setParent (Some (this x)) c) ∧
  BookmarkItemBase_index st1 (heap_next st)
    = Some (Z.of_nat (Z.to_nat row `min` childCount x)) ∧
  m_children (childInserted row c x) !! (Z.to_nat row `min` childCount x)%nat
    = Some (setParent (Some (this x)) c).
Proof.
  intros Hst Hx Hc Hkids st1.
  assert (Hst1 : TreeOfObjects st1).
  { unfold st1. change (childInserted row c) with (childrenInserted row [c]).
    apply (TreeOfObjects_childrenInserted st _ _ _ _ x); [done|lia|done|].
    by apply NewItems_leaf. }
  assert (Hin : ∀ z, z ∈ subitems (childInserted row c x) →
                     deref st1 (this z) = Some z).
  { intros z Hz. unfold deref, st1. simpl.
    apply (findItem_updateItem_inside _ _ _ x); try done; [apply Hst|apply Hst1]. }
  assert (Hplace : m_children (childInserted row c x)
                     !! (Z.to_nat row `min` childCount x)%nat
                   = Some (setParent (Some (this x)) c)).
  { simpl. unfold childCount.
    rewrite lookup_app_r by (rewrite length_take; lia).
    rewrite length_take. by rewrite Nat.sub_diag. }
  assert (Hnew : deref st1 (heap_next st) = Some (setParent (Some (this x)) c)).
  { rewrite <- Hc. change (this c) with (this (setParent (Some (this x)) c)).
    apply Hin. apply (subitems_child _ (setParent (Some (this x)) c));
      [|apply subitems_here].
    by apply list_elem_of_lookup_2 in Hplace. }
  assert (Hparent : deref st1 (this x) = Some (childInserted row c x)).
  { apply (Hin (childInserted row c x)), subitems_here. }
  split; [done|]. split; [done|]. split; [done|]. split; [|done].
  unfold BookmarkItemBase_index. rewrite Hnew. simpl. rewrite Hparent. simpl.
  match goal with |- context [list_find ?Q ?l] =>
    assert (Hfind : list_find Q l
              = Some ((Z.to_nat row `min` childCount x)%nat,
                      setParent (Some (this x)) c)) end.
  { apply list_find_Some. split; [exact Hplace|]. split; [done|].
    intros j y Hj Hlt Hy.
    rewrite lookup_app_l in Hj by (rewrite length_take; unfold childCount in *; lia).
    apply list_elem_of_lookup_2, elem_of_take in Hj as (j' & Hj%list_elem_of_lookup_2 & _).
    destruct Hst as [[_ Halloc _] _]. rewrite Forall_forall in Halloc.
    assert (heap_next st < heap_next st)%nat; [|lia].
    apply Halloc. apply findItem_Some in Hx as [Hsub _].
    apply (addresses_subitem _ x); [done|]. rewrite <- Hy.
    apply (addresses_subitem x y); [|apply list_elem_of_fmap_2, subitems_here].
    apply (subitems_child x y); [done|apply subitems_here]. }
  by rewrite Hfind.
Qed.

Lemma BookmarkItemBase_index_needSave (st : State) (a : ptr) :
  BookmarkItemBase_index (needSave st) a = BookmarkItemBase_index st a.
Proof.
  unfold BookmarkItemBase_index, deref.
  by destruct (needSave_tree st) as [-> _].
Qed.

Lemma needSave_set_heap_next (n : ptr) (st : State) :
  needSave (set_heap_next n st) = set_heap_next n (needSave st).
Proof.
  unfold needSave. simpl. destruct (decide _); [|done].
  by destruct (isActive _).
Qed.

(** What [addFolder] and [addBookmark] do with the new object [c]. *)
Lemma add_item_effect (st : State) (parent : QModelIndex)
    (x c : BookmarkItemBase) (row : Z) :
  TreeOfObjects st → deref st (item st parent) = Some x →
  this c = heap_next st → m_children c = [] →
  let st' := needSave (set_rootItem
                         (updateItem (this x) (childInserted row c) (m_rootItem st))
                         (set_heap_next (S (heap_next st)) st)) in
  let place := Z.of_nat (Z.to_nat row `min` childCount x) in
  let idx := Index place 0 (heap_next st) in
  (n ← BookmarkItemBase_index st' (heap_next st);
   Some (Index n 0 (heap_next st), st')) = Some (idx, st') ∧
  index st' place 0 parent = Some idx ∧
  deref st' (heap_next st) = Some (setParent (Some (this x)) c) ∧
  rowCount st' parent = Some (Z.of_nat (childCount x) + 1)%Z ∧
  m_saveTimer st' = m_saveTimer (needSave st).
Proof.
  intros Hst Hx Hc Hkids st' place idx.
  pose proof (findItem_Some _ _ x Hx) as [_ Hthis].
  rewrite <- Hthis in Hx.
  destruct (childInserted_effect st x c row Hst Hx Hc Hkids)
    as (Hst1 & Hparent & Hnew & Hindex & Hplace).
  assert (Hitem : item st' parent = this x).
  { transitivity (item st parent); [|done].
    unfold st'. rewrite item_needSave. apply item_same. simpl.
    apply (updateItem_keeps (this x) _ (m_rootItem st) x); done. }
  split_and!.
  - unfold st'. by rewrite BookmarkItemBase_index_needSave, Hindex.
  - unfold index. rewrite Hitem. unfold st'. rewrite deref_needSave, Hparent.
    simpl.
    assert (Hcount : childCount (childInserted row c x) = S (childCount x)).
    { unfold childCount. simpl. rewrite length_app, length_take. simpl.
      rewrite length_drop. lia. }
    unfold childCount in Hcount |- *. simpl in Hcount |- *. rewrite Hcount.
    unfold place. unfold childCount.
    rewrite !bool_decide_eq_true_2 by lia.
    simpl. rewrite Nat2Z.id. simpl in Hplace. unfold childCount in Hplace.
    rewrite Hplace. simpl. by rewrite Hc.
  - unfold st'. by rewrite deref_needSave.
  - unfold rowCount. rewrite Hitem. unfold st'. rewrite deref_needSave, Hparent.
    simpl. f_equal. unfold childCount. simpl.
    rewrite length_app, length_take. simpl. rewrite length_drop. lia.
  - unfold st'. by rewrite needSave_set_rootItem, needSave_set_heap_next.
Qed.

(** X6.  [addFolder] below a folder adds a folder with the name given, or
    with the translation of "New folder" for the empty name, and returns
    its index; the folder stands at [row], first for a negative [row] and
    last for a [row] past the end, and the timer of the default model is
    started.  Below an item that is no folder nothing is added and nothing
    is to be saved. *)
Theorem addFolder_adds (P : Platform) (st : State) (row : Z)
    (parent : QModelIndex) (name : string) (x : BookmarkItemBase) :
  TreeOfObjects st → deref st (item st parent) = Some x →
  (isFolderItem x = false →
   addFolder P st row parent name = Some (InvalidIndex, st)) ∧
  (isFolderItem x = true →
   ∃ st',
     let place := Z.of_nat (Z.to_nat row `min` childCount x) in
     let idx := Index place 0 (heap_next st) in
     addFolder P st row parent name = Some (idx, st') ∧
     index st' place 0 parent = Some idx ∧
     isFolder st' idx = Some true ∧
     rowCount st' idx = Some 0%Z ∧
     BtBookmarksModel_data P st' idx DisplayRole
       = Some (StringVariant (if decide (name = "") then tr P "New folder"
                              else name)) ∧
     rowCount st' parent = Some (Z.of_nat (childCount x) + 1)%Z ∧
     m_saveTimer st' = m_saveTimer (needSave st)).
Proof.
  intros Hst Hx. unfold addFolder. rewrite Hx. simpl.
  split; intros Hfolder; rewrite Hfolder; [done|].
  set (c := BookmarkFolder_new (heap_next st)
              (if decide (name = "") then tr P "New folder" else name) None).
  pose proof (findItem_Some _ _ x Hx) as [_ Hthis].
  rewrite (callOn_insertChild_new (heap_next st) (this x) row c _ x (proj1 Hst));
    [|by rewrite Hthis|done].
  cbn [mbind option_bind].
  destruct (add_item_effect st parent x c row Hst Hx eq_refl eq_refl)
    as (Hrun & Hindex & Hnew & Hrows & Htimer).
  eexists. split; [exact Hrun|]. split; [exact Hindex|].
  unfold isFolder, rowCount, BtBookmarksModel_data.
  rewrite !item_Index by lia. rewrite Hnew. done.
Qed.

(** X7.  [addBookmark] below a folder adds a bookmark of the module, with
    the description given and with the header of the key and the module
    name for its text, whatever [title] is, and returns its index; the
    bookmark stands at [row], and a negative [row] counts from behind the
    last item, so that -1 appends.  Below an item that is no folder nothing
    is added and nothing is to be saved. *)
Theorem addBookmark_adds (P : Platform) (st : State) (row : Z)
    (parent : QModelIndex) (module : CSwordModuleInfo)
    (key description title : string) (x : BookmarkItemBase) (place : Z) :
  TreeOfObjects st → deref st (item st parent) = Some x →
  ((0 ≤ row ≤ Z.of_nat (childCount x))%Z ∧ place = row)
    ∨ ((- Z.of_nat (childCount x) - 1 ≤ row < 0)%Z
       ∧ place = (Z.of_nat (childCount x) + 1 + row)%Z) →
  (isFolderItem x = false →
   addBookmark P st row parent module key description title
     = Some (InvalidIndex, st)) ∧
  (isFolderItem x = true →
   ∃ st',
     let idx := Index place 0 (heap_next st) in
     addBookmark P st row parent module key description title
       = Some (idx, st') ∧
     (∀ title', addBookmark P st row parent module key description title'
                = Some (idx, st')) ∧
     index st' place 0 parent = Some idx ∧
     isBookmark st' idx = Some true ∧
     rowCount st' idx = Some 0%Z ∧
     BtBookmarksModel_data P st' idx DisplayRole
       = Some (StringVariant (toHeader key (mod_name module))) ∧
     BtBookmarksModel_description st' idx = Some description ∧
     BtBookmarksModel_module P st' idx
       = Some (findModuleByName P (mod_name module)) ∧
     rowCount st' parent = Some (Z.of_nat (childCount x) + 1)%Z ∧
     m_saveTimer st' = m_saveTimer (needSave st)).
Proof.
  intros Hst Hx Hplace. unfold addBookmark. rewrite Hx. simpl.
  split; intros Hfolder; rewrite Hfolder; [done|].
  set (r := if bool_decide (row < 0)%Z
            then (row + Z.of_nat (childCount x) + 1)%Z else row).
  assert (Hr : place = Z.of_nat (Z.to_nat r `min` childCount x)).
  { unfold r. destruct Hplace as [[Hrow ->]|[Hrow ->]].
    - rewrite bool_decide_eq_false_2 by lia. lia.
    - rewrite bool_decide_eq_true_2 by lia. lia. }
  set (c := BookmarkItem_of P (heap_next st) module key description title).
  pose proof (findItem_Some _ _ x Hx) as [_ Hthis].
  rewrite (callOn_insertChild_new (heap_next st) (this x) r c _ x (proj1 Hst));
    [|by rewrite Hthis|done].
  cbn [mbind option_bind].
  destruct (add_item_effect st parent x c r Hst Hx eq_refl eq_refl)
    as (Hrun & Hindex & Hnew & Hrows & Htimer).
  rewrite <- Hr in Hrun, Hindex.
  eexists. split; [exact Hrun|]. split.
  { intros title'.
    change (BookmarkItem_of P (heap_next st) module key description title')
      with c.
    rewrite (callOn_insertChild_new (heap_next st) (this x) r c _ x (proj1 Hst));
      [exact Hrun|by rewrite Hthis|done]. }
  split; [exact Hindex|].
  unfold isBookmark, rowCount, BtBookmarksModel_data,
    BtBookmarksModel_description, BtBookmarksModel_module.
  rewrite !item_Index by lia. rewrite Hnew. done.
Qed.

(** ** parent and index *)

(** What [index] gives when the index is valid: the child at [row]. *)
Lemma index_valid (st : State) (row column : Z) (par idx : QModelIndex) :
  index st row column par = Some idx → isValid idx = true →
  ∃ x c, deref st (item st par) = Some x ∧
         (0 ≤ row)%Z ∧ m_children x !! Z.to_nat row = Some c ∧
         idx = Index row column (this c).
Proof.
  unfold index. destruct (deref st (item st par)) as [x|]; [|done]. simpl.
  destruct (bool_decide_reflect (row < Z.of_nat (childCount x))%Z); simpl;
    [|by intros [= <-]].
  destruct (bool_decide_reflect (0 ≤ row)%Z); simpl; [|by intros [= <-]].
  destruct (m_children x !! Z.to_nat row) as [c|] eqn:Hc; [|done]. simpl.
  intros [= <-] _. by exists x, c.
Qed.

(** The place [index()] finds a child at, in a tree of objects. *)
Lemma BookmarkItemBase_index_child (st : State) (x c : BookmarkItemBase)
    (i : nat) :
  TreeOfObjects st → x ∈ subitems (m_rootItem st) →
  m_children x !! i = Some c →
  deref st (this c) = Some c ∧ m_parent c = Some (this x) ∧
  BookmarkItemBase_index st (this c) = Some (Z.of_nat i).
Proof.
  intros [[Hnd _ Hagree] _] Hx Hc.
  pose proof (list_elem_of_lookup_2 _ _ _ Hc) as Hin.
  assert (Hderef : deref st (this c) = Some c).
  { apply findItem_subitem; [done|].
    apply (subitems_trans _ x); [done|].
    apply (subitems_child x c); [done|apply subitems_here]. }
  assert (Hparent : m_parent c = Some (this x)).
  { pose proof (parentsAgree_subitem _ x Hagree Hx) as Hax.
    apply parentsAgree_Forall in Hax. rewrite Forall_forall in Hax.
    by apply Hax. }
  split; [done|]. split; [done|].
  unfold BookmarkItemBase_index. rewrite Hderef. simpl. rewrite Hparent. simpl.
  unfold deref. rewrite (findItem_subitem _ x Hnd Hx). simpl.
  match goal with |- context [list_find ?Q ?l] =>
    assert (Hfind : list_find Q l = Some (i, c)) end.
  { apply list_find_Some. split; [done|]. split; [done|].
    intros j y Hj Hlt Hy.
    pose proof (NoDup_addresses_subitem _ x Hnd Hx) as Hndx.
    apply NoDup_addresses_inv in Hndx as [_ Hkids].
    rewrite <- (take_drop_middle _ _ _ Hc), fmap_app, join_app in Hkids.
    apply NoDup_app in Hkids as (_ & Hdisj & _).
    apply (Hdisj (this c)).
    - rewrite <- Hy. apply list_elem_of_join. exists (addresses y).
      split; [apply list_elem_of_fmap_2, subitems_here|].
      apply list_elem_of_fmap_2. apply elem_of_take. by exists j.
    - csimpl. apply elem_of_app. left. apply list_elem_of_fmap_2, subitems_here. }
  by rewrite Hfind.
Qed.

(** An index of the model stands for an object of the tree. *)
Lemma ModelIndex_deref (st : State) (idx : QModelIndex) :
  TreeOfObjects st → ModelIndex st idx →
  ∃ x, deref st (item st idx) = Some x ∧ x ∈ subitems (m_rootItem st).
Proof.
  intros Hst Hidx. destruct Hidx as [|row par idx _ Hindex Hvalid].
  - exists (m_rootItem st). split; [apply findItem_here|apply subitems_here].
  - destruct (index_valid _ _ _ _ _ Hindex Hvalid) as (x & c & Hx & _ & Hc & ->).
    apply findItem_Some in Hx as [Hx _].
    destruct (BookmarkItemBase_index_child st x c _ Hst Hx Hc) as (Hderef & _).
    exists c. split; [unfold item; by rewrite Hvalid|].
    by apply findItem_Some in Hderef as [? _].
Qed.

(** X8.  [parent(index(row, column, par))] is [par], for the indexes the
    model hands out for its one column and a tree of objects. *)
Theorem parent_of_index (st : State) (row column : Z)
    (par idx : QModelIndex) :
  TreeOfObjects st → ModelIndex st par →
  index st row column par = Some idx → isValid idx = true →
  BtBookmarksModel_parent st idx = Some par.
Proof.
  intros Hst Hpar Hindex Hvalid.
  destruct (index_valid _ _ _ _ _ Hindex Hvalid) as (x & c & Hx & _ & Hc & ->).
  pose proof (findItem_Some _ _ x Hx) as [Hsub Hthis].
  destruct (BookmarkItemBase_index_child st x c _ Hst Hsub Hc)
    as (Hderef & Hparent & _).
  unfold BtBookmarksModel_parent. unfold item at 1. rewrite Hvalid, Hderef.
  simpl. rewrite Hparent, Hthis, Hx. simpl.
  destruct Hpar as [|row' par' par _ Hindex' Hvalid'].
  - unfold deref in Hx. simpl in Hx. rewrite findItem_here in Hx.
    injection Hx as <-.
    destruct Hst as [_ Hroot]. by rewrite Hroot.
  - destruct (index_valid _ _ _ _ _ Hindex' Hvalid')
      as (x' & c' & Hx' & Hrow' & Hc' & ->).
    rewrite (item_Index st row' 0 (this c')) in Hx, Hthis |- * by lia.
    pose proof (findItem_Some _ _ x' Hx') as [Hsub' _].
    destruct (BookmarkItemBase_index_child st x' c' _ Hst Hsub' Hc')
      as (Hderef' & Hparent' & Hplace').
    assert (x = c') as -> by (unfold deref in *; congruence).
    rewrite Hparent', Hplace'. simpl. do 2 f_equal. lia.
Qed.

(** ** What the views read and write *)

Lemma setChildren_same (y : BookmarkItemBase) : setChildren (m_children y) y = y.
Proof. by destruct y. Qed.

(** A change of the fields of an object other than its address and its
    children: the pointer finds the changed object, and another pointer
    finds the object it found, with the fields it had. *)
Lemma deref_fields (st : State) (a : ptr)
    (f : BookmarkItemBase → BookmarkItemBase) (x : BookmarkItemBase) :
  NoDup (addresses (m_rootItem st)) → deref st a = Some x →
  this (f x) = this x → m_children (f x) = m_children x →
  let st' := set_rootItem (updateItem a f (m_rootItem st)) st in
  this (m_rootItem st') = this (m_rootItem st) ∧
  deref st' a = Some (f x) ∧
  ∀ b y, b ≠ a → deref st b = Some y →
    ∃ y', deref st' b = Some y' ∧ y' = setChildren (m_children y') y.
Proof.
  intros Hnd Hx Hthis Hkids st'.
  pose proof (findItem_Some _ _ x Hx) as [Hsub Ha].
  assert (Haddr : addresses (f x) = addresses x).
  { by rewrite !addresses_unfold, Hthis, Hkids. }
  assert (Hnd' : NoDup (addresses (updateItem a f (m_rootItem st)))).
  { apply (NoDup_updateItem a f _ x); try done.
    - rewrite Haddr. by apply (NoDup_addresses_subitem (m_rootItem st)).
    - intros b Hb. left. by rewrite <- Haddr. }
  split; [|split].
  - simpl. rewrite updateItem_unfold. destruct (decide _) as [Hroot|]; [|done].
    unfold deref in Hx. rewrite <- Hroot, findItem_here in Hx.
    by injection Hx as <-.
  - unfold deref. simpl. subst a. rewrite <- Hthis at 1.
    apply (findItem_updateItem_inside _ _ _ x); try done.
    apply subitems_here.
  - intros b y Hb Hy. unfold deref. simpl.
    destruct (decide (b ∈ addresses x)) as [Hin|Hout].
    + exists y. split; [|by rewrite setChildren_same].
      pose proof (findItem_Some _ _ y Hy) as [_ Hby]. rewrite <- Hby.
      apply (findItem_updateItem_inside _ _ _ x); try done.
      rewrite subitems_unfold, Hkids.
      apply list_elem_of_fmap in Hin as (z & Hz & Hzx).
      assert (z = y) as ->.
      { pose proof (findItem_subitem _ z Hnd (subitems_trans _ x z Hsub Hzx)) as Hfz.
        unfold deref in Hy. congruence. }
      rewrite subitems_unfold in Hzx. apply elem_of_cons in Hzx as [->|Hzx].
      * congruence.
      * by apply elem_of_cons; right.
    + exists (updateItem a f y).
      split; [by apply (findItem_updateItem_outside _ _ _ _ x)|].
      rewrite updateItem_unfold. apply findItem_Some in Hy as [_ Hby].
      by rewrite decide_False by congruence.
Qed.

(** What [data] tells of an item does not depend on its children. *)
Lemma data_fields (P : Platform) (st st' : State) (index index' : QModelIndex)
    (y y' : BookmarkItemBase) (role : ItemDataRole) :
  deref st (item st index) = Some y →
  deref st' (item st' index') = Some y' →
  y' = setChildren (m_children y') y →
  BtBookmarksModel_data P st' index' role = BtBookmarksModel_data P st index role.
Proof.
  intros Hy Hy' Heq. unfold BtBookmarksModel_data, isBookmark.
  rewrite Hy, Hy'. simpl. rewrite Heq. by destruct role.
Qed.

(** X9.  After [setData] with a text, for the edit role or the display
    role, [data] gives that text for the item and what it gave before for
    every other item; the timer of the default model is started if the item
    is a folder or a bookmark. *)
Theorem setData_then_data (P : Platform) (st : State) (index : QModelIndex)
    (val : string) (x : BookmarkItemBase) :
  NoDup (addresses (m_rootItem st)) →
  deref st (item st index) = Some x →
  ∃ st',
    setData st index val EditRole = Some (true, st') ∧
    setData st index val DisplayRole = Some (true, st') ∧
    BtBookmarksModel_data P st' index DisplayRole = Some (StringVariant val) ∧
    BtBookmarksModel_data P st' index EditRole = Some (StringVariant val) ∧
    (∀ other role,
       item st other ≠ item st index → is_Some (deref st (item st other)) →
       BtBookmarksModel_data P st' other role
         = BtBookmarksModel_data P st other role) ∧
    m_saveTimer st' =
      m_saveTimer (if isFolderItem x || isBookmarkItem x then needSave st
                   else st).
Proof.
  intros Hnd Hx. pose proof (findItem_Some _ _ x Hx) as [_ Hthis].
  destruct (deref_fields st (item st index) (setText val) x Hnd Hx eq_refl eq_refl)
    as (Hroot & Hnew & Hframe).
  set (st1 := set_rootItem
                (updateItem (item st index) (setText val) (m_rootItem st)) st)
    in *.
  set (st' := if isFolderItem x || isBookmarkItem x then needSave st1 else st1).
  assert (Hderef : ∀ a, deref st' a = deref st1 a).
  { intros a. unfold st'. destruct (_ || _); [apply deref_needSave|done]. }
  assert (Hitem : ∀ i, item st' i = item st i).
  { intros i. transitivity (item st1 i); [|by apply item_same].
    unfold st'. destruct (_ || _); [apply item_needSave|done]. }
  exists st'.
  assert (Hrun : setData st index val EditRole = Some (true, st')).
  { unfold setData. rewrite Hx. simpl. by rewrite Hthis. }
  split; [done|]. split; [done|].
  assert (Hdata : ∀ role, role = DisplayRole ∨ role = EditRole →
            BtBookmarksModel_data P st' index role = Some (StringVariant val)).
  { intros role Hrole. unfold BtBookmarksModel_data.
    rewrite Hitem, Hderef, Hnew. simpl. by destruct Hrole as [-> | ->]. }
  split; [by apply Hdata; left|]. split; [by apply Hdata; right|]. split.
  - intros other role Hother [y Hy].
    destruct (Hframe _ y Hother Hy) as (y' & Hy' & Heq).
    apply (data_fields P st st' other other y y'); try done.
    by rewrite Hitem, Hderef.
  - unfold st'. destruct (_ || _); [|done].
    unfold st1. by rewrite needSave_set_rootItem.
Qed.

(** X10.  A tool tip set with [setData] is what [data] gives for an item
    that is no bookmark; a bookmark shows the tool tip made of its header
    and its description as before.  The text [save] would write is not
    changed. *)
Theorem setData_tooltip (P : Platform) (st : State) (index : QModelIndex)
    (val : string) (x : BookmarkItemBase) :
  NoDup (addresses (m_rootItem st)) →
  deref st (item st index) = Some x →
  ∃ st',
    setData st index val ToolTipRole = Some (true, st') ∧
    BtBookmarksModel_data P st' index ToolTipRole
      = Some (StringVariant (if isBookmarkItem x then toolTip P x else val)) ∧
    serializeTreeFromRootItem P (m_rootItem st')
      = serializeTreeFromRootItem P (m_rootItem st).
Proof.
  intros Hnd Hx. pose proof (findItem_Some _ _ x Hx) as [_ Hthis].
  destruct (deref_fields st (item st index) (setToolTip val) x Hnd Hx
              eq_refl eq_refl) as (Hroot & Hnew & _).
  set (st1 := set_rootItem
                (updateItem (item st index) (setToolTip val) (m_rootItem st)) st)
    in *.
  set (st' := if isFolderItem x || isBookmarkItem x then needSave st1 else st1).
  assert (Hderef : ∀ a, deref st' a = deref st1 a).
  { intros a. unfold st'. destruct (_ || _); [apply deref_needSave|done]. }
  assert (Hitem : ∀ i, item st' i = item st i).
  { intros i. transitivity (item st1 i); [|by apply item_same].
    unfold st'. destruct (_ || _); [apply item_needSave|done]. }
  assert (Htree : m_rootItem st' = m_rootItem st1).
  { unfold st'. destruct (_ || _); [apply needSave_tree|done]. }
  exists st'. split; [|split].
  - unfold setData. rewrite Hx. simpl. by rewrite Hthis.
  - unfold BtBookmarksModel_data. rewrite Hitem, Hderef, Hnew. simpl.
    do 2 f_equal. unfold toolTip, isBookmarkItem. simpl.
    by destruct (derived x).
  - rewrite Htree. apply serializeTreeFromRootItem_elements.
    by apply elementsOfItem_updateItem.
Qed.

(** X11.  [setDescription] of the model changes the description of a
    bookmark, which [description] gives afterwards, and starts the timer of
    the default model; the key and the text shown stay.  On an item that is
    no bookmark it does nothing. *)
Theorem setDescription_then_description (P : Platform) (st : State)
    (index : QModelIndex) (text : string) (x : BookmarkItemBase) :
  NoDup (addresses (m_rootItem st)) →
  deref st (item st index) = Some x →
  (isBookmarkItem x = false →
   BtBookmarksModel_setDescription st index text = Some st ∧
   BtBookmarksModel_description st index = Some "") ∧
  (isBookmarkItem x = true →
   ∃ st',
     BtBookmarksModel_setDescription st index text = Some st' ∧
     BtBookmarksModel_description st' index = Some text ∧
     BtBookmarksModel_key P st' index = BtBookmarksModel_key P st index ∧
     BtBookmarksModel_data P st' index DisplayRole
       = BtBookmarksModel_data P st index DisplayRole ∧
     m_saveTimer st' = m_saveTimer (needSave st)).
Proof.
  intros Hnd Hx. pose proof (findItem_Some _ _ x Hx) as [_ Hthis].
  unfold BtBookmarksModel_setDescription, BtBookmarksModel_description.
  rewrite Hx. simpl. split; intros Hb; rewrite Hb; [done|].
  destruct (setDescription_keeps text x) as (K1 & _ & K3).
  destruct (deref_fields st (item st index) (setDescription text) x Hnd Hx K1 K3)
    as (Hroot & Hnew & _).
  rewrite Hthis. eexists. split; [reflexivity|].
  rewrite item_needSave, deref_needSave.
  unfold BtBookmarksModel_key, BtBookmarksModel_data.
  rewrite !item_needSave, !deref_needSave.
  rewrite (item_same st _ index Hroot), Hnew, Hx. simpl.
  assert (Hd : ∃ k d m, derived x = BookmarkData k d m).
  { unfold isBookmarkItem in Hb. destruct (derived x); try done. by eexists _, _, _. }
  destruct Hd as (k & d & m & Hd).
  unfold isBookmarkItem, description, key, module, moduleName, englishKey,
    setDescription. rewrite Hd. simpl.
  split; [done|]. split; [done|]. split; [done|].
  by rewrite needSave_set_rootItem.
Qed.

(** ** The life of a model *)

Lemma needSave_other (st : State) :
  m_defaultModel st ≠ Some (q_ptr st) → needSave st = st.
Proof. intros Hother. unfold needSave. by rewrite decide_False. Qed.

Lemma sortFolder_other (P : Platform) (order : SortOrder) (parents : list ptr) :
  ∀ st, m_defaultModel st ≠ Some (q_ptr st) →
    m_saveTimer (foldl (sortFolder P order) st parents) = m_saveTimer st.
Proof.
  induction parents as [|f parents IH]; intros st Hother; [done|]. simpl.
  unfold sortFolder at 2. rewrite needSave_other by done.
  by rewrite IH.
Qed.

(** X12.  A model that is not the default model never starts its timer:
    none of the operations that call [needSave()] changes the timer. *)
Theorem other_models_never_save (P : Platform) (st : State) :
  m_defaultModel st ≠ Some (q_ptr st) →
  (∀ index val role b st',
     setData st index val role = Some (b, st') →
     m_saveTimer st' = m_saveTimer st) ∧
  (∀ row count parent b st',
     removeRows st row count parent = Some (b, st') →
     m_saveTimer st' = m_saveTimer st) ∧
  (∀ index text st',
     BtBookmarksModel_setDescription st index text = Some st' →
     m_saveTimer st' = m_saveTimer st) ∧
  (∀ row parent name index st',
     addFolder P st row parent name = Some (index, st') →
     m_saveTimer st' = m_saveTimer st) ∧
  (∀ row parent module key description title index st',
     addBookmark P st row parent module key description title
       = Some (index, st') →
     m_saveTimer st' = m_saveTimer st) ∧
  (∀ row parent toCopy result st',
     copyItems P st row parent toCopy = Some (result, st') →
     m_saveTimer st' = m_saveTimer st) ∧
  (∀ parent order st',
     sortItems P st parent order = Some st' →
     m_saveTimer st' = m_saveTimer st).
Proof.
  intros Hother. split_and!.
  - intros index val role b st'. unfold setData.
    destruct (deref st (item st index)) as [x|]; [|done]. simpl.
    destruct role; intros [= <- <-]; try done;
      destruct (_ || _); try done; by rewrite needSave_other.
  - intros row count parent b st'. unfold removeRows.
    destruct (deref st (item st parent)) as [x|]; [|done]. simpl.
    destruct (bool_decide _); [|done].
    destruct (removeRows_loop _ _ _); [|done]. simpl. intros [= <- <-].
    by rewrite needSave_other.
  - intros index text st'. unfold BtBookmarksModel_setDescription.
    destruct (deref st (item st index)) as [x|]; [|done]. simpl.
    destruct (isBookmarkItem x); intros [= <-]; [|done].
    by rewrite needSave_other.
  - intros row parent name index st'. unfold addFolder.
    destruct (deref st (item st parent)) as [x|]; [|done]. simpl.
    destruct (isFolderItem x); [|by intros [= <- <-]].
    destruct (callOn _ _ _) as [root|]; [|done]. simpl.
    rewrite needSave_other by done.
    destruct (BookmarkItemBase_index _ _); [|done]. by intros [= <- <-].
  - intros row parent module key description title index st'. unfold addBookmark.
    destruct (deref st (item st parent)) as [x|]; [|done]. simpl.
    destruct (isFolderItem x); [|by intros [= <- <-]].
    destruct (callOn _ _ _) as [root|]; [|done]. simpl.
    rewrite needSave_other by done.
    destruct (BookmarkItemBase_index _ _); [|done]. by intros [= <- <-].
  - intros row parent toCopy result st'. unfold copyItems.
    destruct (copyItems_loop _ _ _ _ _ _) as [s|]; [|done]. simpl.
    destruct (if negb (bookmarksOnly s) && _ then _ else _) as [s2|]; [|done].
    simpl. destruct (_ || _); [by intros [= <- <-]|].
    destruct (callOn _ _ _) as [r|]; [|done]. simpl.
    rewrite needSave_other by done.
    destruct (mapM _ _); [|done]. by intros [= <- <-].
  - intros parent order st'. unfold sortItems.
    destruct (deref st (item st parent)) as [x|]; [|done]. simpl.
    destruct (isFolderItem x); intros [= <-]; [|done].
    by apply sortFolder_other.
Qed.

(** X13.  After a change of the default model at [t1], whenever the event
    loop comes round next and the model is then destroyed, the tree has
    been written to the default file, once: by the timer if it had run
    out, and by the destructor if not. *)
Theorem pending_change_saved_once (P : Platform) (st : State) (t1 t : Z) :
  DefaultStoreAtRest st → (t1 ≤ t)%Z →
  ∃ s1 s2,
    processEvents P t (needSave (set_clock t1 st)) = Some s1 ∧
    BtBookmarksModel_delete P s1 = Some s2 ∧
    written s2 =
      (defaultBookmarksFile P, serializeTreeFromRootItem P (m_rootItem st))
        :: written st ∧
    files s2 !! defaultBookmarksFile P
      = Some (Readable (serializeTreeFromRootItem P (m_rootItem st))).
Proof.
  intros [Hdefault Hinterval Hsingle Hconn Hinactive] Ht.
  assert (Hdirty : needSave (set_clock t1 st)
                   = set_saveTimer (timer_start t1 (m_saveTimer st))
                                   (set_clock t1 st)).
  { unfold needSave. simpl. rewrite decide_True by done.
    unfold isActive. simpl. rewrite Hinactive.
    by rewrite bool_decide_eq_false_2 by (by intros [? ?]). }
  rewrite Hdirty. unfold processEvents. simpl. rewrite Hinterval.
  assert (Hroot : ∀ s, m_rootItem s = m_rootItem st →
            deref s (item s InvalidIndex) = Some (m_rootItem st)).
  { intros s Hs. unfold deref. simpl. rewrite Hs. apply findItem_here. }
  destruct (bool_decide_reflect (t1 + 30000 ≤ t)%Z) as [Hout|Hrunning].
  - rewrite Hsingle. simpl. rewrite Hconn. simpl. unfold slotSave, save.
    rewrite Hroot by done. simpl.
    eexists. eexists. split; [reflexivity|].
    unfold BtBookmarksModel_delete. simpl. split; [reflexivity|]. simpl.
    split; [done|]. unfold sourceName. rewrite decide_True by done.
    apply lookup_insert_eq.
  - eexists. eexists. split; [reflexivity|].
    unfold BtBookmarksModel_delete, save. simpl.
    rewrite Hroot by done. simpl. split; [reflexivity|]. simpl.
    split; [done|]. unfold sourceName. rewrite decide_True by done.
    apply lookup_insert_eq.
Qed.

(** X14.  A process has one default model for good: the destructor does
    not take the model out of [m_defaultModel], and once a model has been
    made as the default one, also after it has been destroyed, making
    another fails the assertion of [load]. *)
Theorem default_model_only_once (P : Platform) (q : nat)
    (defaultModel : option nat) (next : ptr) (fs : gmap string QFile)
    (now : Z) (st st' : State) :
  BtBookmarksModel_new P q defaultModel next fs now = Some st →
  BtBookmarksModel_delete P st = Some st' →
  defaultModel = None ∧
  m_defaultModel st = Some q ∧ m_defaultModel st' = Some q ∧
  ∀ q' next' fs' now',
    BtBookmarksModel_new P q' (m_defaultModel st') next' fs' now' = None.
Proof.
  unfold BtBookmarksModel_new at 1, load. simpl.
  destruct (loadTree P fs "" (S next)) as [items n]. simpl.
  destruct defaultModel as [m|]; [done|]. simpl.
  intros Hnew Hdelete.
  assert (Hst : m_defaultModel st = Some q).
  { destruct (bool_decide (length items = 0)); simpl in Hnew.
    - by injection Hnew as <-.
    - unfold deref in Hnew. simpl in Hnew.
      destruct (findItem _ _); [|done]. simpl in Hnew.
      destruct (mapM id items); [|done]. simpl in Hnew.
      destruct (callOn _ _ _); [|done]. simpl in Hnew. by injection Hnew as <-. }
  assert (Hst' : m_defaultModel st' = Some q).
  { unfold BtBookmarksModel_delete, save in Hdelete.
    destruct (isActive (m_saveTimer st)); [|by injection Hdelete as <-].
    destruct (deref st (item st InvalidIndex)); [|done]. simpl in Hdelete.
    injection Hdelete as <-. by destruct (isActive _). }
  split; [done|]. split; [done|]. split; [done|].
  intros q' next' fs' now'. rewrite Hst'.
  unfold BtBookmarksModel_new, load. simpl.
  by destruct (loadTree P fs' "" (S next')).
Qed.

(** ** Saving and loading again *)

Lemma mapM_id_Some {A : Type} (l : list A) : mapM id (Some <$> l) = Some l.
Proof. apply mapM_Some. induction l; by constructor. Qed.

Lemma content_setParent (p : option ptr) (x : BookmarkItemBase) :
  content (setParent p x) = content x.
Proof. by destruct x. Qed.

(** X15.  What [save] has written to a named file, a model made afterwards
    from that file holds: the folders with their captions and the bookmarks
    with key, description, module name and title, in their order.  The tree
    saved is one of folders and of bookmarks with a text, and Qt reads from
    the text the document it was written from. *)
Theorem save_then_load (P : Platform) (st : State) (fileName : string)
    (q : nat) (next : ptr) (now : Z) :
  Forall (λ x, titledTree x = true) (m_children (m_rootItem st)) →
  setContent P (serializeTreeFromRootItem P (m_rootItem st))
    = documentOfRootItem P (m_rootItem st) →
  fileName ≠ "" →
  ∃ st1 st2,
    save P st fileName InvalidIndex = Some (true, st1) ∧
    BtBookmarksModel_new_from P fileName q (m_defaultModel st1) next
      (files st1) now = Some st2 ∧
    content <$> m_children (m_rootItem st2)
      = content <$> m_children (m_rootItem st).
Proof.
  intros Htitled Hread Hname.
  set (text := serializeTreeFromRootItem P (m_rootItem st)) in *.
  assert (Hsave : save P st fileName InvalidIndex
            = Some (true,
                    let s := savePlainFile fileName text st in
                    if isActive (m_saveTimer s)
                    then set_saveTimer (timer_stop (m_saveTimer s)) s else s)).
  { unfold save, deref. simpl. rewrite findItem_here. simpl.
    unfold sourceName. by rewrite decide_False. }
  set (st1 := let s := savePlainFile fileName text st in
              if isActive (m_saveTimer s)
              then set_saveTimer (timer_stop (m_saveTimer s)) s else s) in *.
  assert (Hfiles : files st1 = <[fileName := Readable text]> (files st)).
  { unfold st1. simpl. by destruct (isActive _). }
  destruct (loadTree_loop_decodes P (m_children (m_rootItem st)) Htitled (S next))
    as (ys & n & Hloop & Hcontent).
  assert (Hitems : loadTree P (files st1) fileName (S next) = (Some <$> ys, n)).
  { unfold loadTree, loadXmlFromFile, sourceName.
    rewrite decide_False by done. rewrite Hfiles, lookup_insert_eq.
    rewrite Hread, documentOfRootItem_element. simpl. done. }
  exists st1. unfold BtBookmarksModel_new_from, load. simpl.
  rewrite Hitems. simpl.
  rewrite (bool_decide_eq_false_2 (fileName = "")) by done. simpl.
  destruct ys as [|y ys].
  { simpl. eexists. split; [done|]. split; [reflexivity|]. simpl.
    by rewrite <- Hcontent. }
  rewrite bool_decide_eq_false_2 by done.
  unfold deref. simpl.
  set (root := BookmarkFolder_new next "Root" None).
  pose proof (findItem_here root) as Hroot.
  simpl in Hroot. rewrite Hroot. simpl.
  change (mapM id (Some y :: (Some <$> ys))) with (mapM id (Some <$> y :: ys)).
  rewrite mapM_id_Some. cbn [mbind option_bind mret option_ret].
  assert (Hcall : callOn next
            (insertChildren (Z.of_nat (childCount root)) (y :: ys)) root
          = Some (updateItem next
                    (childrenInserted (Z.of_nat (childCount root)) (y :: ys))
                    root)).
  { destruct (loadTree_new P _ _ _ _ _ (y :: ys) Hitems (mapM_id_Some _))
      as [_ Hnew].
    apply (callOn_insertChildren_new (S next) n _ _ _ _ root); [|done|done].
    apply (BtBookmarksModelPrivate_new_objects q None next ∅ 0). }
  rewrite Hcall. cbn [mbind option_bind].
  assert (Hkids : m_children
            (updateItem next (childrenInserted (Z.of_nat (childCount root)) (y :: ys))
                        root)
          = setParent (Some next) <$> (y :: ys)).
  { rewrite updateItem_unfold. rewrite decide_True by done.
    by rewrite childrenInserted_at_end. }
  eexists. split; [done|]. split; [reflexivity|].
  change (content <$> m_children
            (updateItem next (childrenInserted (Z.of_nat (childCount root)) (y :: ys))
                        root)
          = content <$> m_children (m_rootItem st)).
  rewrite Hkids, <- Hcontent, <- list_fmap_compose.
  apply list_fmap_ext. intros _ z _. apply content_setParent.
Qed.

(** ** hasDescendant, loadTree and insertChildren *)

(** X16.  What [hasDescendant] answers: [true] for the folder itself, for
    its direct children, and for every item as soon as one of its direct
    children is a folder; [false] otherwise. *)
Theorem hasDescendant_answers (folder : BookmarkItemBase) (item : ptr) :
  hasDescendant folder item = true ↔
  this folder = item
  ∨ (∃ c, c ∈ m_children folder ∧ this c = item)
  ∨ (∃ c, c ∈ m_children folder ∧ isFolderItem c = true).
Proof.
  rewrite hasDescendant_computes, !orb_true_iff, bool_decide_eq_true.
  rewrite containsPtr_true, existsb_exists.
  assert (Hex : (∃ c, In c (m_children folder) ∧ isFolderItem c = true)
                ↔ (∃ c, c ∈ m_children folder ∧ isFolderItem c = true)).
  { split; intros (c & Hc & Hfolder); exists c; split; try done;
      by apply list_elem_of_In. }
  rewrite Hex. tauto.
Qed.

(** X17.  The loop of [loadTree] ends at the first child of the document
    element that is not an element: the items after a comment or a text are
    not loaded. *)
Theorem loadTree_loop_stops (P : Platform) (before after : list QDomNode)
    (node : QDomNode) (next : ptr) :
  Forall (λ e, isElement e = true) before → isElement node = false →
  loadTree_loop P (before ++ node :: after) next = loadTree_loop P before next.
Proof.
  intros Hbefore Hnode. revert next.
  induction Hbefore as [|e before He _ IH]; intros next; simpl.
  - by rewrite Hnode.
  - rewrite He. destruct (handleXmlElement P e None next) as [i n].
    by rewrite IH.
Qed.

(** X18.  [insertChildren] returns for items that are distinct objects
    and not among the children yet, and for no others, where the assertion
    of [insertChild] fails.  When it returns, at an index that is not
    negative the items stand in their order between the children before the
    index and those from it on, each with its parent set; at an index that
    stays negative for all of them each item stands before the ones put
    before it.  The index is an [int] and stays one. *)
Theorem insertChildren_order (index : Z) (l : list BookmarkItemBase)
    (x : BookmarkItemBase) :
  (0 ≤ index ∧ index + Z.of_nat (length l) < 2 ^ 31)%Z
    ∨ (- 2 ^ 31 ≤ index ∧ index + Z.of_nat (length l) ≤ 0)%Z →
  (is_Some (insertChildren index l x) ↔
   NoDup (this <$> l) ∧ Forall (λ c, this c ∉ this <$> m_children x) l) ∧
  (∀ x', insertChildren index l x = Some x' →
     m_children x' =
       if decide (0 ≤ index)%Z then
         take (Z.to_nat index) (m_children x)
         ++ (setParent (Some (this x)) <$> l)
         ++ drop (Z.to_nat index) (m_children x)
       else reverse (setParent (Some (this x)) <$> l) ++ m_children x).
Proof.
  intros Hindex. split.
  - split.
    + intros [x' Hrun]. by apply insertChildren_inv in Hrun as (_ & ? & ?).
    + intros [Hnd Hnew]. by rewrite insertChildren_Some.
  - intros x' Hrun. apply insertChildren_inv in Hrun as (-> & _ & _).
    destruct (decide (0 ≤ index)%Z) as [Hpos|Hneg].
    + by apply childrenInserted_children.
    + apply childrenInserted_children_before. lia.
Qed.

(** ** Copies *)

Lemma content_unfold (x : BookmarkItemBase) :
  content x =
    match derived x with
    | FolderItem => FolderContent (m_text x) (content <$> m_children x)
    | BookmarkData k de m =>
        BookmarkContent k de m (m_text x) (content <$> m_children x)
    | PlainItem => PlainContent (content <$> m_children x)
    end.
Proof. by destruct x. Qed.

Lemma ownHeader_derived (P : Platform) (x y : BookmarkItemBase) :
  derived y = derived x → ownHeader P y = ownHeader P x.
Proof.
  intros Hd. unfold ownHeader, key, module, moduleName, englishKey.
  by rewrite Hd.
Qed.

(** The copy of a bookmark has its key, its description and its module
    name, and its header for text. *)
Lemma BookmarkItem_copy_fields (P : Platform) (a : ptr) (b : BookmarkItemBase) :
  this (BookmarkItem_copy P a b) = a ∧
  derived (BookmarkItem_copy P a b) = derived b ∧
  m_children (BookmarkItem_copy P a b) = [] ∧
  m_text (BookmarkItem_copy P a b) = ownHeader P b.
Proof.
  split; [done|]. split; [done|]. split; [done|]. simpl.
  by apply ownHeader_derived.
Qed.

Lemma folderTree_unfold (x : BookmarkItemBase) :
  folderTree x =
    match derived x with
    | FolderItem => forallb folderTree (m_children x)
    | BookmarkData _ _ _ =>
        match m_children x with [] => true | _ => false end
    | PlainItem => false
    end.
Proof. by destruct x. Qed.

Lemma contentWithHeaders_unfold (P : Platform) (x : BookmarkItemBase) :
  contentWithHeaders P x =
    match derived x with
    | FolderItem =>
        FolderContent (m_text x) (contentWithHeaders P <$> m_children x)
    | BookmarkData k de m =>
        BookmarkContent k de m (ownHeader P x)
                        (contentWithHeaders P <$> m_children x)
    | PlainItem => PlainContent (contentWithHeaders P <$> m_children x)
    end.
Proof. by destruct x. Qed.

Lemma content_copy (P : Platform) (a : ptr) (p : option ptr)
    (b : BookmarkItemBase) :
  isBookmarkItem b = true → folderTree b = true →
  content (setParent p (BookmarkItem_copy P a b)) = contentWithHeaders P b.
Proof.
  intros Hb Htree. rewrite content_unfold, contentWithHeaders_unfold.
  rewrite folderTree_unfold in Htree. unfold isBookmarkItem in Hb. simpl.
  destruct (derived b) eqn:Hd; try done.
  destruct (m_children b); [|done]. simpl. f_equal.
  apply ownHeader_derived. simpl. done.
Qed.

Lemma addChild_fields (c x x' : BookmarkItemBase) :
  addChild c x = Some x' →
  m_text x' = m_text x ∧
  m_children x' = m_children x ++ [setParent (Some (this x)) c] ∧
  derived x' = derived x.
Proof. by intros [_ ->]%addChild_inv. Qed.

Lemma deepCopy_each_content (P : Platform) (l : list BookmarkItemBase) :
  Forall (λ x, ∀ next c next',
            folderTree x = true → isFolderItem x = true →
            deepCopy P x next = Some (c, next') →
            content c = contentWithHeaders P x) l →
  Forall (λ x, folderTree x = true) l →
  ∀ newFolder next c next',
    derived newFolder = FolderItem →
    deepCopy_each P l newFolder next = Some (c, next') →
    content c =
      FolderContent (m_text newFolder)
        ((content <$> m_children newFolder) ++ (contentWithHeaders P <$> l)).
Proof.
  induction 1 as [|x l Hx _ IH]; intros Htrees nf next c next' Hnf Hrun.
  { simpl in Hrun. injection Hrun as <- <-.
    by rewrite content_unfold, Hnf, app_nil_r. }
  apply Forall_cons in Htrees as [Htree Htrees].
  cbn [deepCopy_each alloc] in Hrun. rewrite fmap_cons.
  destruct (isBookmarkItem x) eqn:Hb.
  { destruct (addChild (BookmarkItem_copy P next x) nf) as [nf'|] eqn:Hadd;
      [|done].
    simpl in Hrun.
    destruct (addChild_fields _ _ _ Hadd) as (Ht & Hk & Hd).
    rewrite (IH Htrees nf' (S next) c next') by (done || congruence).
    rewrite Ht, Hk, fmap_app, fmap_cons.
    rewrite (content_copy P next (Some (this nf)) x Hb Htree).
    by rewrite <- (assoc_L (++)). }
  destruct (isFolderItem x) eqn:Hf.
  { destruct (deepCopy P x next) as [[c1 n1]|] eqn:Hc1; [|done].
    simpl in Hrun.
    specialize (Hx next c1 n1 Htree eq_refl Hc1).
    destruct (addChild c1 nf) as [nf'|] eqn:Hadd; [|done]. simpl in Hrun.
    destruct (addChild_fields _ _ _ Hadd) as (Ht & Hk & Hd).
    rewrite (IH Htrees nf' n1 c next') by (done || congruence).
    rewrite Ht, Hk, fmap_app, fmap_cons.
    rewrite content_setParent, Hx. by rewrite <- (assoc_L (++)). }
  rewrite folderTree_unfold in Htree.
  unfold isBookmarkItem, isFolderItem in Hb, Hf. by destruct (derived x).
Qed.

(** The content of a deep copy, when it has been made. *)
Lemma deepCopy_content_of (P : Platform) (x : BookmarkItemBase) :
  ∀ next c next',
    folderTree x = true → isFolderItem x = true →
    deepCopy P x next = Some (c, next') →
    content c = contentWithHeaders P x.
Proof.
  induction x as [a d kids fl i p t tip IH] using BookmarkItemBase_ind.
  intros next c next' Htree Hfolder Hrun. rewrite deepCopy_unfold in Hrun.
  rewrite folderTree_unfold in Htree. unfold isFolderItem in Hfolder.
  simpl in Htree, Hfolder, Hrun. destruct d; try done.
  assert (Hkids : Forall (λ k, folderTree k = true) kids).
  { apply Forall_forall. intros k Hk.
    rewrite forallb_forall in Htree. by apply Htree, list_elem_of_In. }
  by rewrite (deepCopy_each_content P kids IH Hkids
                (BookmarkFolder_new next t None) (S next) c next' eq_refl Hrun).
Qed.

(** X19.  A deep copy of a folder is made, and it holds the folders and
    the bookmarks below the folder, in their order, with the captions of
    the folders and with key, description and module name of the
    bookmarks; the text of each bookmark is its header, also when the
    bookmark copied had a title. *)
Theorem deepCopy_content (P : Platform) (x : BookmarkItemBase) (next : ptr) :
  folderTree x = true → isFolderItem x = true →
  ∃ c next', deepCopy P x next = Some (c, next') ∧
             content c = contentWithHeaders P x.
Proof.
  intros Htree Hfolder.
  destruct (deepCopy_returns P x next) as (c & next' & Hrun & _).
  exists c, next'. split; [done|].
  by apply (deepCopy_content_of P x next c next').
Qed.

(** The loop of [copyItems] over a selection of bookmarks. *)
Lemma copyItems_loop_bookmarks (P : Platform) (st : State)
    (parent : QModelIndex) (count : nat) (toCopy : list QModelIndex)
    (originals : list BookmarkItemBase) :
  Forall2 (λ index b, deref st (item st index) = Some b
                      ∧ isBookmarkItem b = true) toCopy originals →
  ∀ s, copyItems_loop P st parent count toCopy s =
         Some {| bookmarksOnly := bookmarksOnly s;
                 targetIncluded := targetIncluded s;
                 moreThanOneFolder := moreThanOneFolder s;
                 newList := newList s ++ copiesFrom P (copy_next s) originals;
                 copy_next := (copy_next s + length originals)%nat |}.
Proof.
  induction 1 as [|index b toCopy originals [Hb Hbm] _ IH]; intros s; simpl.
  { unfold copiesFrom. simpl. rewrite app_nil_r, Nat.add_0_r. by destruct s. }
  rewrite Hb. simpl.
  assert (isFolderItem b = false) as ->.
  { unfold isFolderItem, isBookmarkItem in *. by destruct (derived b). }
  rewrite Hbm, IH. simpl. f_equal. f_equal.
  - unfold copiesFrom. rewrite <- (assoc_L (++)). simpl.
    rewrite Nat.add_0_r. do 2 f_equal.
    apply imap_ext. intros i x _. simpl. f_equal. lia.
  - lia.
Qed.

Lemma copiesFrom_lookup (P : Platform) (next : ptr)
    (l : list BookmarkItemBase) (i : nat) :
  copiesFrom P next l !! i
    = BookmarkItem_copy P (next + i) <$> (l !! i).
Proof. unfold copiesFrom. by rewrite list_lookup_imap. Qed.

Lemma copiesFrom_new (P : Platform) (l : list BookmarkItemBase) :
  ∀ next, NewItems next (next + length l) (copiesFrom P next l).
Proof.
  induction l as [|b l IH]; intros next.
  { apply NewItems_nil. }
  unfold copiesFrom. rewrite imap_cons.
  apply (NewItems_app next (S next) _ [_]); [lia|simpl; lia| |].
  - rewrite Nat.add_0_r. apply BookmarkItem_copy_new.
  - specialize (IH (S next)). simpl.
    replace (next + S (length l))%nat with (S next + length l)%nat by lia.
    unfold copiesFrom in IH.
    erewrite imap_ext; [exact IH|]. intros i x _. simpl. f_equal. lia.
Qed.

Lemma mapM_seq_imap {A B : Type} (l : list A) :
  ∀ (g : nat → option B) (h : nat → A → B),
    (∀ i c, l !! i = Some c → g i = Some (h i c)) →
    mapM g (seq 0 (length l)) = Some (imap h l).
Proof.
  induction l as [|c l IH]; intros g h Hall; [done|].
  apply mapM_Some. simpl. constructor; [by apply Hall|].
  rewrite <- fmap_S_seq. apply Forall2_fmap_l. apply mapM_Some.
  apply (IH (g ∘ S) (h ∘ S)). intros i c' Hc'. by apply Hall.
Qed.

(** What [copyItems] leaves after it has put the new items [l] below the
    parent: the indexes it returns and what the pointers find. *)
Lemma copyItems_insert_effect (st : State) (row : Z) (parent : QModelIndex)
    (px : BookmarkItemBase) (l : list BookmarkItemBase) (next' : ptr) :
  TreeOfObjects st → deref st (item st parent) = Some px →
  (0 ≤ row ≤ Z.of_nat (childCount px))%Z →
  (heap_next st ≤ next')%nat → NewItems (heap_next st) next' l →
  let st' := needSave (set_rootItem
                         (updateItem (item st parent) (childrenInserted row l)
                                     (m_rootItem st))
                         (set_heap_next next' st)) in
  mapM (λ i : nat, index st' (row + Z.of_nat i)%Z 0%Z parent) (seq 0 (length l))
    = Some (imap (λ i c, Index (row + Z.of_nat i) 0 (this c)) l) ∧
  (∀ c, c ∈ l → deref st' (this c) = Some (setParent (Some (this px)) c)) ∧
  rowCount st' parent = Some (Z.of_nat (childCount px) + Z.of_nat (length l))%Z ∧
  m_saveTimer st' = m_saveTimer (needSave st).
Proof.
  intros Hst Hpx Hrow Hle Hnew st'.
  pose proof (findItem_Some _ _ px Hpx) as [Hsub Hthis].
  set (st1 := set_rootItem
                (updateItem (item st parent) (childrenInserted row l) (m_rootItem st))
                (set_heap_next next' st)).
  assert (Hst1 : TreeOfObjects st1).
  { by apply (TreeOfObjects_childrenInserted st _ _ _ _ px). }
  destruct (childrenInserted_keeps l row px) as (K1 & K2 & _).
  assert (Hin : ∀ z, z ∈ subitems (childrenInserted row l px) →
                     deref st' (this z) = Some z).
  { intros z Hz. unfold st'. rewrite deref_needSave. unfold deref. simpl.
    apply (findItem_updateItem_inside _ _ _ px); try done;
      [apply Hst|apply Hst1]. }
  assert (Hitem : item st' parent = item st parent).
  { unfold st'. rewrite item_needSave. apply item_same. simpl.
    by apply (updateItem_keeps _ _ _ px). }
  assert (Hparent : deref st' (item st parent) = Some (childrenInserted row l px)).
  { rewrite <- Hthis, <- K1. apply Hin, subitems_here. }
  assert (Hkids : m_children (childrenInserted row l px) =
            take (Z.to_nat row) (m_children px)
            ++ (setParent (Some (this px)) <$> l)
            ++ drop (Z.to_nat row) (m_children px)).
  { apply childrenInserted_children. lia. }
  unfold childCount in Hrow.
  split_and!.
  - apply (mapM_seq_imap l
             (λ i : nat, index st' (row + Z.of_nat i)%Z 0%Z parent)
             (λ i c, Index (row + Z.of_nat i) 0 (this c))).
    intros i c Hc. unfold index. rewrite Hitem, Hparent. simpl.
    pose proof (lookup_lt_Some _ _ _ Hc) as Hlt.
    unfold childCount. rewrite Hkids.
    rewrite !length_app, length_fmap, length_take, length_drop.
    rewrite !bool_decide_eq_true_2 by lia. simpl.
    rewrite lookup_app_r by (rewrite length_take; lia).
    rewrite length_take.
    replace (Z.to_nat (row + Z.of_nat i)
             - Z.to_nat row `min` length (m_children px))%nat with i by lia.
    rewrite lookup_app_l by (rewrite length_fmap; lia).
    by rewrite list_lookup_fmap, Hc.
  - intros c Hc. change (this c) with (this (setParent (Some (this px)) c)).
    apply Hin.
    apply (subitems_child _ (setParent (Some (this px)) c)); [|apply subitems_here].
    rewrite Hkids. apply elem_of_app. right. apply elem_of_app. left.
    by apply list_elem_of_fmap_2.
  - unfold rowCount. rewrite Hitem, Hparent. simpl. f_equal.
    unfold childCount. rewrite Hkids.
    rewrite !length_app, length_fmap, length_take, length_drop. lia.
  - unfold st'. by rewrite needSave_set_rootItem, needSave_set_heap_next.
Qed.

(** X20.  [copyItems] of bookmarks puts a copy of each, in the order of the
    selection, at [row] below the parent, returns their indexes and starts
    the timer of the default model.  A copy has key, description and module
    of its original; its text is its header, also when the original had a
    title. *)
Theorem copyItems_copies_bookmarks (P : Platform) (st : State) (row : Z)
    (parent : QModelIndex) (toCopy : list QModelIndex)
    (px : BookmarkItemBase) (originals : list BookmarkItemBase) :
  TreeOfObjects st → deref st (item st parent) = Some px →
  (0 ≤ row ≤ Z.of_nat (childCount px))%Z →
  Forall2 (λ index b, deref st (item st index) = Some b
                      ∧ isBookmarkItem b = true) toCopy originals →
  ∃ st',
    copyItems P st row parent toCopy =
      Some (imap (λ i _, Index (row + Z.of_nat i) 0 (heap_next st + i)%nat)
                 originals, st') ∧
    (∀ i b, originals !! i = Some b →
       let idx := Index (row + Z.of_nat i) 0 (heap_next st + i)%nat in
       isBookmark st' idx = Some true ∧
       BtBookmarksModel_key P st' idx = Some (key P b) ∧
       BtBookmarksModel_description st' idx = Some (description b) ∧
       BtBookmarksModel_data P st' idx DisplayRole
         = Some (StringVariant (ownHeader P b)) ∧
       rowCount st' idx = Some 0%Z) ∧
    rowCount st' parent
      = Some (Z.of_nat (childCount px) + Z.of_nat (length toCopy))%Z ∧
    m_saveTimer st' = m_saveTimer (needSave st).
Proof.
  intros Hst Hpx Hrow Hsel.
  pose proof (Forall2_length _ _ _ Hsel) as Hlen.
  set (l := copiesFrom P (heap_next st) originals).
  assert (Hl : length l = length originals) by apply length_imap.
  destruct (copyItems_insert_effect st row parent px l
              (heap_next st + length originals) Hst Hpx Hrow)
    as (Hresult & Hnew & Hrows & Htimer); [lia|apply copiesFrom_new|].
  eexists. split; [|split; [|split]].
  - unfold copyItems.
    rewrite (copyItems_loop_bookmarks P st parent _ toCopy originals Hsel).
    cbn [bookmarksOnly targetIncluded moreThanOneFolder newList copy_next
         negb andb orb mbind option_bind app].
    change (item (set_heap_next (heap_next st + length originals) st) parent)
      with (item st parent).
    change (m_rootItem (set_heap_next (heap_next st + length originals) st))
      with (m_rootItem st).
    fold l.
    rewrite (callOn_insertChildren_new (heap_next st)
               (heap_next st + length originals) _ row l _ px (proj1 Hst) Hpx)
      by apply copiesFrom_new.
    cbn [mbind option_bind].
    rewrite Hresult. cbn [mbind option_bind]. do 2 f_equal.
    apply list_eq. intros i. unfold l. rewrite !list_lookup_imap.
    rewrite copiesFrom_lookup. by destruct (originals !! i).
  - intros i b Hb idx.
    assert (Hc : deref
              (needSave
                 (set_rootItem
                    (updateItem (item st parent) (childrenInserted row l)
                                (m_rootItem st))
                    (set_heap_next (heap_next st + length originals) st)))
              (heap_next st + i)%nat
            = Some (setParent (Some (this px))
                      (BookmarkItem_copy P (heap_next st + i) b))).
    { apply (Hnew (BookmarkItem_copy P (heap_next st + i) b)).
      apply list_elem_of_lookup. exists i. unfold l.
      by rewrite copiesFrom_lookup, Hb. }
    destruct (Forall2_lookup_r _ _ _ _ _ Hsel Hb) as (index0 & _ & _ & Hbm).
    unfold isBookmark, BtBookmarksModel_key, BtBookmarksModel_description,
      BtBookmarksModel_data, rowCount, idx.
    rewrite !item_Index by lia. rewrite Hc. cbn [mbind option_bind].
    assert (Hb' : isBookmarkItem (setParent (Some (this px))
                                    (BookmarkItem_copy P (heap_next st + i) b))
                  = true) by done.
    rewrite Hb'. by split_and!.
  - rewrite Hrows. do 2 f_equal. lia.
  - done.
Qed.

(** X21.  A folder that holds a folder is never copied: [hasDescendant]
    answers [true] for every target, and [copyItems] returns the empty list
    and leaves the model as it was. *)
Theorem copyItems_refuses_folder_with_folder (P : Platform) (st : State)
    (row : Z) (parent selected : QModelIndex) (F c : BookmarkItemBase) :
  deref st (item st selected) = Some F →
  isFolderItem F = true →
  c ∈ m_children F → isFolderItem c = true →
  ∃ st', copyItems P st row parent [selected] = Some ([], st') ∧ sameModel st st'.
Proof.
  intros HF Hfolder Hc Hcfolder. unfold copyItems. simpl.
  rewrite HF. simpl. rewrite Hfolder.
  rewrite (hasDescendant_with_child_folder F c _ Hc Hcfolder). simpl.
  destruct (deepCopy_returns P F (heap_next st)) as (c' & next & -> & _).
  simpl. eexists. split; [reflexivity|]. apply sameModel_set_heap_next.
Qed.

(** X22.  [copyItems] of one folder for which [hasDescendant] does not
    answer [true] puts a deep copy of it at [row] below the parent, returns
    its index and starts the timer of the default model.  The copy holds
    what the folder holds, the bookmarks with their headers for texts. *)
Theorem copyItems_copies_folder (P : Platform) (st : State) (row : Z)
    (parent selected : QModelIndex) (F px : BookmarkItemBase) :
  TreeOfObjects st → deref st (item st parent) = Some px →
  (0 ≤ row ≤ Z.of_nat (childCount px))%Z →
  deref st (item st selected) = Some F →
  isFolderItem F = true → folderTree F = true →
  hasDescendant F (item st parent) = false →
  ∃ st' copy,
    copyItems P st row parent [selected]
      = Some ([Index row 0 (heap_next st)], st') ∧
    deref st' (heap_next st) = Some copy ∧
    content copy = contentWithHeaders P F ∧
    rowCount st' parent = Some (Z.of_nat (childCount px) + 1)%Z ∧
    m_saveTimer st' = m_saveTimer (needSave st).
Proof.
  intros Hst Hpx Hrow HF Hfolder Htree Hdesc.
  destruct (deepCopy_returns P F (heap_next st)) as (c & next & Hc & _).
  destruct (deepCopy_new P F _ _ _ Hc) as (Hlt & Hthis & Hnew).
  pose proof (deepCopy_content_of P F _ _ _ Htree Hfolder Hc) as Hcontent.
  destruct (copyItems_insert_effect st row parent px [c] next Hst Hpx Hrow)
    as (Hresult & Hderef & Hrows & Htimer); [lia|done|].
  eexists. exists (setParent (Some (this px)) c). split; [|split; [|split]].
  - unfold copyItems. simpl. rewrite HF. simpl. rewrite Hfolder, Hdesc. simpl.
    rewrite Hc. simpl.
    change (item (set_heap_next next st) parent) with (item st parent).
    change (m_rootItem (set_heap_next next st)) with (m_rootItem st).
    change (λ x : BookmarkItemBase,
              insertChild row c x ≫= λ x0 : BookmarkItemBase, Some x0)
      with (insertChildren row [c]).
    rewrite (callOn_insertChildren_new (heap_next st) next _ row [c] _ px
               (proj1 Hst) Hpx Hnew).
    cbn [mbind option_bind]. simpl in Hresult.
    rewrite Z.add_0_r in Hresult |- *.
    destruct (index _ row 0 parent) as [idx|]; [|done].
    simpl in Hresult |- *.
    injection Hresult as ->. by rewrite Hthis.
  - rewrite <- Hthis. apply Hderef. by apply list_elem_of_here.
  - by rewrite content_setParent.
  - done.
Qed.

(** ** The tree of a model stays a tree of objects *)

(** X23.  A model made by a constructor has a tree of objects: no item is
    in it twice, every item was made by the allocator before, every child
    has its parent for [m_parent], and the root has none. *)
Theorem new_model_is_tree_of_objects (P : Platform) (fileName : string)
    (q : nat) (defaultModel : option nat) (next : ptr)
    (fs : gmap string QFile) (now : Z) (st : State) :
  BtBookmarksModel_new_from P fileName q defaultModel next fs now = Some st →
  TreeOfObjects st.
Proof.
  unfold BtBookmarksModel_new_from.
  destruct (load P _ fileName InvalidIndex) as [[b st']|] eqn:Hload; [|done].
  intros [= <-]. apply (load_objects _ _ _ _ _ _ (BtBookmarksModelPrivate_new_objects
                          q defaultModel next fs now) Hload).
Qed.

(** X24.  [load] keeps the tree a tree of objects: the items of the file
    are new objects. *)
Theorem load_keeps_tree_of_objects (P : Platform) (st : State)
    (fileName : string) (rootItem : QModelIndex) (b : bool) (st' : State) :
  TreeOfObjects st → load P st fileName rootItem = Some (b, st') →
  TreeOfObjects st'.
Proof. apply load_objects. Qed.

(** X25.  [copyItems] keeps the tree a tree of objects: what it puts in are
    copies, new objects, never the items selected. *)
Theorem copyItems_keeps_tree_of_objects (P : Platform) (st : State) (row : Z)
    (parent : QModelIndex) (toCopy result : list QModelIndex) (st' : State) :
  TreeOfObjects st →
  copyItems P st row parent toCopy = Some (result, st') →
  TreeOfObjects st'.
Proof. apply copyItems_objects. Qed.

(** X26.  [insertRows], [removeRows], [addFolder] and [addBookmark] keep
    the tree a tree of objects. *)
Theorem rows_keep_tree_of_objects (P : Platform) (st : State) :
  TreeOfObjects st →
  (∀ row count parent b st',
     insertRows st row count parent = Some (b, st') → TreeOfObjects st') ∧
  (∀ row count parent b st',
     removeRows st row count parent = Some (b, st') → TreeOfObjects st') ∧
  (∀ row parent name index st',
     addFolder P st row parent name = Some (index, st') → TreeOfObjects st') ∧
  (∀ row parent module key description title index st',
     addBookmark P st row parent module key description title
       = Some (index, st') → TreeOfObjects st').
Proof.
  intros Hst. split_and!.
  - intros row count parent b st'. by apply insertRows_objects.
  - intros row count parent b st'. by apply removeRows_objects.
  - intros row parent name index st'. by apply addFolder_objects.
  - intros row parent module key description title index st'.
    by apply addBookmark_objects.
Qed.

(** X27.  [setData], [setDescription] and, with a [std::sort] that keeps
    the elements, [sortItems] keep the tree a tree of objects. *)
Theorem edits_keep_tree_of_objects (P : Platform) (st : State) :
  SortContract P → TreeOfObjects st →
  (∀ index val role b st',
     setData st index val role = Some (b, st') → TreeOfObjects st') ∧
  (∀ index text st',
     BtBookmarksModel_setDescription st index text = Some st' →
     TreeOfObjects st') ∧
  (∀ parent order st',
     sortItems P st parent order = Some st' → TreeOfObjects st').
Proof.
  intros Hsort Hst. split_and!.
  - intros index val role b st'. by apply setData_objects.
  - intros index text st'. by apply setDescription_objects.
  - intros parent order st'. by apply sortItems_objects.
Qed.

(** ** The theorems at work *)

(** A concrete tree of objects, by running the three checks. *)
Ltac objects_by_computation :=
  split; [split; [by_computation|by_computation|vm_compute; reflexivity]
         |vm_compute; reflexivity].

(** The theorem at work: the first row of the root of [favoritesState] is removed. *)
Lemma removeRows_removes_witness :
  ∃ st' x',
    removeRows favoritesState 0 1 InvalidIndex = Some (true, st') ∧
    deref st' (item st' InvalidIndex) = Some x' ∧
    m_children x' =
      take (Z.to_nat 0) (m_children favoritesRoot)
      ++ drop (Z.to_nat (0 + 1)) (m_children favoritesRoot) ∧
    rowCount st' InvalidIndex
      = Some (Z.of_nat (childCount favoritesRoot) - 1)%Z ∧
    m_saveTimer st' = m_saveTimer (needSave favoritesState) ∧
    (∀ c a, c ∈ take (Z.to_nat 1) (drop (Z.to_nat 0) (m_children favoritesRoot)) →
            a ∈ addresses c → deref st' a = None) ∧
    (∀ c y, c ∈ m_children x' → y ∈ subitems c → deref st' (this y) = Some y).
Proof.
  apply (removeRows_removes favoritesState 0 1 InvalidIndex favoritesRoot).
  - by_computation.
  - vm_compute. reflexivity.
  - lia.
  - lia.
  - by_computation.
Defined.

(** The theorem at work: two rows inserted into [favoritesState]. *)
Lemma insertRows_not_serialized_witness :
  serializeTreeFromRootItem samplePlatform (m_rootItem placeholdersState)
    = serializeTreeFromRootItem samplePlatform (m_rootItem favoritesState).
Proof.
  apply (insertRows_not_serialized samplePlatform favoritesState 1 2
           InvalidIndex true placeholdersState).
  vm_compute. reflexivity.
Defined.

(** The theorem at work: two rows inserted at row 1 of the root of [favoritesState]. *)
Lemma insertRows_inserts_placeholders_witness :
  ∃ st',
    insertRows favoritesState 1 2 InvalidIndex = Some (true, st') ∧
    rowCount st' InvalidIndex
      = Some (Z.of_nat (childCount favoritesRoot) + 2)%Z ∧
    m_saveTimer st' = m_saveTimer favoritesState ∧
    (∀ i, (1 ≤ i < 1 + 2)%Z →
       ∃ idx, index st' i 0 InvalidIndex = Some idx ∧ isValid idx = true ∧
              isFolder st' idx = Some false ∧
              isBookmark st' idx = Some false ∧
              rowCount st' idx = Some 0%Z ∧
              BtBookmarksModel_data samplePlatform st' idx DisplayRole
                = Some (StringVariant "") ∧
              BtBookmarksModel_data samplePlatform st' idx TypeRole
                = Some (StringVariant "folder")).
Proof.
  apply (insertRows_inserts_placeholders samplePlatform favoritesState 1 2
           InvalidIndex favoritesRoot).
  - objects_by_computation.
  - vm_compute. reflexivity.
  - lia.
  - lia.
  - by_computation.
Defined.

(** The theorem at work: two rows inserted at row 1 of the root of [favoritesState], and removed. *)
Lemma insertRows_then_removeRows_witness :
  ∃ st1 st2,
    insertRows favoritesState 1 2 InvalidIndex = Some (true, st1) ∧
    removeRows st1 1 2 InvalidIndex = Some (true, st2) ∧
    m_rootItem st2 = m_rootItem favoritesState ∧
    m_saveTimer st2 = m_saveTimer (needSave favoritesState).
Proof.
  apply (insertRows_then_removeRows favoritesState 1 2 InvalidIndex favoritesRoot).
  - objects_by_computation.
  - vm_compute. reflexivity.
  - by_computation.
  - lia.
  - by_computation.
Defined.

(** The theorem at work: a folder without name added to [Favorites]. *)
Lemma addFolder_adds_witness :
  isFolderItem favoritesFolder = true ∧
  (∃ st',
     let place := Z.of_nat (Z.to_nat 0 `min` childCount favoritesFolder) in
     let idx := Index place 0 (heap_next favoritesState) in
     addFolder samplePlatform favoritesState 0 (Index 0 0 1) ""
       = Some (idx, st') ∧
     index st' place 0 (Index 0 0 1) = Some idx ∧
     isFolder st' idx = Some true ∧
     rowCount st' idx = Some 0%Z ∧
     BtBookmarksModel_data samplePlatform st' idx DisplayRole
       = Some (StringVariant (if decide ("" = "")
                              then tr samplePlatform "New folder" else "")) ∧
     rowCount st' (Index 0 0 1)
       = Some (Z.of_nat (childCount favoritesFolder) + 1)%Z ∧
     m_saveTimer st' = m_saveTimer (needSave favoritesState)).
Proof.
  split; [reflexivity|].
  refine (proj2 (addFolder_adds samplePlatform favoritesState 0 (Index 0 0 1) ""
                   favoritesFolder _ _) _).
  - objects_by_computation.
  - vm_compute. reflexivity.
  - reflexivity.
Defined.

(** The theorem at work: a bookmark added at row -1 of the root of [favoritesState]. *)
Lemma addBookmark_adds_witness :
  isFolderItem favoritesRoot = true ∧
  (∃ st',
     let idx := Index 2 0 (heap_next favoritesState) in
     addBookmark samplePlatform favoritesState (-1) InvalidIndex KJV
       "Genesis 1:1" "The beginning" "A title" = Some (idx, st') ∧
     (∀ title', addBookmark samplePlatform favoritesState (-1) InvalidIndex KJV
                  "Genesis 1:1" "The beginning" title' = Some (idx, st')) ∧
     index st' 2 0 InvalidIndex = Some idx ∧
     isBookmark st' idx = Some true ∧
     rowCount st' idx = Some 0%Z ∧
     BtBookmarksModel_data samplePlatform st' idx DisplayRole
       = Some (StringVariant (toHeader "Genesis 1:1" (mod_name KJV))) ∧
     BtBookmarksModel_description st' idx = Some "The beginning" ∧
     BtBookmarksModel_module samplePlatform st' idx
       = Some (findModuleByName samplePlatform (mod_name KJV)) ∧
     rowCount st' InvalidIndex
       = Some (Z.of_nat (childCount favoritesRoot) + 1)%Z ∧
     m_saveTimer st' = m_saveTimer (needSave favoritesState)).
Proof.
  split; [reflexivity|].
  refine (proj2 (addBookmark_adds samplePlatform favoritesState (-1)
                   InvalidIndex KJV "Genesis 1:1" "The beginning" "A title"
                   favoritesRoot 2 _ _ _) _).
  - objects_by_computation.
  - vm_compute. reflexivity.
  - right. split; by_computation.
  - reflexivity.
Defined.

(** The theorem at work: the parent of the bookmark of [Favorites]. *)
Lemma parent_of_index_witness :
  BtBookmarksModel_parent favoritesState (Index 0 0 2) = Some (Index 0 0 1).
Proof.
  apply (parent_of_index favoritesState 0 0 (Index 0 0 1) (Index 0 0 2)).
  - objects_by_computation.
  - apply (model_child favoritesState 0 InvalidIndex).
    + apply model_root.
    + vm_compute. reflexivity.
    + reflexivity.
  - vm_compute. reflexivity.
  - reflexivity.
Defined.

(** The theorem at work: a text for the bookmark of [Favorites]. *)
Lemma setData_then_data_witness :
  ∃ st',
    setData favoritesState (Index 0 0 2) "John" EditRole = Some (true, st') ∧
    setData favoritesState (Index 0 0 2) "John" DisplayRole = Some (true, st') ∧
    BtBookmarksModel_data samplePlatform st' (Index 0 0 2) DisplayRole
      = Some (StringVariant "John") ∧
    BtBookmarksModel_data samplePlatform st' (Index 0 0 2) EditRole
      = Some (StringVariant "John") ∧
    (∀ other role,
       item favoritesState other ≠ item favoritesState (Index 0 0 2) →
       is_Some (deref favoritesState (item favoritesState other)) →
       BtBookmarksModel_data samplePlatform st' other role
         = BtBookmarksModel_data samplePlatform favoritesState other role) ∧
    m_saveTimer st' =
      m_saveTimer (if isFolderItem favoritesBookmark
                      || isBookmarkItem favoritesBookmark
                   then needSave favoritesState else favoritesState).
Proof.
  apply (setData_then_data samplePlatform favoritesState (Index 0 0 2) "John"
           favoritesBookmark).
  - by_computation.
  - vm_compute. reflexivity.
Defined.

(** The theorem at work: a tool tip for the bookmark of [Favorites]. *)
Lemma setData_tooltip_witness :
  ∃ st',
    setData favoritesState (Index 0 0 2) "A tip" ToolTipRole = Some (true, st') ∧
    BtBookmarksModel_data samplePlatform st' (Index 0 0 2) ToolTipRole
      = Some (StringVariant
                (if isBookmarkItem favoritesBookmark
                 then toolTip samplePlatform favoritesBookmark else "A tip")) ∧
    serializeTreeFromRootItem samplePlatform (m_rootItem st')
      = serializeTreeFromRootItem samplePlatform (m_rootItem favoritesState).
Proof.
  apply (setData_tooltip samplePlatform favoritesState (Index 0 0 2) "A tip"
           favoritesBookmark).
  - by_computation.
  - vm_compute. reflexivity.
Defined.

(** The theorem at work: a description for the bookmark of [Favorites]. *)
Lemma setDescription_then_description_witness :
  isBookmarkItem favoritesBookmark = true ∧
  (∃ st',
     BtBookmarksModel_setDescription favoritesState (Index 0 0 2) "A verse"
       = Some st' ∧
     BtBookmarksModel_description st' (Index 0 0 2) = Some "A verse" ∧
     BtBookmarksModel_key samplePlatform st' (Index 0 0 2)
       = BtBookmarksModel_key samplePlatform favoritesState (Index 0 0 2) ∧
     BtBookmarksModel_data samplePlatform st' (Index 0 0 2) DisplayRole
       = BtBookmarksModel_data samplePlatform favoritesState (Index 0 0 2)
           DisplayRole ∧
     m_saveTimer st' = m_saveTimer (needSave favoritesState)).
Proof.
  split; [reflexivity|].
  refine (proj2 (setDescription_then_description samplePlatform favoritesState
                   (Index 0 0 2) "A verse" favoritesBookmark _ _) _).
  - by_computation.
  - vm_compute. reflexivity.
  - reflexivity.
Defined.

(** The theorem at work: [favoritesState], a model made from a named file. *)
Lemma other_models_never_save_witness :
  m_defaultModel favoritesState = None ∧
  ∃ st',
    setData favoritesState (Index 0 0 2) "John" EditRole = Some (true, st') ∧
    m_saveTimer st' = m_saveTimer favoritesState.
Proof.
  split; [reflexivity|]. eexists. split; [reflexivity|].
  refine (proj1 (other_models_never_save samplePlatform favoritesState _)
            (Index 0 0 2) "John" EditRole true _ _).
  - vm_compute. discriminate.
  - reflexivity.
Defined.

(** The theorem at work: a change at 1000 and the destructor at 5000. *)
Lemma pending_change_saved_once_witness :
  ∃ s1 s2,
    processEvents samplePlatform 5000 (needSave (set_clock 1000 restingState))
      = Some s1 ∧
    BtBookmarksModel_delete samplePlatform s1 = Some s2 ∧
    written s2 =
      (defaultBookmarksFile samplePlatform,
       serializeTreeFromRootItem samplePlatform (m_rootItem restingState))
        :: written restingState ∧
    files s2 !! defaultBookmarksFile samplePlatform
      = Some (Readable (serializeTreeFromRootItem samplePlatform
                          (m_rootItem restingState))).
Proof.
  apply (pending_change_saved_once samplePlatform restingState 1000 5000).
  - by split.
  - lia.
Defined.

(** The theorem at work: the default model of [restingState]. *)
Lemma default_model_only_once_witness :
  (None : option nat) = None ∧
  m_defaultModel restingState = Some 7 ∧ m_defaultModel restingState = Some 7 ∧
  ∀ q' next' fs' now',
    BtBookmarksModel_new samplePlatform q' (m_defaultModel restingState)
      next' fs' now' = None.
Proof.
  apply (default_model_only_once samplePlatform 7 None 0 ∅ 0 restingState
           restingState).
  - vm_compute. reflexivity.
  - vm_compute. reflexivity.
Defined.

(** The theorem at work: [favoritesState] saved to a file and loaded from it. *)
Lemma save_then_load_witness :
  ∃ st1 st2,
    save samplePlatform favoritesState "copy.xml" InvalidIndex = Some (true, st1) ∧
    BtBookmarksModel_new_from samplePlatform "copy.xml" 8 (m_defaultModel st1) 10
      (files st1) 0 = Some st2 ∧
    content <$> m_children (m_rootItem st2)
      = content <$> m_children (m_rootItem favoritesState).
Proof.
  apply (save_then_load samplePlatform favoritesState "copy.xml" 8 10 0).
  - by_computation.
  - vm_compute. reflexivity.
  - discriminate.
Defined.

(** The theorem at work: a comment between two folders. *)
Lemma loadTree_loop_stops_witness :
  loadTree_loop samplePlatform
      (folderBeforeComment ++ CommentNode "later" :: folderAfterComment) 0
    = loadTree_loop samplePlatform folderBeforeComment 0.
Proof.
  apply (loadTree_loop_stops samplePlatform folderBeforeComment
           folderAfterComment (CommentNode "later") 0).
  - by_computation.
  - reflexivity.
Defined.

(** The theorem at work: two new folders inserted below the root at
    index -2. *)
Lemma insertChildren_order_witness :
  ∃ x',
    insertChildren (-2) [BookmarkFolder_new 9 "New" None;
                         BookmarkFolder_new 10 "Newer" None]
                   favoritesRoot = Some x' ∧
    m_children x' =
      reverse (setParent (Some (this favoritesRoot))
                 <$> [BookmarkFolder_new 9 "New" None;
                      BookmarkFolder_new 10 "Newer" None])
      ++ m_children favoritesRoot.
Proof.
  eexists. split; [reflexivity|].
  refine (proj2 (insertChildren_order (-2)
                   [BookmarkFolder_new 9 "New" None;
                    BookmarkFolder_new 10 "Newer" None]
                   favoritesRoot _) _ _).
  - right. simpl. lia.
  - reflexivity.
Defined.

(** The theorem at work: the deep copy of [Favorites], whose bookmark has a title. *)
Lemma deepCopy_content_witness :
  ∃ c next',
    deepCopy samplePlatform favoritesFolder 10 = Some (c, next') ∧
    content c = contentWithHeaders samplePlatform favoritesFolder.
Proof.
  apply (deepCopy_content samplePlatform favoritesFolder 10).
  - vm_compute. reflexivity.
  - vm_compute. reflexivity.
Defined.

(** The theorem at work: the bookmark of [Favorites] copied to [Other]. *)
Lemma copyItems_copies_bookmarks_witness :
  ∃ st',
    copyItems samplePlatform favoritesState 0 (Index 1 0 3) [Index 0 0 2] =
      Some (imap (λ i _, Index (0 + Z.of_nat i) 0 (heap_next favoritesState + i)%nat)
                 [favoritesBookmark], st') ∧
    (∀ i b, [favoritesBookmark] !! i = Some b →
       let idx := Index (0 + Z.of_nat i) 0 (heap_next favoritesState + i)%nat in
       isBookmark st' idx = Some true ∧
       BtBookmarksModel_key samplePlatform st' idx = Some (key samplePlatform b) ∧
       BtBookmarksModel_description st' idx = Some (description b) ∧
       BtBookmarksModel_data samplePlatform st' idx DisplayRole
         = Some (StringVariant (ownHeader samplePlatform b)) ∧
       rowCount st' idx = Some 0%Z) ∧
    rowCount st' (Index 1 0 3)
      = Some (Z.of_nat (childCount otherFolder)
              + Z.of_nat (length [Index 0 0 2%nat]))%Z ∧
    m_saveTimer st' = m_saveTimer (needSave favoritesState).
Proof.
  apply (copyItems_copies_bookmarks samplePlatform favoritesState 0
           (Index 1 0 3) [Index 0 0 2] otherFolder [favoritesBookmark]).
  - objects_by_computation.
  - vm_compute. reflexivity.
  - by_computation.
  - constructor; [|constructor]. split; vm_compute; reflexivity.
Defined.

(** The theorem at work: [Outer], which holds [Inner], copied to [Other]. *)
Lemma copyItems_refuses_folder_with_folder_witness :
  ∃ st', copyItems samplePlatform nestedState 0 (Index 1 0 3) [Index 0 0 1]
           = Some ([], st') ∧ sameModel nestedState st'.
Proof.
  apply (copyItems_refuses_folder_with_folder samplePlatform nestedState 0
           (Index 1 0 3) (Index 0 0 1) outerFolder innerFolder).
  - vm_compute. reflexivity.
  - vm_compute. reflexivity.
  - apply list_elem_of_lookup. exists 0. vm_compute. reflexivity.
  - vm_compute. reflexivity.
Defined.

(** The theorem at work: [Favorites] copied to [Other]. *)
Lemma copyItems_copies_folder_witness :
  ∃ st' copy,
    copyItems samplePlatform favoritesState 0 (Index 1 0 3) [Index 0 0 1]
      = Some ([Index 0 0 (heap_next favoritesState)], st') ∧
    deref st' (heap_next favoritesState) = Some copy ∧
    content copy = contentWithHeaders samplePlatform favoritesFolder ∧
    rowCount st' (Index 1 0 3) = Some (Z.of_nat (childCount otherFolder) + 1)%Z ∧
    m_saveTimer st' = m_saveTimer (needSave favoritesState).
Proof.
  apply (copyItems_copies_folder samplePlatform favoritesState 0 (Index 1 0 3)
           (Index 0 0 1) favoritesFolder otherFolder).
  - objects_by_computation.
  - vm_compute. reflexivity.
  - by_computation.
  - vm_compute. reflexivity.
  - vm_compute. reflexivity.
  - vm_compute. reflexivity.
  - vm_compute. reflexivity.
Defined.

(** The theorem at work: the model made from the file of [favoritesFiles]. *)
Lemma new_model_is_tree_of_objects_witness : TreeOfObjects favoritesState.
Proof.
  apply (new_model_is_tree_of_objects samplePlatform "bookmarks.xml" 7 None 0
           favoritesFiles 0 favoritesState).
  vm_compute. reflexivity.
Defined.

(** The theorem at work: [load] of the file of [favoritesFiles]. *)
Lemma load_keeps_tree_of_objects_witness : TreeOfObjects favoritesState.
Proof.
  apply (load_keeps_tree_of_objects samplePlatform
           (BtBookmarksModelPrivate_new 7 None 0 favoritesFiles 0)
           "bookmarks.xml" InvalidIndex true favoritesState).
  - objects_by_computation.
  - vm_compute. reflexivity.
Defined.

(** The theorem at work: the bookmark of [Favorites] copied onto itself. *)
Lemma copyItems_keeps_tree_of_objects_witness :
  TreeOfObjects bookmarkWithChildState.
Proof.
  apply (copyItems_keeps_tree_of_objects samplePlatform favoritesState 0
           (Index 0 0 2) [Index 0 0 2] [Index 0 0 4] bookmarkWithChildState).
  - objects_by_computation.
  - vm_compute. reflexivity.
Defined.

(** The theorem at work: rows inserted into [favoritesState]. *)
Lemma rows_keep_tree_of_objects_witness :
  ∃ st',
    insertRows favoritesState 1 2 InvalidIndex = Some (true, st') ∧
    TreeOfObjects st'.
Proof.
  eexists. split; [reflexivity|].
  refine (proj1 (rows_keep_tree_of_objects samplePlatform favoritesState _)
            1%Z 2%Z InvalidIndex true _ _).
  - objects_by_computation.
  - reflexivity.
Defined.

(** The theorem at work: a text set in [favoritesState]. *)
Lemma edits_keep_tree_of_objects_witness :
  ∃ st',
    setData favoritesState (Index 0 0 2) "John" EditRole = Some (true, st') ∧
    TreeOfObjects st'.
Proof.
  eexists. split; [reflexivity|].
  refine (proj1 (edits_keep_tree_of_objects samplePlatform favoritesState _ _)
            (Index 0 0 2) "John" EditRole true _ _).
  - apply samplePlatform_contract.
  - objects_by_computation.
  - reflexivity.
Defined.


(** With row -1 a new folder comes first and a new bookmark comes last. *)
Example row_minus_one :
  fst <$> addFolder samplePlatform favoritesState (-1) InvalidIndex "Psalms"
    = Some (Index 0 0 4) ∧
  fst <$> addBookmark samplePlatform favoritesState (-1) InvalidIndex KJV
            "Psalm 23:1" "" ""
    = Some (Index 2 0 4).
Proof. split; vm_compute; reflexivity. Qed.

(** The deep copy of [Favorites]: the title of its bookmark, [Key Verse], has
    given way to the header. *)
Example deepCopy_of_favorites :
  content favoritesFolder =
    FolderContent "Favorites"
      [BookmarkContent "John 3:16" "" "KJV" "Key Verse" []] ∧
  content <$> (fst <$> deepCopy samplePlatform favoritesFolder 10) =
    Some (FolderContent "Favorites"
            [BookmarkContent "John 3:16" "" "KJV" "John 3:16 (KJV)" []]).
Proof. split; vm_compute; reflexivity. Qed.
